(** * ShortsBaksa: scene timeline synchronisation and multi-clip rendering

    A shallow embedding of the segmenter ([src/lib/multi-clip.ts]), the clip
    orchestrator ([src/lib/multi-clip.ts], [src/scenes/SceneManager.ts]), the
    duration adjuster ([VideoManager]) and the merger ([src/lib/ffmpeg.ts],
    [src/timeline/TimelineComposer.ts]).

    Conventions of the embedding.
    - A JavaScript [number] that holds a duration is an exact rational ([Q]);
      NaN and the infinities are outside the model.  The code computes in
      IEEE doubles, which round every quotient, product and sum: a statement
      below that bounds a computed duration leaves room for that rounding,
      and [Math.round] of an exact value and of its double agree except
      within that rounding of a tie.
    - A script is the list of its UTF-16 code units, because [String.length],
      [trim] and the regular expression of [splitIntoSentences] all work on
      code units.  Paths, identifiers, prompts and other texts are [string]s,
      which hold the UTF-8 bytes of the text.
    - The duration of a file that ffmpeg writes is read off the flags of the
      command line ([Media.run]).
    - A function that can [throw] returns [Result]; code that talks to the file
      system or to ffmpeg threads a [Files] store and a log of the commands it
      ran through the monad [M]. *)

From stdpp Require Import gmap strings list pretty.
From Stdlib Require Import QArith Qround Qabs Qminmax Lqa ZArith Lia.
From Stdlib Require Import Sorting.Sorted Sorting.Permutation.

Open Scope Q_scope.

(* ===================================================================== *)
(** ** Numbers *)
(* ===================================================================== *)

Module JS.

(** [a < b] and [a > b] on numbers. *)
Definition ltb (a b : Q) : bool := negb (Qle_bool b a).
Definition gtb (a b : Q) : bool := ltb b a.

(** [Math.round(x)]: the nearest integer, ties towards +infinity. *)
Definition round (x : Q) : Z := Qfloor (x + (1 # 2)).

(** [Math.round(x * 10) / 10], on the exact value of [x]: the nearest
    tenth.  When the exact [x] lies midway between two tenths, or within the
    rounding of a double of it, the code's double can come out on either
    side. *)
Definition round1 (x : Q) : Q := inject_Z (round (x * 10)) / 10.

(** [Math.abs]. *)
Definition abs (x : Q) : Q := Qabs x.

(** [if (d < lo) d = lo; if (d > hi) d = hi;] *)
Definition clamp (lo hi d : Q) : Q :=
  let d1 := if ltb d lo then lo else d in
  if gtb d1 hi then hi else d1.

(** A string is truthy when it is not empty. *)
Definition truthy (s : string) : bool :=
  match s with EmptyString => false | _ => true end.

Definition truthy_opt (s : option string) : bool :=
  match s with Some s => truthy s | None => false end.

(** A [string] holds the UTF-8 bytes of a text, and the methods that count
    count UTF-16 code units: a character of one, two or three bytes is one
    code unit, a character of four bytes is a surrogate pair, two code
    units. *)
Definition isContinuation (c : Ascii.ascii) : bool :=
  let b := Ascii.N_of_ascii c in ((128 <=? b) && (b <? 192))%N.

Definition isFourByteLead (c : Ascii.ascii) : bool :=
  (240 <=? Ascii.N_of_ascii c)%N.

(** The first half of the surrogate pair of a character of four bytes, in
    the three bytes of its own that a lone surrogate takes. *)
Definition highSurrogate (lead : Ascii.ascii) (rest : string) : string :=
  match rest with
  | String c1 (String c2 _) =>
      let codePoint :=
        ((Ascii.N_of_ascii lead mod 8) * 262144
         + (Ascii.N_of_ascii c1 mod 64) * 4096
         + (Ascii.N_of_ascii c2 mod 64) * 64)%N in
      let unit := (55296 + (codePoint - 65536) / 1024)%N in
      String (Ascii.ascii_of_N 237)
        (String (Ascii.ascii_of_N (128 + (unit / 64) mod 64))
           (String (Ascii.ascii_of_N (128 + unit mod 64)) EmptyString))
  | _ => EmptyString
  end.

(** [s.substring(0, n)]: the first [n] code units.  A cut inside a
    surrogate pair keeps its first half. *)
Fixpoint substring (n : nat) (s : string) : string :=
  match s with
  | EmptyString => EmptyString
  | String c s' =>
      if isContinuation c then String c (substring n s')
      else match n with
           | O => EmptyString
           | S n' =>
               if isFourByteLead c then
                 match n' with
                 | O => highSurrogate c s'
                 | S n'' => String c (substring n'' s')
                 end
               else String c (substring n' s')
           end
  end.

(** [s.startsWith(p)]. *)
Fixpoint startsWith (p s : string) : bool :=
  match p, s with
  | EmptyString, _ => true
  | String a p', String b s' => if Ascii.eqb a b then startsWith p' s' else false
  | String _ _, EmptyString => false
  end.

End JS.

(** Outcome of a call that may throw. *)
Inductive Result (A : Type) : Type :=
| Ok (a : A)
| Throw (msg : string).
Arguments Ok {A} a.
Arguments Throw {A} msg.

(* ===================================================================== *)
(** ** Segmenter: [splitIntoSentences], [splitScriptWithDurations] *)
(* ===================================================================== *)

Module Segmenter.

(** UTF-16 code units. *)
Definition jsstring := list N.

(** The class [\s] of a regular expression without the [u] flag, which is
    also what [trim] strips. *)
Definition is_space (c : N) : bool :=
  ((9 <=? c) && (c <=? 13) || (c =? 32) || (c =? 160) || (c =? 5760)
   || (8192 <=? c) && (c <=? 8202) || (c =? 8232) || (c =? 8233)
   || (c =? 8239) || (c =? 8287) || (c =? 12288) || (c =? 65279))%N.

(** The class [[.!?。]]. *)
Definition is_term (c : N) : bool :=
  ((c =? 46) || (c =? 33) || (c =? 63) || (c =? 12290))%N.

(** [script.split(/(?<=[.!?。])\s*/)].

    The pattern matches at a position [q] exactly when the code unit before
    [q] is a terminator, and then consumes the white space that follows.
    [split] tries the positions [q < size] from left to right; a match that
    ends where the pending piece starts (an empty match right after a cut)
    is skipped, any other match closes the piece [S[p..q)] and restarts
    after the white space.  [cur] is the pending piece, reversed;
    [prev_term] says that the code unit before [q] is a terminator of the
    pending piece; [skipping] says that the white space of a match is being
    consumed. *)
Fixpoint split_go (cur : jsstring) (prev_term skipping : bool) (s : jsstring)
  : list jsstring :=
  match s with
  | [] => [rev cur]
  | c :: s' =>
      if skipping then
        if is_space c then split_go [] false true s'
        else split_go [c] (is_term c) false s'
      else if prev_term then
        rev cur ::
          (if is_space c then split_go [] false true s'
           else split_go [c] (is_term c) false s')
      else split_go (c :: cur) (is_term c) false s'
  end.

Definition split (s : jsstring) : list jsstring := split_go [] false false s.

Fixpoint trimStart (s : jsstring) : jsstring :=
  match s with
  | c :: s' => if is_space c then trimStart s' else s
  | [] => []
  end.

(** [s.trim()]. *)
Definition trim (s : jsstring) : jsstring :=
  rev (trimStart (rev (trimStart s))).

Definition splitIntoSentences (script : jsstring) : list jsstring :=
  filter (fun s => (0 < length s)%nat) (map trim (split script)).

Record ScriptSection := { text : jsstring; duration : Q }.

(** [parts.join(' ')]. *)
Fixpoint join (parts : list jsstring) : jsstring :=
  match parts with
  | [] => []
  | [p] => p
  | p :: rest => p ++ 32%N :: join rest
  end.

Definition len (s : jsstring) : Q := inject_Z (Z.of_nat (length s)).

Section Split.
Variables (charsPerSecond targetClipDuration minDuration maxDuration : Q).

(** The [for] loop over the sentences: [currentSentences] and
    [currentDuration] are the loop variables, the result is the sections
    pushed from this sentence on. *)
Fixpoint buildSections (sentences : list jsstring)
    (currentSentences : list jsstring) (currentDuration : Q)
  : list ScriptSection :=
  match sentences with
  | [] => []
  | sentence :: rest =>
      let sentenceDuration := len sentence / charsPerSecond in
      let willExceedTarget :=
        JS.gtb (currentDuration + sentenceDuration)
               (targetClipDuration + (3 # 2)) in
      let isLastSentence := match rest with [] => true | _ => false end in
      if (willExceedTarget && negb (length currentSentences =? 0)%nat)
         || isLastSentence
      then
        let currentSentences' :=
          if isLastSentence then currentSentences ++ [sentence]
          else currentSentences in
        let currentDuration' :=
          if isLastSentence then currentDuration + sentenceDuration
          else currentDuration in
        let finalDuration :=
          JS.clamp minDuration maxDuration currentDuration' in
        {| text := join currentSentences';
           duration := JS.round1 finalDuration |}
        :: (if isLastSentence then buildSections rest currentSentences' currentDuration'
            else buildSections rest [sentence] sentenceDuration)
      else
        buildSections rest (currentSentences ++ [sentence])
                      (currentDuration + sentenceDuration)
  end.
End Split.

(** [sections.reduce((sum, s) => sum + s.duration, 0)]. *)
Definition totalDuration (sections : list ScriptSection) : Q :=
  fold_left (fun sum s => sum + duration s) sections 0.

(** The sections before the proportional rescaling. *)
Definition rawSections (script : jsstring)
    (audioDuration targetClipDuration minDuration maxDuration : Q)
  : list ScriptSection :=
  let sentences := splitIntoSentences script in
  let totalChars := len script in
  let charsPerSecond := totalChars / audioDuration in
  buildSections charsPerSecond targetClipDuration minDuration maxDuration
                sentences [] 0.

Definition scaleFactor (audioDuration : Q) (sections : list ScriptSection) : Q :=
  audioDuration / totalDuration sections.

(** The callback of [sections.map]: rescale, clamp again, round. *)
Definition rescale (minDuration maxDuration scaleFactor : Q) (s : ScriptSection)
  : ScriptSection :=
  let scaledDuration :=
    JS.clamp minDuration maxDuration (duration s * scaleFactor) in
  {| text := text s; duration := JS.round1 scaledDuration |}.

Definition splitScriptWithDurations (script : jsstring)
    (audioDuration targetClipDuration minDuration maxDuration : Q)
  : list ScriptSection :=
  let sections :=
    rawSections script audioDuration targetClipDuration minDuration maxDuration in
  let scaleFactor := scaleFactor audioDuration sections in
  map (rescale minDuration maxDuration scaleFactor) sections.

(** A number of seconds that is a whole number of tenths, as the limits
    4, 8 and 10 of the callers are. *)
Definition tenths (q : Q) : Prop := exists z : Z, q == inject_Z z / 10.

(** A script as code units, from an ASCII literal. *)
Definition ofString (s : string) : jsstring :=
  map (fun a => N.of_nat (Ascii.nat_of_ascii a)) (String.list_ascii_of_string s).

(** [s.repeat(n)]. *)
Fixpoint repeatString (s : string) (n : nat) : string :=
  match n with
  | O => EmptyString
  | S n' => s +:+ repeatString s n'
  end.

End Segmenter.

(* ===================================================================== *)
(** ** Progress steps: [updateStep] *)
(* ===================================================================== *)

Inductive Status := Pending | Processing | Completed | Failed.

Definition Status_eqb (a b : Status) : bool :=
  match a, b with
  | Pending, Pending | Processing, Processing
  | Completed, Completed | Failed, Failed => true
  | _, _ => false
  end.

Module Steps.

(** [MultiClipStep]; an optional field is an [option], the [any] of
    [result] is kept as its JSON text. *)
Record MultiClipStep := {
  id : string;
  name : string;
  status : Status;
  startTime : option string;
  endTime : option string;
  result : option string;
  error : option string
}.

(** [Partial<MultiClipStep>]: [None] when the object has no such own
    property; a present optional property may hold [undefined]. *)
Record StepUpdate := {
  u_id : option string;
  u_name : option string;
  u_status : option Status;
  u_startTime : option (option string);
  u_endTime : option (option string);
  u_result : option (option string);
  u_error : option (option string)
}.

(** One property of [{ ...step, ...updates }]. *)
Definition over {A} (u : option A) (old : A) : A :=
  match u with Some v => v | None => old end.

(** [{ ...step, ...updates }]. *)
Definition spread (step : MultiClipStep) (updates : StepUpdate) : MultiClipStep :=
  {| id := over (u_id updates) (id step);
     name := over (u_name updates) (name step);
     status := over (u_status updates) (status step);
     startTime := over (u_startTime updates) (startTime step);
     endTime := over (u_endTime updates) (endTime step);
     result := over (u_result updates) (result step);
     error := over (u_error updates) (error step) |}.

Definition updateStep (steps : list MultiClipStep) (stepId : string)
    (updates : StepUpdate) : list MultiClipStep :=
  map (fun step => if String.eqb (id step) stepId then spread step updates else step)
      steps.

End Steps.

(* ===================================================================== *)
(** ** Clip orchestrator: [requestClipVideos], [checkAndDownloadClips] *)
(* ===================================================================== *)

Record ClipInfo := {
  index : Z;
  scriptSection : string;
  prompt : string;
  duration : Q;
  status : Status;
  jobId : option string;
  videoUrl : option string;
  audioUrl : option string
}.

Module Orchestrator.

Inductive Provider := Higgsfield | Veo.

(** The argument of [requestVeoVideo] / [requestHiggsfieldVideo]. *)
Record VideoRequest := {
  rq_provider : Provider;
  rq_prompt : string;
  rq_model : string;
  rq_aspectRatio : string;
  rq_duration : Q
}.

(** What [getVeoVideoResult] / [getHiggsfieldVideoResult] resolve to. *)
Record VideoResult := {
  r_status : Status;
  r_videoUrl : option string
}.

(** One call that left the process. *)
Inductive Event :=
| Submitted (rq : VideoRequest)
| Polled (i : nat) (job : string)
| Downloaded (i : nat) (url : string)
| Saved (i : nat).

(** The clip an event is about. *)
Definition eventClip (e : Event) : option nat :=
  match e with
  | Submitted _ => None
  | Polled i _ | Downloaded i _ | Saved i => Some i
  end.

(** The vendors and the storage layer, as seen from the orchestrator. *)
Record Env := {
  requestVeoVideo : VideoRequest -> Result string;
  requestHiggsfieldVideo : VideoRequest -> Result string;
  getVeoVideoResult : string -> Result VideoResult;
  getHiggsfieldVideoResult : string -> Result VideoResult;
  downloadFile : string -> Result string;
(** [saveVideo] of the buffer under [clip-<jobId>-<n>-<now>.mp4]; the
    result is the stored URL. *)
saveVideo : string -> nat -> string -> Result string
}.

Definition with_status (c : ClipInfo) (s : Status) : ClipInfo :=
  {| index := index c; scriptSection := scriptSection c; prompt := prompt c;
     duration := duration c; status := s; jobId := jobId c;
     videoUrl := videoUrl c; audioUrl := audioUrl c |}.

(** [{ ...clip, duration, status: 'processing', jobId }]. *)
Definition with_request (c : ClipInfo) (d : Q) (job : string) : ClipInfo :=
  {| index := index c; scriptSection := scriptSection c; prompt := prompt c;
     duration := d; status := Processing; jobId := Some job;
     videoUrl := videoUrl c; audioUrl := audioUrl c |}.

(** [{ ...clip, status: 'completed', videoUrl }]. *)
Definition with_video (c : ClipInfo) (url : string) : ClipInfo :=
  {| index := index c; scriptSection := scriptSection c; prompt := prompt c;
     duration := duration c; status := Completed; jobId := jobId c;
     videoUrl := Some url; audioUrl := audioUrl c |}.

(** [let duration = clip.duration; if (provider === 'veo') { ... }]. *)
Definition requestedDuration (provider : Provider) (c : ClipInfo) : Q :=
  match provider with
  | Veo =>
      let d := duration c in
      let d := if JS.ltb d 4 then 4 else d in
      if JS.gtb d 8 then 8 else d
  | Higgsfield => duration c
  end.

Section WithEnv.
Variable env : Env.

Definition buildRequest (provider : Provider) (model : string) (c : ClipInfo)
  : VideoRequest :=
  {| rq_provider := provider; rq_prompt := prompt c; rq_model := model;
     rq_aspectRatio := "9:16"; rq_duration := requestedDuration provider c |}.

Definition submit (rq : VideoRequest) : Result string :=
  match rq_provider rq with
  | Veo => requestVeoVideo env rq
  | Higgsfield => requestHiggsfieldVideo env rq
  end.

(** The [try]/[catch] of the loop body: what is stored at [updatedClips[i]]. *)
Definition requestOne (provider : Provider) (model : string) (clip : ClipInfo)
  : ClipInfo :=
  let rq := buildRequest provider model clip in
  match submit rq with
  | Ok job => with_request clip (rq_duration rq) job
  | Throw _ => with_status clip Failed
  end.

(** The [for] loop of [requestClipVideos] from index [i] on. *)
Fixpoint requestLoop (provider : Provider) (model : string)
    (rest : list ClipInfo) (i : nat)
    (updatedClips : list ClipInfo) (log : list Event)
  : list ClipInfo * list Event :=
  match rest with
  | [] => (updatedClips, log)
  | clip :: rest' =>
      requestLoop provider model rest' (S i)
                  (<[i := requestOne provider model clip]> updatedClips)
                  (log ++ [Submitted (buildRequest provider model clip)])
  end.

Definition requestClipVideos (clips : list ClipInfo) (provider : Provider)
    (model : string) : list ClipInfo * list Event :=
  requestLoop provider model clips 0 clips [].

(** Counters of [checkAndDownloadClips]. *)
Record Counts := { pendingCount : nat; completedCount : nat; failedCount : nat }.

Record PollState := {
  updatedClips : list ClipInfo;
  counts : Counts;
  events : list Event
}.

Definition bump_pending (k : Counts) : Counts :=
  {| pendingCount := S (pendingCount k); completedCount := completedCount k;
     failedCount := failedCount k |}.
Definition bump_completed (k : Counts) : Counts :=
  {| pendingCount := pendingCount k; completedCount := S (completedCount k);
     failedCount := failedCount k |}.
Definition bump_failed (k : Counts) : Counts :=
  {| pendingCount := pendingCount k; completedCount := completedCount k;
     failedCount := S (failedCount k) |}.

Definition poll (job : string) : Result VideoResult :=
  if JS.startsWith "veo|" job then getVeoVideoResult env job
  else getHiggsfieldVideoResult env job.

(** The body of the loop of [checkAndDownloadClips] for [clips[i]]. *)
Definition pollClip (job : string) (i : nat) (clip : ClipInfo) (st : PollState)
  : PollState :=
  if Status_eqb (status clip) Completed || Status_eqb (status clip) Failed then
    {| updatedClips := updatedClips st;
       counts := if Status_eqb (status clip) Completed
                 then bump_completed (counts st) else bump_failed (counts st);
       events := events st |}
  else if negb (JS.truthy_opt (jobId clip)) then
    {| updatedClips := updatedClips st; counts := bump_failed (counts st);
       events := events st |}
  else
    let clipJob := default "" (jobId clip) in
    let ev := events st ++ [Polled i clipJob] in
    match poll clipJob with
    | Throw _ =>
        {| updatedClips := updatedClips st; counts := bump_pending (counts st);
           events := ev |}
    | Ok res =>
        if Status_eqb (r_status res) Completed && JS.truthy_opt (r_videoUrl res) then
          let url := default "" (r_videoUrl res) in
          match downloadFile env url with
          | Throw _ =>
              {| updatedClips := updatedClips st;
                 counts := bump_pending (counts st); events := ev |}
          | Ok videoBuffer =>
              let ev := ev ++ [Downloaded i url] in
              match saveVideo env job (S i) videoBuffer with
              | Throw _ =>
                  {| updatedClips := updatedClips st;
                     counts := bump_pending (counts st); events := ev |}
              | Ok saved =>
                  {| updatedClips := <[i := with_video clip saved]> (updatedClips st);
                     counts := bump_completed (counts st);
                     events := ev ++ [Saved i] |}
              end
          end
        else if Status_eqb (r_status res) Failed then
          {| updatedClips := <[i := with_status clip Failed]> (updatedClips st);
             counts := bump_failed (counts st); events := ev |}
        else
          {| updatedClips := updatedClips st; counts := bump_pending (counts st);
             events := ev |}
    end.

Fixpoint pollLoop (job : string) (rest : list ClipInfo) (i : nat) (st : PollState)
  : PollState :=
  match rest with
  | [] => st
  | clip :: rest' => pollLoop job rest' (S i) (pollClip job i clip st)
  end.

Record PollOutcome := {
  clips : list ClipInfo;
  allCompleted : bool;
  polled : list Event
}.

Definition checkAndDownloadClips (cs : list ClipInfo) (job : string) : PollOutcome :=
  let st := pollLoop job cs 0
              {| updatedClips := cs;
                 counts := {| pendingCount := 0; completedCount := 0;
                              failedCount := 0 |};
                 events := [] |} in
  {| clips := updatedClips st;
     allCompleted := (pendingCount (counts st) =? 0)%nat;
     polled := events st |}.

End WithEnv.

(** A clip that polling is done with. *)
Definition settled (c : ClipInfo) : bool :=
  Status_eqb (status c) Completed || Status_eqb (status c) Failed.

(** Two environments to run the orchestrator in: every call succeeds, every
    call throws. *)
Definition env_up : Env :=
  {| requestVeoVideo := fun _ => Ok "veo|models/veo-3.1-generate-preview/operations/a1";
     requestHiggsfieldVideo := fun _ => Ok "higgsfield|r1";
     getVeoVideoResult := fun _ =>
       Ok {| r_status := Completed; r_videoUrl := Some "https://cdn/veo.mp4" |};
     getHiggsfieldVideoResult := fun _ =>
       Ok {| r_status := Completed; r_videoUrl := Some "https://cdn/hf.mp4" |};
     downloadFile := fun _ => Ok "bytes";
     saveVideo := fun _ _ _ => Ok "/videos/clip.mp4" |}.

Definition env_down : Env :=
  {| requestVeoVideo := fun _ => Throw "Veo API";
     requestHiggsfieldVideo := fun _ => Throw "Higgsfield API";
     getVeoVideoResult := fun _ => Throw "Veo API";
     getHiggsfieldVideoResult := fun _ => Throw "Higgsfield API";
     downloadFile := fun _ => Throw "fetch";
     saveVideo := fun _ _ _ => Throw "disk" |}.

(** A clip as [initializeClips] makes it. *)
Definition freshClip (i : Z) (section : string) (d : Q) : ClipInfo :=
  {| index := i; scriptSection := section; prompt := ""; duration := d;
     status := Pending; jobId := None; videoUrl := None; audioUrl := None |}.

(** [SceneManager.requestVideos]: the duration asked of either vendor,
    [Math.max(4, Math.min(8, Math.round(audioDurationSec)))]. *)
Definition audioDurationSec (audioDurationMs : Q) : Q :=
  if Qeq_bool audioDurationMs 0 then 6 else audioDurationMs / 1000.

Definition targetDurationSec (audioDurationMs : Q) : Z :=
  Z.max 4 (Z.min 8 (JS.round (audioDurationSec audioDurationMs))).

End Orchestrator.

(* ===================================================================== *)
(** ** Media files, ffmpeg and the file system *)
(* ===================================================================== *)

Module Media.

(** *** Paths *)

Definition slash : Ascii.ascii := Eval compute in Ascii.ascii_of_nat 47.

(** [path.join(a, b)] for segments that need no further normalisation. *)
Definition pjoin (a b : string) : string :=
  if JS.startsWith "/" b then a +:+ b else a +:+ "/" +:+ b.

(** The text before the last slash, if there is a slash. *)
Fixpoint beforeLastSlash (s : string) : option string :=
  match s with
  | EmptyString => None
  | String c s' =>
      match beforeLastSlash s' with
      | Some d => Some (String c d)
      | None => if Ascii.eqb c slash then Some EmptyString else None
      end
  end.

(** The number of slashes of a path. *)
Fixpoint slashes (s : string) : nat :=
  match s with
  | EmptyString => 0
  | String c s' => (if Ascii.eqb c slash then 1 else 0) + slashes s'
  end.

(** [path.dirname]. *)
Definition dirname (s : string) : string :=
  match beforeLastSlash s with
  | None => "."
  | Some EmptyString => "/"
  | Some d => d
  end.

(** [s.slice(n)]. *)
Fixpoint dropChars (n : nat) (s : string) : string :=
  match n, s with
  | S n', String _ s' => dropChars n' s'
  | _, _ => s
  end.

(** [s.replace(pat, by)] with a string pattern: the first occurrence only. *)
Fixpoint replaceFirst (pat by_ s : string) : string :=
  if JS.startsWith pat s then by_ +:+ dropChars (String.length pat) s
  else match s with
       | EmptyString => EmptyString
       | String c s' => String c (replaceFirst pat by_ s')
       end.

(** [String(n).padStart(2, '0')]. *)
Definition pad2 (n : Z) : string :=
  let s := pretty n in
  if (String.length s <? 2)%nat then "0" +:+ s else s.

(** *** Commands

    Every call that leaves the process: the [fs] calls and the ffmpeg
    command lines of [VideoManager], [ffmpeg.ts] and [TimelineComposer].
    A concat command carries the entries of the list file written for it. *)
Inductive Cmd :=
| Mkdir (dir : string)
| CopyFile (src dst : string)
| Unlink (p : string)
| RemoveDir (dir : string)
(** [-vf tpad=stop_mode=clone:stop_duration=T -t T] *)
| ApplyFreeze (inp out : string) (t : Q)
(** [-vf setpts=PTS*1.5,tpad=stop_mode=clone:stop_duration=T -t T -r 30] *)
| SlowAndPad (inp out : string) (t : Q)
(** [-vf zoompan=... -t T] *)
| ZoomPan (inp out : string) (t : Q)
(** [-stream_loop -1 -i inp -t T] *)
| ApplyLoop (inp out : string) (t : Q)
(** [-i inp -t T -c:v copy -c:a copy] *)
| ApplyTrim (inp out : string) (t : Q)
(** [-i video -i audio -map 0:v:0 -map 1:a:0 -shortest] *)
| Dub (video audio out : string)
(** [-sseof -0.1 -i src -vframes 1 ... | ffmpeg -loop 1 -i pipe:0 -t T] *)
| FillerPipe (src out : string) (t : Q)
(** [-sseof -0.1 -i src -vframes 1 frame] *)
| ExtractFrame (src frame : string)
(** [-loop 1 -i frame -t T] *)
| StillVideo (frame out : string) (t : Q)
(** [-f concat -i list] re-encoded, no narration *)
| Concat (inputs : list string) (out : string)
(** [-f concat -i list -i audio -map 0:v -map 1:a], with [-shortest] or
    with [-t cap] *)
| ConcatAudio (inputs : list string) (audio : string)
              (cap : option Q) (shortest : bool) (out : string)
(** [-i ... -filter_complex xfade/acrossfade] *)
| Xfade (inputs : list string) (transitionSec : Q) (out : string).

(** The media store: the duration, in seconds, of every media file. *)
Abbreviation Files := (gmap string Q).

Fixpoint totalOf (f : Files) (inputs : list string) : option Q :=
  match inputs with
  | [] => Some 0
  | p :: rest =>
      match f !! p, totalOf f rest with
      | Some d, Some t => Some (d + t)
      | _, _ => None
      end
  end.

Definition underDir (dir p : string) : bool := JS.startsWith (dir +:+ "/") p.

Definition write1 (f : Files) (inp out : string) (g : Q -> Q) : option Files :=
  match f !! inp with
  | Some d => Some (<[out := g d]> f)
  | None => None
  end.

(** One frame at the [fps=30] of the filler commands. *)
Definition oneFrame : Q := 1 # 30.

(** What a command that succeeds does to the store; [None] when an input
    file is missing.  The duration of the file written is read off the flags
    of the command line: [-t T] caps the output at [T], [tpad] holds the last
    frame for the given time, [-stream_loop -1] repeats the input without
    end, [-shortest] stops with the shorter input, and without it the output
    of two mapped inputs lasts as long as the longer one.  [-loop 1] repeats
    a picture read from a file; it cannot read [pipe:0] a second time, so the
    piped filler command encodes the one picture it is sent and ends, with
    exit status 0: its output holds one frame, whatever [-t] asks.  The
    durations of [ApplyLoop], [ApplyTrim] and [Dub] are the ones the flags
    ask for: an encoder ends on a whole frame and a stream copy on a whole
    packet, which can add some hundredths of a second. *)
Definition run (c : Cmd) (f : Files) : option Files :=
  match c with
  | Mkdir _ => Some f
  | CopyFile src dst => write1 f src dst (fun d => d)
  | Unlink p => match f !! p with Some _ => Some (delete p f) | None => None end
  | RemoveDir dir => Some (filter (fun kv => underDir dir kv.1 = false) f)
  | ApplyFreeze inp out t => write1 f inp out (fun d => Qmin t (d + t))
  | SlowAndPad inp out t => write1 f inp out (fun d => Qmin t (d * (3 # 2) + t))
  | ZoomPan inp out t => write1 f inp out (fun d => Qmin t d)
  | ApplyLoop inp out t => write1 f inp out (fun _ => t)
  | ApplyTrim inp out t => write1 f inp out (fun d => Qmin t d)
  | Dub video audio out =>
      match f !! audio with
      | Some a => write1 f video out (fun v => Qmin v a)
      | None => None
      end
  | FillerPipe src out _ => write1 f src out (fun _ => oneFrame)
  | ExtractFrame src frame => write1 f src frame (fun _ => 0)
  | StillVideo frame out t => write1 f frame out (fun _ => t)
  | Concat inputs out =>
      match totalOf f inputs with
      | Some v => Some (<[out := v]> f)
      | None => None
      end
  | ConcatAudio inputs audio cap shortest out =>
      match totalOf f inputs, f !! audio with
      | Some v, Some a =>
          let d := if shortest then Qmin v a else Qmax v a in
          Some (<[out := match cap with Some t => Qmin t d | None => d end]> f)
      | _, _ => None
      end
  | Xfade inputs tr out =>
      match totalOf f inputs with
      | Some v => Some (<[out := v - inject_Z (Z.of_nat (length inputs - 1)) * tr]> f)
      | None => None
      end
  end.

(** The length of the picture track that a concat command writes: the
    pictures of its inputs one after the other, cut at the cap of [-t] and,
    under [-shortest], at the end of the narration.  Without [-shortest] the
    narration may go on after the last picture. *)
Definition pictures (c : Cmd) (f : Files) : option Q :=
  match c with
  | Concat inputs _ => totalOf f inputs
  | ConcatAudio inputs audio cap shortest _ =>
      match totalOf f inputs, f !! audio with
      | Some v, Some a =>
          let d := if shortest then Qmin v a else v in
          Some (match cap with Some t => Qmin t d | None => d end)
      | _, _ => None
      end
  | _ => None
  end.

(** *** The world and the monad *)

(** What the code cannot decide: the installation, and which commands and
    which measurements fail. *)
Record Env := {
  cwd : string;
  ffmpegInstalled : bool;
  cmdFails : Cmd -> bool;
  probeFails : string -> bool;
(** [new URL(u).pathname] *)
urlPathname : string -> Result string
}.

Record World := { files : Files; log : list Cmd }.

Definition M (A : Type) : Type := World -> Result A * World.

Definition ret {A} (a : A) : M A := fun w => (Ok a, w).
Definition throw {A} (msg : string) : M A := fun w => (Throw msg, w).
Definition bind {A B} (m : M A) (k : A -> M B) : M B :=
  fun w => match m w with
           | (Ok a, w') => k a w'
           | (Throw msg, w') => (Throw msg, w')
           end.

(** [try { m } catch (error) { h error }]. *)
Definition tryCatch {A} (m : M A) (h : string -> M A) : M A :=
  fun w => match m w with
           | (Ok a, w') => (Ok a, w')
           | (Throw msg, w') => h msg w'
           end.

(** [try { m } finally { try { cleanup } catch { } }]. *)
Definition finally {A} (m : M A) (cleanup : M unit) : M A :=
  fun w => let '(r, w') := m w in
           let '(_, w'') := cleanup w' in
           (r, w'').

Section WithEnv.
Variable env : Env.

(** Run one command: it throws when the environment makes it fail or an
    input is missing, otherwise it is logged and the store updated. *)
Definition exec (c : Cmd) : M unit :=
  fun w =>
    if cmdFails env c then (Throw "command failed", w)
    else match run c (files w) with
         | Some f' => (Ok tt, {| files := f'; log := log w ++ [c] |})
         | None => (Throw "no such file", w)
         end.

(** [parseFloat((await execAsync(`ffprobe ... "${p}"`)).stdout.trim())]. *)
Definition ffprobe (p : string) : M Q :=
  fun w =>
    if probeFails env p then (Throw "ffprobe failed", w)
    else match files w !! p with
         | Some d => (Ok d, w)
         | None => (Throw "no such file", w)
         end.

(** [checkFFmpegInstalled]. *)
Definition checkFFmpegInstalled : M bool := ret (ffmpegInstalled env).
End WithEnv.



(** A world that holds the given media files and an empty log. *)
Definition worldOf (media : list (string * Q)) : World :=
  {| files := list_to_map media; log := [] |}.

(** *** Two readings of a computation

    [returns m w Q]: from the world [w], [m] does not throw, and its value
    and final world satisfy [Q].  [logsOnly good m]: whatever [m] does and
    however it ends, it only adds commands that satisfy [good] to the log. *)
Definition returns {A} (m : M A) (w : World) (Q : A -> World -> Prop) : Prop :=
  exists a w', m w = (Ok a, w') /\ Q a w'.

Definition logsOnly {A} (good : Cmd -> Prop) (m : M A) : Prop :=
  forall w r w', m w = (r, w') ->
                 exists l, log w' = log w ++ l /\ Forall good l.

(** An environment in which everything is installed and nothing fails. *)
Definition env_fine : Env :=
  {| cwd := "/app"; ffmpegInstalled := true; cmdFails := fun _ => false;
     probeFails := fun _ => false; urlPathname := fun u => Ok u |}.


(** Three clips of 8, 8 and 6 seconds and a narration of 25 seconds. *)
Definition threeClips : World :=
  worldOf [("/app/public/videos/clip-1.mp4", 8); ("/app/public/videos/clip-3.mp4", 8);
           ("/app/public/videos/clip-4.mp4", 6); ("/app/public/audio/tts.mp3", 25)].

End Media.

Declare Scope media_scope.
Delimit Scope media_scope with media.
Notation "x <- m ;; k" := (Media.bind m (fun x => k))
  (at level 100, m at next level, right associativity) : media_scope.
Notation "m ;; k" := (Media.bind m (fun _ => k))
  (at level 100, right associativity) : media_scope.

Open Scope media_scope.

(* ===================================================================== *)
(** ** Scenes ([core/types]) *)
(* ===================================================================== *)

Module Core.

Inductive VideoStatus := VPending | Generating | VCompleted | VFailed | Adjusted.

Inductive AdjustmentType := loop | freeze | trim | ken_burns | none.

Record Scene := {
  id : Z;
  text : string;
  prompt : option string;
  audioPath : option string;
  audioDurationMs : Q;
  audioIncluded : option bool;
  videoPath : option string;
  videoDurationMs : option Q;
  videoStatus : VideoStatus;
  adjustmentType : option AdjustmentType;
  adjustedVideoPath : option string;
  startTimeMs : option Q;
  endTimeMs : option Q;
  errorMessage : option string
}.

Record VideoAdjustmentResult := {
  sceneId : Z;
  originalPath : option string;
  adjustedPath : string;
  r_adjustmentType : AdjustmentType;
  originalDurationMs : option Q;
  targetDurationMs : Q;
  finalDurationMs : Z
}.

Record CompositionResult := {
  outputPath : string;
  totalDurationMs : Z;
  scenesIncluded : nat
}.

Definition VideoStatus_eqb (a b : VideoStatus) : bool :=
  match a, b with
  | VPending, VPending | Generating, Generating | VCompleted, VCompleted
  | VFailed, VFailed | Adjusted, Adjusted => true
  | _, _ => false
  end.

(** [{ ...scene, adjustmentType, adjustedVideoPath, videoStatus: 'adjusted' }]. *)
Definition with_adjustment (s : Scene) (t : AdjustmentType) (p : string) : Scene :=
  {| id := id s; text := text s; prompt := prompt s; audioPath := audioPath s;
     audioDurationMs := audioDurationMs s; audioIncluded := audioIncluded s;
     videoPath := videoPath s; videoDurationMs := videoDurationMs s;
     videoStatus := Adjusted; adjustmentType := Some t;
     adjustedVideoPath := Some p; startTimeMs := startTimeMs s;
     endTimeMs := endTimeMs s; errorMessage := errorMessage s |}.

(** [{ ...scene, errorMessage }]. *)
Definition with_error (s : Scene) (msg : string) : Scene :=
  {| id := id s; text := text s; prompt := prompt s; audioPath := audioPath s;
     audioDurationMs := audioDurationMs s; audioIncluded := audioIncluded s;
     videoPath := videoPath s; videoDurationMs := videoDurationMs s;
     videoStatus := videoStatus s; adjustmentType := adjustmentType s;
     adjustedVideoPath := adjustedVideoPath s; startTimeMs := startTimeMs s;
     endTimeMs := endTimeMs s; errorMessage := Some msg |}.

End Core.

(* ===================================================================== *)
(** ** Duration adjuster: [VideoManager] *)
(* ===================================================================== *)

Module VideoManager.
Import Media Core.

Section WithEnv.
Variable env : Env.
(** [this.jobId] *)
Variable jobId : string.

Definition public (p : string) : string := pjoin (pjoin (cwd env) "public") p.

(** [this.outputDir] *)
Definition outputDir : string :=
  pjoin (pjoin (pjoin (pjoin (pjoin (cwd env) "public") "videos") "jobs") jobId)
        "adjusted".

Definition applyFreeze (inputPath outputPath : string) (targetDurationMs : Q)
  : M unit :=
  exec env (ApplyFreeze inputPath outputPath (targetDurationMs / 1000)).

Definition applyKenBurns (inputPath outputPath : string) (targetDurationMs : Q)
  : M unit :=
  let targetDurationSec := targetDurationMs / 1000 in
  let tempPath := replaceFirst ".mp4" "_temp.mp4" outputPath in
  exec env (SlowAndPad inputPath tempPath targetDurationSec) ;;
  exec env (ZoomPan tempPath outputPath targetDurationSec) ;;
  tryCatch (exec env (Unlink tempPath)) (fun _ => ret tt).

Definition applyLoop (inputPath outputPath : string) (targetDurationMs : Q)
  : M unit :=
  exec env (ApplyLoop inputPath outputPath (targetDurationMs / 1000)).

Definition applyTrim (inputPath outputPath : string) (targetDurationMs : Q)
  : M unit :=
  exec env (ApplyTrim inputPath outputPath (targetDurationMs / 1000)).

Definition addAudioToVideo (videoPath audioPath outputPath : string) : M unit :=
  let fullAudioPath :=
    if JS.startsWith "/" audioPath then public audioPath else audioPath in
  tryCatch (exec env (Dub videoPath fullAudioPath outputPath))
           (fun _ => exec env (CopyFile videoPath outputPath)).

(** Comparisons on [diff]; [None] is the NaN of a missing
    [videoDurationMs], for which every comparison is false. *)
Definition absLt (diff : option Q) (bound : Q) : bool :=
  match diff with Some d => JS.ltb (JS.abs d) bound | None => false end.
Definition gt0 (diff : option Q) : bool :=
  match diff with Some d => JS.gtb d 0 | None => false end.
Definition le (diff : option Q) (bound : Q) : bool :=
  match diff with Some d => Qle_bool d bound | None => false end.

(** The correction chosen, as the conditions of the [if]/[else] chain decide
    it. *)
Definition chosen (diff : option Q) (t : AdjustmentType) : Prop :=
  (absLt diff 500 = true /\ t = none)
  \/ (absLt diff 500 = false /\ gt0 diff = true /\ le diff 2000 = true
      /\ t = freeze)
  \/ (absLt diff 500 = false /\ gt0 diff = true /\ le diff 2000 = false
      /\ le diff 4000 = true /\ t = ken_burns)
  \/ (absLt diff 500 = false /\ gt0 diff = true /\ le diff 2000 = false
      /\ le diff 4000 = false /\ t = loop)
  \/ (absLt diff 500 = false /\ gt0 diff = false /\ t = trim).

(** [!scene.audioIncluded && scene.audioPath]. *)
Definition needsDubbing (scene : Scene) : bool :=
  negb (default false (audioIncluded scene)) && JS.truthy_opt (audioPath scene).

Definition tempFileName (scene : Scene) : string :=
  "scene_" +:+ pad2 (id scene) +:+ "_temp.mp4".
Definition tempPath (scene : Scene) : string := pjoin outputDir (tempFileName scene).
Definition outputFileName (scene : Scene) : string :=
  "scene_" +:+ pad2 (id scene) +:+ "_adjusted.mp4".
Definition outputPath (scene : Scene) : string :=
  pjoin outputDir (outputFileName scene).

(** The [if]/[else] chain of [adjustScene]: the correction applied from
    [inputPath] to [targetPath], and its name. *)
Definition applyAdjustment (diff : option Q) (inputPath targetPath : string)
    (audioDurationMs : Q) : M AdjustmentType :=
  if absLt diff 500 then
    exec env (CopyFile inputPath targetPath) ;; ret none
  else if gt0 diff then
    if le diff 2000 then
      applyFreeze inputPath targetPath audioDurationMs ;; ret freeze
    else if le diff 4000 then
      applyKenBurns inputPath targetPath audioDurationMs ;; ret ken_burns
    else
      applyLoop inputPath targetPath audioDurationMs ;; ret loop
  else
    applyTrim inputPath targetPath audioDurationMs ;; ret trim.

(** The commands of a correction that runs to its end. *)
Definition adjustmentCommands (t : AdjustmentType) (inputPath targetPath : string)
    (targetDurationMs : Q) : list Cmd :=
  let targetDurationSec := targetDurationMs / 1000 in
  match t with
  | none => [CopyFile inputPath targetPath]
  | freeze => [ApplyFreeze inputPath targetPath targetDurationSec]
  | ken_burns =>
      let tempPath := replaceFirst ".mp4" "_temp.mp4" targetPath in
      [SlowAndPad inputPath tempPath targetDurationSec;
       ZoomPan tempPath targetPath targetDurationSec; Unlink tempPath]
  | loop => [ApplyLoop inputPath targetPath targetDurationSec]
  | trim => [ApplyTrim inputPath targetPath targetDurationSec]
  end.

(** The dubbing step of [adjustScene]. *)
Definition dubIfNeeded (scene : Scene) : M unit :=
  if needsDubbing scene then
    addAudioToVideo (tempPath scene) (default "" (audioPath scene))
                    (outputPath scene) ;;
    tryCatch (exec env (Unlink (tempPath scene))) (fun _ => ret tt)
  else ret tt.

Definition adjustScene (scene : Scene) : M VideoAdjustmentResult :=
  let videoDurationMs := videoDurationMs scene in
  let audioDurationMs := audioDurationMs scene in
  let diff := (fun v => audioDurationMs - v) <$> videoDurationMs in
  match videoPath scene with
  | None => throw "The path argument must be of type string"
  | Some videoPath =>
      let inputPath := public videoPath in
      let targetPath :=
        if needsDubbing scene then tempPath scene else outputPath scene in
      adjustmentType <-
        applyAdjustment diff inputPath targetPath audioDurationMs ;;
      dubIfNeeded scene ;;
      stdout <- ffprobe env (outputPath scene) ;;
      let finalDurationMs := JS.round (stdout * 1000) in
      ret {| sceneId := id scene;
             originalPath := Some videoPath;
             adjustedPath :=
               "/videos/jobs/" +:+ jobId +:+ "/adjusted/" +:+ outputFileName scene;
             r_adjustmentType := adjustmentType;
             originalDurationMs := videoDurationMs;
             targetDurationMs := audioDurationMs;
             finalDurationMs := finalDurationMs |}
  end.

(** [scene.videoStatus !== 'completed' || !scene.videoPath ||
    !scene.videoDurationMs]. *)
Definition notAdjustable (scene : Scene) : bool :=
  negb (VideoStatus_eqb (videoStatus scene) VCompleted)
  || negb (JS.truthy_opt (videoPath scene))
  || match videoDurationMs scene with
     | Some d => Qeq_bool d 0
     | None => true
     end.

(** One turn of the loop of [adjustAllScenes]: the scene pushed. *)
Definition adjustOne (scene : Scene) : M Scene :=
  if notAdjustable scene then ret scene
  else
    tryCatch
      (result <- adjustScene scene ;;
       ret (with_adjustment scene (r_adjustmentType result) (adjustedPath result)))
      (fun error => ret (with_error scene ("보정 실패: " +:+ error))).

Fixpoint adjustLoop (scenes : list Scene) (adjustedScenes : list Scene)
  : M (list Scene) :=
  match scenes with
  | [] => ret adjustedScenes
  | scene :: rest =>
      pushed <- adjustOne scene ;;
      adjustLoop rest (adjustedScenes ++ [pushed])
  end.

Definition adjustAllScenes (scenes : list Scene) : M (list Scene) :=
  exec env (Mkdir outputDir) ;;
  adjustLoop scenes [].

(** The loop of [adjustAllScenes] turn by turn: [adjusted w scenes out w']
    when, from the world [w], the scenes [scenes] are pushed as [out] and the
    world is left as [w'].  A scene that is not a completed video is pushed
    as it is; one whose [adjustScene] returns is pushed adjusted; one whose
    [adjustScene] throws is pushed with the error message. *)
Inductive adjusted : World -> list Scene -> list Scene -> World -> Prop :=
| adjusted_nil w : adjusted w [] [] w
| adjusted_skipped w scene rest out w' :
    notAdjustable scene = true ->
    adjusted w rest out w' ->
    adjusted w (scene :: rest) (scene :: out) w'
| adjusted_ok w scene result w1 rest out w' :
    notAdjustable scene = false ->
    adjustScene scene w = (Ok result, w1) ->
    adjusted w1 rest out w' ->
    adjusted w (scene :: rest)
             (with_adjustment scene (r_adjustmentType result) (adjustedPath result)
              :: out) w'
| adjusted_failed w scene error w1 rest out w' :
    notAdjustable scene = false ->
    adjustScene scene w = (Throw error, w1) ->
    adjusted w1 rest out w' ->
    adjusted w (scene :: rest)
             (with_error scene ("보정 실패: " +:+ error) :: out) w'.

End WithEnv.
(** A completed scene of job [job1] whose clip is [scene_01.mp4], and a world
    with that clip (5 seconds) and the narration of the scene (4.8 seconds). *)
Definition exampleScene (audioMs videoMs : Q) (audio : option string) : Scene :=
  {| id := 1; text := "A."; prompt := Some "a quiet street";
     audioPath := audio; audioDurationMs := audioMs; audioIncluded := None;
     videoPath := Some "/videos/jobs/job1/scene_01.mp4";
     videoDurationMs := Some videoMs; videoStatus := VCompleted;
     adjustmentType := None; adjustedVideoPath := None;
     startTimeMs := None; endTimeMs := None; errorMessage := None |}.

Definition sceneFiles : World :=
  worldOf [("/app/public/videos/jobs/job1/scene_01.mp4", 5);
           ("/app/public/audio/jobs/job1/scene_01.mp3", 24 # 5)].

(** An environment whose trimming command fails. *)
Definition env_notrim : Env :=
  {| cwd := "/app"; ffmpegInstalled := true;
     cmdFails := fun c => match c with ApplyTrim _ _ _ => true | _ => false end;
     probeFails := fun _ => false; urlPathname := fun u => Ok u |}.

(** An environment whose dubbing command fails, and nothing else. *)
Definition env_nodub : Env :=
  {| cwd := "/app"; ffmpegInstalled := true;
     cmdFails := fun c => match c with Dub _ _ _ => true | _ => false end;
     probeFails := fun _ => false; urlPathname := fun u => Ok u |}.

End VideoManager.

(* ===================================================================== *)
(** ** Merger: [ffmpeg.ts] *)
(* ===================================================================== *)

Module Ffmpeg.
Import Media.

Section WithEnv.
Variable env : Env.

Definition getAudioDuration (audioPath : string) : M Q :=
  tryCatch (ffprobe env audioPath) (fun _ => ret 60).

Definition getVideoDuration (videoPath : string) : M Q :=
  tryCatch (ffprobe env videoPath) (fun _ => ret 0).

Definition requireFFmpeg : M unit :=
  isInstalled <- checkFFmpegInstalled env ;;
  if isInstalled then ret tt else throw "FFmpeg가 설치되어 있지 않습니다.".

Definition createFillerFromLastFrame (sourceVideoPath outputPath : string)
    (duration : Q) : M unit :=
  requireFFmpeg ;;
  tryCatch
    (exec env (FillerPipe sourceVideoPath outputPath duration))
    (fun _ =>
       let tmpFrame := replaceFirst ".mp4" "_frame.png" outputPath in
       exec env (ExtractFrame sourceVideoPath tmpFrame) ;;
       exec env (StillVideo tmpFrame outputPath duration) ;;
       tryCatch (exec env (Unlink tmpFrame)) (fun _ => ret tt)).

Definition mergeVideos (videoPaths : list string) (outputPath : string)
    (audioPath : option string) : M unit :=
  if (length videoPaths =? 0)%nat then throw "합칠 비디오가 없습니다."
  else
    requireFFmpeg ;;
    let tmpDir := pjoin (dirname outputPath) "tmp_merge" in
    exec env (Mkdir tmpDir) ;;
    finally
      (exec env
         (if JS.truthy_opt audioPath
          then ConcatAudio videoPaths (default "" audioPath) None true outputPath
          else Concat videoPaths outputPath))
      (exec env (RemoveDir tmpDir)).

(** [for (const videoPath of videoPaths) totalVideoDuration += ...]. *)
Fixpoint sumDurations (videoPaths : list string) (totalVideoDuration : Q) : M Q :=
  match videoPaths with
  | [] => ret totalVideoDuration
  | videoPath :: rest =>
      duration <- getVideoDuration videoPath ;;
      sumDurations rest (totalVideoDuration + duration)
  end.


Definition tmpSyncDir (outputPath : string) : string :=
  pjoin (dirname outputPath) "tmp_sync_merge".

Definition fillerPathOf (outputPath : string) : string :=
  pjoin (tmpSyncDir outputPath) "filler.mp4".

Definition mergeVideosWithAudioSync (videoPaths : list string)
    (audioPath outputPath : string) : M string :=
  if (length videoPaths =? 0)%nat then throw "합칠 비디오가 없습니다."
  else
    requireFFmpeg ;;
    audioDuration <- getAudioDuration audioPath ;;
    totalVideoDuration <- sumDurations videoPaths 0 ;;
    let tmpDir := tmpSyncDir outputPath in
    exec env (Mkdir tmpDir) ;;
    finally
      (finalVideoPaths <-
         (if JS.ltb totalVideoDuration (audioDuration - (1 # 2)) then
            let shortfall := audioDuration - totalVideoDuration + 1 in
            let lastVideoPath := List.last videoPaths "" in
            let fillerPath := fillerPathOf outputPath in
            createFillerFromLastFrame lastVideoPath fillerPath shortfall ;;
            ret (videoPaths ++ [fillerPath])
          else ret videoPaths) ;;
       exec env (ConcatAudio finalVideoPaths audioPath (Some audioDuration)
                             false outputPath) ;;
       ret outputPath)
      (exec env (RemoveDir tmpDir)).

End WithEnv.
End Ffmpeg.

(* ===================================================================== *)
(** ** Merger: [mergeClipsIntoVideo], [TimelineComposer.compose] *)
(* ===================================================================== *)

(** [Array.prototype.sort] with the comparator [(a, b) => key(a) - key(b)]:
    a stable sort, here by insertion from the right. *)
Section SortBy.
Context {A : Type} (key : A -> Z).

Fixpoint insertBy (x : A) (l : list A) : list A :=
  match l with
  | [] => [x]
  | y :: l' => if (key x <=? key y)%Z then x :: l else y :: insertBy x l'
  end.

Definition sortBy (l : list A) : list A := foldr insertBy [] l.

(** The order the comparator stands for. *)
Definition keyLe (a b : A) : Prop := (key a <= key b)%Z.
End SortBy.

Module MultiClip.
Import Media.

Section WithEnv.
Variable env : Env.

(** [clip.status === 'completed' && clip.videoUrl]. *)
Definition isCompleted (clip : ClipInfo) : bool :=
  Status_eqb (status clip) Completed && JS.truthy_opt (videoUrl clip).

Definition completedClips (clips : list ClipInfo) : list ClipInfo :=
  sortBy index (List.filter isCompleted clips).

(** The local path of a completed clip. *)
Definition clipPath (clip : ClipInfo) : M string :=
  let url := default "" (videoUrl clip) in
  if JS.startsWith "/" url then ret (pjoin (pjoin (cwd env) "public") url)
  else match urlPathname env url with
       | Ok urlPath => ret (pjoin (pjoin (cwd env) "public") urlPath)
       | Throw msg => throw msg
       end.

Fixpoint clipPaths (clips : list ClipInfo) : M (list string) :=
  match clips with
  | [] => ret []
  | clip :: rest =>
      p <- clipPath clip ;;
      ps <- clipPaths rest ;;
      ret (p :: ps)
  end.

Definition mergeClipsIntoVideo (clips : list ClipInfo) (outputPath : string)
    (audioPath : option string) (audioDuration : option Q) : M string :=
  let completedClips := completedClips clips in
  if (length completedClips =? 0)%nat
  then throw "합칠 수 있는 완료된 클립이 없습니다."
  else
    clipPaths <- clipPaths completedClips ;;
    if JS.truthy_opt audioPath then
      let audioPath := default "" audioPath in
      let localAudioPath :=
        if JS.startsWith "/" audioPath then audioPath
        else pjoin (pjoin (cwd env) "public") audioPath in
      Ffmpeg.mergeVideosWithAudioSync env clipPaths localAudioPath outputPath ;;
      ret outputPath
    else
      Ffmpeg.mergeVideos env clipPaths outputPath None ;;
      ret outputPath.

End WithEnv.
End MultiClip.

Module TimelineComposer.
Import Media Core.

Inductive TransitionPreset := smash_cut | whip_pan | scale_in | fade | no_transition.

Section WithEnv.
Variable env : Env.
Variable jobId : string.
(** [this.options.transitionPreset], [this.options.transitionDurationMs] *)
Variable transitionPreset : TransitionPreset.
Variable transitionDurationMs : Q.

Definition outputDir : string :=
  pjoin (pjoin (pjoin (pjoin (cwd env) "public") "videos") "jobs") jobId.

(** [s.adjustedVideoPath || s.videoPath]. *)
Definition sceneVideo (s : Scene) : option string :=
  if JS.truthy_opt (adjustedVideoPath s) then adjustedVideoPath s else videoPath s.

Definition isValid (s : Scene) : bool :=
  (VideoStatus_eqb (videoStatus s) Adjusted
   || VideoStatus_eqb (videoStatus s) VCompleted)
  && JS.truthy_opt (sceneVideo s).

Definition validScenes (scenes : list Scene) : list Scene :=
  sortBy id (List.filter isValid scenes).

Definition scenePath (s : Scene) : string :=
  pjoin (pjoin (cwd env) "public") (default "" (sceneVideo s)).

Definition composeWithConcatDemuxer (scenes : list Scene) : M string :=
  let outputPath := pjoin outputDir "composed.mp4" in
  exec env (Concat (map scenePath scenes) outputPath) ;;
  ret outputPath.

Definition composeWithTransitions (scenes : list Scene) : M string :=
  let outputPath := pjoin outputDir "composed.mp4" in
  match scenes with
  | [s] => exec env (CopyFile (scenePath s) outputPath) ;; ret outputPath
  | _ =>
      tryCatch
        (exec env (Xfade (map scenePath scenes) (transitionDurationMs / 1000)
                         outputPath) ;;
         ret outputPath)
        (fun _ => composeWithConcatDemuxer scenes)
  end.

Definition compose (scenes : list Scene) : M CompositionResult :=
  exec env (Mkdir outputDir) ;;
  let validScenes := validScenes scenes in
  if (length validScenes =? 0)%nat then throw "합성할 수 있는 씬이 없습니다"
  else
    outputPath <-
      (match transitionPreset with
       | smash_cut | no_transition => composeWithConcatDemuxer validScenes
       | _ => composeWithTransitions validScenes
       end) ;;
    stdout <- ffprobe env outputPath ;;
    ret {| outputPath := "/videos/jobs/" +:+ jobId +:+ "/composed.mp4";
           totalDurationMs := JS.round (stdout * 1000);
           scenesIncluded := length validScenes |}.

End WithEnv.
End TimelineComposer.


(* ===================================================================== *)
(** ** Segmenter: what a sentence is *)
(* ===================================================================== *)

Module Sentences.
Import Segmenter.

(** The code units of a text that are not white space. *)
Definition nonSpace (s : jsstring) : jsstring :=
  List.filter (fun c => negb (is_space c)) s.

(** No terminator before the last code unit. *)
Definition endsItsSentence (s : jsstring) : Prop :=
  Forall (fun c => is_term c = false) (removelast s).

(** Neither empty nor with white space at either end. *)
Definition trimmed (s : jsstring) : Prop :=
  s <> []
  /\ (forall c, head s = Some c -> is_space c = false)
  /\ (forall c, last s = Some c -> is_space c = false).

End Sentences.
(* ===================================================================== *)
(** ** Setting up a job: the steps and the clips  (src/lib/multi-clip.ts) *)
(* ===================================================================== *)

Module Workflow.
Import Orchestrator.

Definition pendingStep (id name : string) : Steps.MultiClipStep :=
  {| Steps.id := id; Steps.name := name; Steps.status := Pending;
     Steps.startTime := None; Steps.endTime := None; Steps.result := None;
     Steps.error := None |}.

Definition initializeSteps : list Steps.MultiClipStep :=
  [ pendingStep "script" "📝 스크립트 생성";
    pendingStep "tts" "🎤 음성(TTS) 생성";
    pendingStep "split" "✂️ 스크립트 분할";
    pendingStep "prompts" "🎨 영상 프롬프트 생성";
    pendingStep "render" "🎬 영상 렌더링";
    pendingStep "merge" "🔗 영상 합치기" ].

(** [{ status: 'processing', startTime }] and [{ status: 'completed', endTime }],
    the updates the routes make. *)
Definition started (at_ : string) : Steps.StepUpdate :=
  {| Steps.u_id := None; Steps.u_name := None; Steps.u_status := Some Processing;
     Steps.u_startTime := Some (Some at_); Steps.u_endTime := None;
     Steps.u_result := None; Steps.u_error := None |}.

Definition finished (at_ : string) : Steps.StepUpdate :=
  {| Steps.u_id := None; Steps.u_name := None; Steps.u_status := Some Completed;
     Steps.u_startTime := None; Steps.u_endTime := Some (Some at_);
     Steps.u_result := None; Steps.u_error := None |}.

Definition CLIP_DURATION : Q := 10.

(** [initializeClips(scriptSections, clipDuration = CLIP_DURATION)]. *)
Definition initializeClips (scriptSections : list string) (clipDuration : option Q)
  : list ClipInfo :=
  imap (fun index section =>
          {| index := Z.of_nat index; scriptSection := section; prompt := "";
             duration := default CLIP_DURATION clipDuration; status := Pending;
             jobId := None; videoUrl := None; audioUrl := None |})
       scriptSections.

Section WithText.
(** A section holds its text as code units and a clip holds it as a
    string: [str] is the one as the other. *)
Variable str : Segmenter.jsstring -> string.

Definition initializeClipsFromSections (sections : list Segmenter.ScriptSection)
  : list ClipInfo :=
  imap (fun index section =>
          {| index := Z.of_nat index; scriptSection := str (Segmenter.text section);
             prompt := ""; duration := Segmenter.duration section; status := Pending;
             jobId := None; videoUrl := None; audioUrl := None |})
       sections.

End WithText.

(** The text of a script written in ASCII. *)
Definition asciiText (s : Segmenter.jsstring) : string :=
  String.string_of_list_ascii (map Ascii.ascii_of_N s).

(** *** The prompts *)

Definition newline : Ascii.ascii := Eval compute in Ascii.ascii_of_nat 10.
Definition nl : string := String newline "".

(** The template literal, trimmed. *)
Definition BASE_VISUAL_STYLE : string :=
  "Professional Korean lifestyle video style." +:+ nl +:+
  "Warm, inviting colors with soft natural lighting." +:+ nl +:+
  "Clean, modern aesthetic suitable for 50-60 year old Korean audience." +:+ nl +:+
  "Calm and trustworthy atmosphere." +:+ nl +:+
  "High quality cinematic footage." +:+ nl +:+
  "Smooth camera movements." +:+ nl +:+
  "9:16 vertical format for YouTube Shorts.".

(** The argument of [generateVideoPrompts]. *)
Record PromptRequest := {
  pr_topic : string;
  pr_category : option string;
  pr_scriptSections : list string;
  pr_clipCount : nat;
  pr_sceneIndex : nat;
  pr_totalScenes : nat;
  pr_previousPrompt : string
}.

(** [{ ...clip, prompt }]. *)
Definition with_prompt (c : ClipInfo) (p : string) : ClipInfo :=
  {| index := index c; scriptSection := scriptSection c; prompt := p;
     duration := duration c; status := status c; jobId := jobId c;
     videoUrl := videoUrl c; audioUrl := audioUrl c |}.

Section WithModel.
(** The language model behind [generateVideoPrompts]. *)
Variable generateVideoPrompts : PromptRequest -> Result (list string).

(** The prompt stored for [clips[i]]: [prompts[0] || `Scene ...`], or the
    one of the [catch]. *)
Definition promptFor (topic : string) (category : option string) (total i : nat)
    (clip : ClipInfo) (lastPrompt : string) : string :=
  match generateVideoPrompts
          {| pr_topic := topic; pr_category := category;
             pr_scriptSections := [scriptSection clip]; pr_clipCount := 1;
             pr_sceneIndex := i; pr_totalScenes := total;
             pr_previousPrompt := lastPrompt |} with
  | Ok prompts =>
      match prompts with
      | p :: _ =>
          if JS.truthy p then p
          else "Scene " +:+ pretty (i + 1)%nat +:+ ": "
               +:+ JS.substring 100 (scriptSection clip)
      | [] => "Scene " +:+ pretty (i + 1)%nat +:+ ": "
              +:+ JS.substring 100 (scriptSection clip)
      end
  | Throw _ =>
      BASE_VISUAL_STYLE +:+ nl +:+ nl +:+ "Scene " +:+ pretty (i + 1)%nat
      +:+ " of " +:+ pretty total +:+ ":" +:+ nl +:+ "Content: "
      +:+ JS.substring 200 (scriptSection clip)
  end.

(** The [for] loop of [generateClipPrompts] from index [i] on; the second
    component is the previous prompt each call was given. *)
Fixpoint promptLoop (topic : string) (category : option string) (total : nat)
    (rest : list ClipInfo) (i : nat) (updatedClips : list ClipInfo)
    (lastPrompt : string) (given : list string)
  : list ClipInfo * list string :=
  match rest with
  | [] => (updatedClips, given)
  | clip :: rest' =>
      let currentPrompt := promptFor topic category total i clip lastPrompt in
      promptLoop topic category total rest' (S i)
                 (<[i := with_prompt clip currentPrompt]> updatedClips)
                 currentPrompt (given ++ [lastPrompt])
  end.

Definition generateClipPrompts (clips : list ClipInfo) (topic : string)
    (category : option string) : list ClipInfo * list string :=
  promptLoop topic category (length clips) clips 0 clips "" [].

End WithModel.

(** Every clip carries its position as its [index]. *)
Definition indexed (cs : list ClipInfo) : Prop :=
  forall (i : nat) (c : ClipInfo), cs !! i = Some c -> index c = Z.of_nat i.

(** What a poll leaves alone in a clip. *)
Definition sameRequest (c c' : ClipInfo) : Prop :=
  index c' = index c /\ scriptSection c' = scriptSection c
  /\ prompt c' = prompt c /\ duration c' = duration c
  /\ jobId c' = jobId c /\ audioUrl c' = audioUrl c.

(** What a tick can make of a clip: the same clip, or the clip Completed
    with a stored video, or the clip Failed. *)
Definition polledTo (c c' : ClipInfo) : Prop :=
  sameRequest c c'
  /\ (c' = c
      \/ (settled c = false /\ status c' = Completed
          /\ exists url, videoUrl c' = Some url)
      \/ (settled c = false /\ status c' = Failed /\ videoUrl c' = videoUrl c)).

(** A clip a tick can deal with: done with, or waiting on a job. *)
Definition pollable (c : ClipInfo) : bool :=
  settled c || JS.truthy_opt (jobId c).

(** The poll of the clip's job does not get the video onto the disk: the
    status call throws, or the download or the save of a finished video
    does. *)
Definition attemptThrows (env : Env) (job : string) (i : nat) (c : ClipInfo) : Prop :=
  let clipJob := default "" (jobId c) in
  match poll env clipJob with
  | Throw _ => True
  | Ok res =>
      Status_eqb (r_status res) Completed && JS.truthy_opt (r_videoUrl res) = true
      /\ match downloadFile env (default "" (r_videoUrl res)) with
         | Throw _ => True
         | Ok videoBuffer =>
             match saveVideo env job (S i) videoBuffer with
             | Throw _ => True
             | Ok _ => False
             end
         end
  end.

(** A clip whose video was requested under job id [job]. *)
Definition requestedClip (i : Z) (section : string) (d : Q) (job : string) : ClipInfo :=
  with_request (freshClip i section d) d job.

End Workflow.
(* ===================================================================== *)
(** ** The video vendors  (src/lib/veo.ts, src/lib/higgsfield.ts) *)
(* ===================================================================== *)

Module Vendors.
Import Orchestrator.

(** [s.replace(/^prefix/, '')]. *)
Definition stripPrefix (prefix s : string) : string :=
  if JS.startsWith prefix s then Media.dropChars (String.length prefix) s else s.

(** [s.includes(c)] for one character. *)
Fixpoint includes (c : Ascii.ascii) (s : string) : bool :=
  match s with
  | EmptyString => false
  | String a s' => Ascii.eqb a c || includes c s'
  end.

(** [s.toLowerCase()] on the letters A-Z, the only ones that can turn into
    a letter of the status words compared with below. *)
Definition lowerChar (a : Ascii.ascii) : Ascii.ascii :=
  let n := Ascii.nat_of_ascii a in
  if (65 <=? n)%nat && (n <=? 90)%nat then Ascii.ascii_of_nat (n + 32) else a.

Fixpoint toLowerCase (s : string) : string :=
  match s with
  | EmptyString => EmptyString
  | String a s' => String (lowerChar a) (toLowerCase s')
  end.

(** [a || b] on optional strings. *)
Definition orElse (a b : option string) : option string :=
  if JS.truthy_opt a then a else b.

(** [process.env]. *)
Record Config := {
  GOOGLE_AI_API_KEY : option string;
  HIGGSFIELD_API_KEY_ID : option string;
  HIGGSFIELD_API_KEY_SECRET : option string
}.

(** A response after [response.json()]: [errorText] is what the error line
    prints of the body, [data.error?.message || JSON.stringify(data)]. *)
Record Response (A : Type) := {
  ok : bool;
  httpStatus : N;
  errorText : string;
  data : A
}.
Arguments ok {A}.
Arguments httpStatus {A}.
Arguments errorText {A}.
Arguments data {A}.

(** What either [get...VideoResult] resolves to. *)
Record VendorResult := {
  v_status : Status;
  v_videoUrl : option string;
  v_errorMessage : option string;
  v_progress : option Q
}.

(** *** Veo *)

Definition VEO_API_BASE : string :=
  "https://generativelanguage.googleapis.com/v1beta".

(** [MODEL_MAP[model]]; a name that is no key gives [undefined]. *)
Definition MODEL_MAP (model : string) : option string :=
  if String.eqb model "veo-3" then Some "models/veo-3.0-generate-001"
  else if String.eqb model "veo-3-fast" then Some "models/veo-3.0-fast-generate-001"
  else if String.eqb model "veo-3.1" then Some "models/veo-3.1-generate-preview"
  else None.

(** The request body: [instances[0].prompt] and [parameters]. *)
Record VeoBody := {
  vb_prompt : string;
  vb_aspectRatio : string;
  vb_durationSeconds : option Q
}.

(** The fields of a [VeoOperation] that are read: [done], whether [error]
    is there and its message, and
    [response?.generateVideoResponse?.generatedSamples?.[0]?.video?.uri]. *)
Record VeoOperation := {
  op_name : option string;
  op_done : bool;
  op_error : option (option string);
  op_uri : option string
}.

(** The Veo endpoints. *)
Record VeoApi := {
  predictLongRunning : string -> VeoBody -> Result (Response VeoOperation);
  getOperation : string -> Result (Response VeoOperation)
}.

Section Veo.
Variables (cfg : Config) (api : VeoApi).

Definition veoBody (params : VideoRequest) : VeoBody :=
  {| vb_prompt := rq_prompt params;
     vb_aspectRatio := if JS.truthy (rq_aspectRatio params)
                       then rq_aspectRatio params else "9:16";
     vb_durationSeconds := if Qeq_bool (rq_duration params) 0 then None
                           else Some (rq_duration params) |}.

Definition veoRequestUrl (params : VideoRequest) (apiKey : string) : string :=
  let model := MODEL_MAP (if JS.truthy (rq_model params) then rq_model params
                          else "veo-3") in
  VEO_API_BASE +:+ "/" +:+ default "undefined" model
    +:+ ":predictLongRunning?key=" +:+ apiKey.

Definition requestVeoVideo (params : VideoRequest) : Result string :=
  if negb (JS.truthy_opt (GOOGLE_AI_API_KEY cfg))
  then Throw "GOOGLE_AI_API_KEY 환경변수가 설정되지 않았습니다."
  else
    let apiKey := default "" (GOOGLE_AI_API_KEY cfg) in
    match predictLongRunning api (veoRequestUrl params apiKey) (veoBody params) with
    | Throw msg => Throw msg
    | Ok response =>
        if negb (ok response)
        then Throw ("Veo API 오류 (" +:+ pretty (httpStatus response) +:+ "): "
                    +:+ errorText response)
        else if negb (JS.truthy_opt (op_name (data response)))
        then Throw "Veo API에서 operation name을 반환하지 않았습니다."
        else Ok ("veo|" +:+ default "" (op_name (data response)))
    end.

(** [jobId.replace(/^veo\|/, '').replace(/^veo-/, '')]. *)
Definition operationPath (jobId : string) : string :=
  stripPrefix "veo-" (stripPrefix "veo|" jobId).

Definition veoStatusUrl (jobId apiKey : string) : string :=
  VEO_API_BASE +:+ "/" +:+ operationPath jobId +:+ "?key=" +:+ apiKey.

Definition questionMark : Ascii.ascii := Eval compute in Ascii.ascii_of_nat 63.

Definition getVeoVideoResult (jobId : string) : Result VendorResult :=
  if negb (JS.truthy_opt (GOOGLE_AI_API_KEY cfg))
  then Throw "GOOGLE_AI_API_KEY 환경변수가 설정되지 않았습니다."
  else
    let apiKey := default "" (GOOGLE_AI_API_KEY cfg) in
    match getOperation api (veoStatusUrl jobId apiKey) with
    | Throw msg => Throw msg
    | Ok response =>
        if negb (ok response)
        then Throw ("Veo API 오류 (" +:+ pretty (httpStatus response) +:+ "): "
                    +:+ errorText response)
        else
          let data := data response in
          match op_error data with
          | Some message =>
              Ok {| v_status := Failed; v_videoUrl := None;
                    v_errorMessage :=
                      Some (if JS.truthy_opt message then default "" message
                            else "알 수 없는 오류가 발생했습니다.");
                    v_progress := None |}
          | None =>
              if op_done data then
                if JS.truthy_opt (op_uri data) then
                  let videoUri := default "" (op_uri data) in
                  let downloadUrl :=
                    if includes questionMark videoUri
                    then videoUri +:+ "&key=" +:+ apiKey
                    else videoUri +:+ "?key=" +:+ apiKey in
                  Ok {| v_status := Completed; v_videoUrl := Some downloadUrl;
                        v_errorMessage := None; v_progress := None |}
                else
                  Ok {| v_status := Failed; v_videoUrl := None;
                        v_errorMessage := Some "영상 URL이 반환되지 않았습니다.";
                        v_progress := None |}
              else
                Ok {| v_status := Processing; v_videoUrl := None;
                      v_errorMessage := None; v_progress := None |}
          end
    end.

End Veo.

(** *** Higgsfield *)

Definition HIGGSFIELD_API_BASE : string := "https://platform.higgsfield.ai".

Definition isHiggsfieldModel (model : string) : bool :=
  String.eqb model "veo-3.1" || String.eqb model "sora-2"
  || String.eqb model "kling-2.6" || String.eqb model "wan-2.6"
  || String.eqb model "minimax-hailuo" || String.eqb model "seedance-1.5".

(** [MODEL_PATHS[model]]: the six keys hold the same path. *)
Definition MODEL_PATHS (model : string) : option string :=
  if String.eqb model "veo-3.1" then Some "bytedance/seedance/v1/pro/text-to-video"
  else if String.eqb model "sora-2" then Some "bytedance/seedance/v1/pro/text-to-video"
  else if String.eqb model "kling-2.6" then Some "bytedance/seedance/v1/pro/text-to-video"
  else if String.eqb model "wan-2.6" then Some "bytedance/seedance/v1/pro/text-to-video"
  else if String.eqb model "minimax-hailuo"
       then Some "bytedance/seedance/v1/pro/text-to-video"
  else if String.eqb model "seedance-1.5"
       then Some "bytedance/seedance/v1/pro/text-to-video"
  else None.

Definition MODEL_RESOLUTION_FORMAT (model : string) : option string :=
  if String.eqb model "veo-3.1" then Some "720"
  else if String.eqb model "sora-2" then Some "720"
  else if String.eqb model "kling-2.6" then Some "720"
  else if String.eqb model "wan-2.6" then Some "720"
  else if String.eqb model "minimax-hailuo" then Some "720"
  else if String.eqb model "seedance-1.5" then Some "720"
  else None.

Record HiggsfieldBody := {
  hb_prompt : string;
  hb_aspect_ratio : string;
  hb_resolution : string
}.

(** One call to Higgsfield: the URL, the [Authorization] header, and the
    body of a POST. *)
Record HiggsfieldCall := {
  hc_url : string;
  hc_authorization : string;
  hc_body : option HiggsfieldBody
}.

(** The fields of a status answer that are read. *)
Record HiggsfieldStatus := {
  hs_request_id : option string;
  hs_status : option string;
  hs_video_url : option string;
  hs_output_url : option string;
  hs_result_url : option string;
  hs_error_message : option string;
  hs_message : option string;
  hs_progress : option Q
}.

Section Higgsfield.
Variable cfg : Config.
Variable fetch : HiggsfieldCall -> Result (Response HiggsfieldStatus).

Definition getAuthHeaders : Result string :=
  if negb (JS.truthy_opt (HIGGSFIELD_API_KEY_ID cfg))
     || negb (JS.truthy_opt (HIGGSFIELD_API_KEY_SECRET cfg))
  then Throw "HIGGSFIELD_API_KEY_ID 또는 HIGGSFIELD_API_KEY_SECRET이 설정되지 않았습니다."
  else Ok ("Key " +:+ default "" (HIGGSFIELD_API_KEY_ID cfg) +:+ ":"
           +:+ default "" (HIGGSFIELD_API_KEY_SECRET cfg)).

Definition higgsfieldCall (headers : string) (params : VideoRequest)
  : HiggsfieldCall :=
  let model := if JS.truthy (rq_model params) then rq_model params else "veo-3.1" in
  let modelPath := MODEL_PATHS model in
  let resolution :=
    if JS.truthy_opt (MODEL_RESOLUTION_FORMAT model)
    then default "" (MODEL_RESOLUTION_FORMAT model) else "720p" in
  {| hc_url := HIGGSFIELD_API_BASE +:+ "/" +:+ default "undefined" modelPath;
     hc_authorization := headers;
     hc_body := Some {| hb_prompt := rq_prompt params;
                        hb_aspect_ratio := if JS.truthy (rq_aspectRatio params)
                                           then rq_aspectRatio params else "9:16";
                        hb_resolution := resolution |} |}.

Definition requestHiggsfieldVideo (params : VideoRequest) : Result string :=
  match getAuthHeaders with
  | Throw msg => Throw msg
  | Ok headers =>
      match fetch (higgsfieldCall headers params) with
      | Throw msg => Throw msg
      | Ok response =>
          if negb (ok response)
          then Throw ("Higgsfield API 오류 (" +:+ pretty (httpStatus response)
                      +:+ "): " +:+ errorText response)
          else if negb (JS.truthy_opt (hs_request_id (data response)))
          then Throw "Higgsfield API에서 request_id를 반환하지 않았습니다."
          else Ok ("higgsfield|" +:+ default "" (hs_request_id (data response)))
      end
  end.

(** [jobId.replace(/^higgsfield\|/, '')]. *)
Definition requestIdOf (jobId : string) : string :=
  stripPrefix "higgsfield|" jobId.

Definition statusCall (headers jobId : string) : HiggsfieldCall :=
  {| hc_url := HIGGSFIELD_API_BASE +:+ "/requests/" +:+ requestIdOf jobId
               +:+ "/status";
     hc_authorization := headers;
     hc_body := None |}.

Definition isOneOf (s : option string) (words : list string) : bool :=
  match s with
  | Some s => existsb (String.eqb s) words
  | None => false
  end.

Definition getHiggsfieldVideoResult (jobId : string) : Result VendorResult :=
  match getAuthHeaders with
  | Throw msg => Throw msg
  | Ok headers =>
      match fetch (statusCall headers jobId) with
      | Throw msg => Throw msg
      | Ok response =>
          if negb (ok response)
          then Throw ("Higgsfield API 오류 (" +:+ pretty (httpStatus response)
                      +:+ "): " +:+ errorText response)
          else
            let data := data response in
            let status := toLowerCase <$> hs_status data in
            if isOneOf status ["completed"; "done"; "success"] then
              let videoUrl :=
                orElse (orElse (hs_video_url data) (hs_output_url data))
                       (hs_result_url data) in
              if JS.truthy_opt videoUrl
              then Ok {| v_status := Completed; v_videoUrl := videoUrl;
                         v_errorMessage := None; v_progress := None |}
              else Ok {| v_status := Failed; v_videoUrl := None;
                         v_errorMessage := Some "영상 URL이 반환되지 않았습니다.";
                         v_progress := None |}
            else if isOneOf status ["failed"; "error"; "cancelled"] then
              Ok {| v_status := Failed; v_videoUrl := None;
                    v_errorMessage :=
                      (let message := orElse (hs_error_message data)
                                             (hs_message data) in
                       Some (if JS.truthy_opt message then default "" message
                             else "영상 생성에 실패했습니다."));
                    v_progress := None |}
            else
              Ok {| v_status := if isOneOf status ["queued"] then Pending
                                else Processing;
                    v_videoUrl := None; v_errorMessage := None;
                    v_progress := hs_progress data |}
      end
  end.

End Higgsfield.

(** Keys, a Veo operation that is done, and a Higgsfield request that is
    done, to run the clients against. *)
Definition cfg_set : Config :=
  {| GOOGLE_AI_API_KEY := Some "g-key"; HIGGSFIELD_API_KEY_ID := Some "id";
     HIGGSFIELD_API_KEY_SECRET := Some "secret" |}.

Definition veo_done : VeoApi :=
  let operation :=
    {| ok := true; httpStatus := 200%N; errorText := "";
       data := {| op_name := Some "models/veo-3.1-generate-preview/operations/a1";
                  op_done := true; op_error := None;
                  op_uri := Some "https://cdn/veo.mp4" |} |} in
  {| predictLongRunning := fun _ _ => Ok operation;
     getOperation := fun _ => Ok operation |}.

Definition higgsfield_done (call : HiggsfieldCall)
  : Result (Response HiggsfieldStatus) :=
  Ok {| ok := true; httpStatus := 200%N; errorText := "";
        data := {| hs_request_id := Some "r1"; hs_status := Some "Completed";
                   hs_video_url := Some "https://cdn/hf.mp4";
                   hs_output_url := None; hs_result_url := None;
                   hs_error_message := None; hs_message := None;
                   hs_progress := None |} |}.

(** What [multi-clip.ts] reads of a result. *)
Definition seen (r : Result VendorResult) : Result VideoResult :=
  match r with
  | Ok v => Ok {| r_status := v_status v; r_videoUrl := v_videoUrl v |}
  | Throw msg => Throw msg
  end.

(** The orchestrator run against the two vendors; the storage layer stays
    as it is given. *)
Definition env (cfg : Config) (veo : VeoApi)
    (fetch : HiggsfieldCall -> Result (Response HiggsfieldStatus))
    (storage : Env) : Env :=
  {| Orchestrator.requestVeoVideo := requestVeoVideo cfg veo;
     Orchestrator.requestHiggsfieldVideo := requestHiggsfieldVideo cfg fetch;
     Orchestrator.getVeoVideoResult := fun job => seen (getVeoVideoResult cfg veo job);
     Orchestrator.getHiggsfieldVideoResult :=
       fun job => seen (getHiggsfieldVideoResult cfg fetch job);
     downloadFile := downloadFile storage;
     saveVideo := saveVideo storage |}.

End Vendors.
(* ===================================================================== *)
(** ** Worlds to run the media code in *)
(* ===================================================================== *)

Module Worlds.
Import Media.

(** Three clips of 8, 8 and 6 seconds and a narration of 22 seconds. *)
Definition shortNarration : World :=
  worldOf [("/app/public/videos/c0.mp4", 8); ("/app/public/videos/c1.mp4", 8);
           ("/app/public/videos/c2.mp4", 6); ("/app/public/audio/short.mp3", 22)].

(** Everything is installed, and only the piped filler command fails. *)
Definition env_nopipe : Env :=
  {| cwd := "/app"; ffmpegInstalled := true;
     cmdFails := fun c => match c with FillerPipe _ _ _ => true | _ => false end;
     probeFails := fun _ => false; urlPathname := fun u => Ok u |}.

(** Everything is installed, and only the transition filter fails. *)
Definition env_noxfade : Env :=
  {| cwd := "/app"; ffmpegInstalled := true;
     cmdFails := fun c => match c with Xfade _ _ _ => true | _ => false end;
     probeFails := fun _ => false; urlPathname := fun u => Ok u |}.

(** A completed scene of 5 seconds with its clip at [path]. *)
Definition sceneAt (i : Z) (path : string) : Core.Scene :=
  {| Core.id := i; Core.text := "A."; Core.prompt := Some "a quiet street";
     Core.audioPath := None; Core.audioDurationMs := 5000;
     Core.audioIncluded := Some true; Core.videoPath := Some path;
     Core.videoDurationMs := Some 5000; Core.videoStatus := Core.VCompleted;
     Core.adjustmentType := None; Core.adjustedVideoPath := None;
     Core.startTimeMs := None; Core.endTimeMs := None;
     Core.errorMessage := None |}.

(** The clips of two scenes, 5 and 7 seconds long. *)
Definition twoScenes : World :=
  worldOf [("/app/public/videos/jobs/job1/scene_01.mp4", 5);
           ("/app/public/videos/jobs/job1/scene_02.mp4", 7)].

(** Any command but the dubbing one. *)
Definition notDub (c : Cmd) : Prop :=
  match c with Dub _ _ _ => False | _ => True end.

End Worlds.
(* ===================================================================== *)
(** ** Scene by scene: requesting and collecting the videos
       (src/scenes/SceneManager.ts) *)
(* ===================================================================== *)

Module SceneManager.
Import Core.

Inductive VideoGenerationMode := text_to_video_with_audio | video_then_audio.

(** The options of the constructor. *)
Record Options := {
  o_jobId : string;
  o_topic : string;
  o_category : option string;
  o_videoProvider : option Orchestrator.Provider;
  o_videoGenerationMode : option VideoGenerationMode;
  o_higgsfieldModel : option string
}.

(** The fields of a [SceneManager]. *)
Record Manager := {
  jobId : string;
  topic : string;
  category : option string;
  videoProvider : Orchestrator.Provider;
  higgsfieldModel : string;
  videoGenerationMode : VideoGenerationMode;
  outputDir : string
}.

(** Every call that leaves the process. *)
Inductive Call :=
| MkdirCall (dir : string)
| RequestVeo (rq : Orchestrator.VideoRequest)
| RequestHiggsfield (rq : Orchestrator.VideoRequest)
| AskVeo (job : string)
| AskHiggsfield (job : string)
| Download (url : string)
| WriteFile (path : string)
| Probe (path : string).

(** The vendors, the download and the file system, as the manager sees
    them. *)
Record Env := {
  cwd : string;
  mkdir : string -> Result unit;
  requestVeoVideo : Orchestrator.VideoRequest -> Result string;
  requestHiggsfieldVideo : Orchestrator.VideoRequest -> Result string;
  getVeoVideoResult : string -> Result Vendors.VendorResult;
  getHiggsfieldVideoResult : string -> Result Vendors.VendorResult;
  downloadFile : string -> Result string;
  writeFile : string -> string -> Result unit;
(** [parseFloat(stdout.trim())] of the ffprobe of a file *)
ffprobe : string -> Result Q
}.

Definition quote : Ascii.ascii := Eval compute in Ascii.ascii_of_nat 34.

(** [{ ...scene, videoStatus: 'failed', errorMessage }]. *)
Definition with_failure (s : Scene) (msg : string) : Scene :=
  {| id := id s; text := text s; prompt := prompt s; audioPath := audioPath s;
     audioDurationMs := audioDurationMs s; audioIncluded := audioIncluded s;
     videoPath := videoPath s; videoDurationMs := videoDurationMs s;
     videoStatus := VFailed; adjustmentType := adjustmentType s;
     adjustedVideoPath := adjustedVideoPath s; startTimeMs := startTimeMs s;
     endTimeMs := endTimeMs s; errorMessage := Some msg |}.

(** [{ ...scene, videoStatus: 'generating', videoPath: jobId, audioIncluded }]. *)
Definition with_job (s : Scene) (job : string) (included : bool) : Scene :=
  {| id := id s; text := text s; prompt := prompt s; audioPath := audioPath s;
     audioDurationMs := audioDurationMs s; audioIncluded := Some included;
     videoPath := Some job; videoDurationMs := videoDurationMs s;
     videoStatus := Generating; adjustmentType := adjustmentType s;
     adjustedVideoPath := adjustedVideoPath s; startTimeMs := startTimeMs s;
     endTimeMs := endTimeMs s; errorMessage := errorMessage s |}.

(** [{ ...scene, videoPath, videoDurationMs, videoStatus: 'completed' }]. *)
Definition with_download (s : Scene) (path : string) (durationMs : Z) : Scene :=
  {| id := id s; text := text s; prompt := prompt s; audioPath := audioPath s;
     audioDurationMs := audioDurationMs s; audioIncluded := audioIncluded s;
     videoPath := Some path; videoDurationMs := Some (inject_Z durationMs);
     videoStatus := VCompleted; adjustmentType := adjustmentType s;
     adjustedVideoPath := adjustedVideoPath s; startTimeMs := startTimeMs s;
     endTimeMs := endTimeMs s; errorMessage := errorMessage s |}.

(** [{ ...scene, videoStatus }]. *)
Definition with_videoStatus (s : Scene) (st : VideoStatus) : Scene :=
  {| id := id s; text := text s; prompt := prompt s; audioPath := audioPath s;
     audioDurationMs := audioDurationMs s; audioIncluded := audioIncluded s;
     videoPath := videoPath s; videoDurationMs := videoDurationMs s;
     videoStatus := st; adjustmentType := adjustmentType s;
     adjustedVideoPath := adjustedVideoPath s; startTimeMs := startTimeMs s;
     endTimeMs := endTimeMs s; errorMessage := errorMessage s |}.

(** [scene.prompt = ...]. *)
Definition set_prompt (s : Scene) (p : string) : Scene :=
  {| id := id s; text := text s; prompt := Some p; audioPath := audioPath s;
     audioDurationMs := audioDurationMs s; audioIncluded := audioIncluded s;
     videoPath := videoPath s; videoDurationMs := videoDurationMs s;
     videoStatus := videoStatus s; adjustmentType := adjustmentType s;
     adjustedVideoPath := adjustedVideoPath s; startTimeMs := startTimeMs s;
     endTimeMs := endTimeMs s; errorMessage := errorMessage s |}.

Definition createFallbackPrompt (text : string) : string :=
  "Cinematic vertical 9:16 video, warm soft lighting, smooth slow camera movement, cozy atmosphere. Visual interpretation of: "
  +:+ JS.substring 100 text.

Definition createVeoPromptWithDialogue (visualPrompt dialogue : string) : string :=
  visualPrompt +:+ Workflow.nl +:+ Workflow.nl
  +:+ "A warm female Korean narrator speaks clearly: "
  +:+ String quote dialogue +:+ String quote ""
  +:+ Workflow.nl +:+ Workflow.nl
  +:+ "Voice style: Professional Korean female narrator, clear pronunciation, warm and friendly tone, natural speech rhythm. The voice narration should be synchronized with the visuals.".

Section WithEnv.
Variable env : Env.

Definition constructor (options : Options) : Manager :=
  let provider := default Orchestrator.Veo (o_videoProvider options) in
  {| jobId := o_jobId options;
     topic := o_topic options;
     category := o_category options;
     videoProvider := provider;
     higgsfieldModel := if JS.truthy_opt (o_higgsfieldModel options)
                        then default "" (o_higgsfieldModel options)
                        else "seedance-1.5";
     videoGenerationMode :=
       default (match provider with
                | Orchestrator.Veo => text_to_video_with_audio
                | Orchestrator.Higgsfield => video_then_audio
                end) (o_videoGenerationMode options);
     outputDir :=
       Media.pjoin (Media.pjoin (Media.pjoin (Media.pjoin (cwd env) "public")
                                             "videos") "jobs")
                   (o_jobId options) |}.

Variable this : Manager.

Definition withAudio : bool :=
  match videoGenerationMode this with
  | text_to_video_with_audio => true
  | video_then_audio => false
  end.

(** The request sent for a scene that has a prompt. *)
Definition sceneRequest (scene : Scene) : Orchestrator.VideoRequest :=
  let prompt := default "" (prompt scene) in
  let targetDurationSec :=
    inject_Z (Orchestrator.targetDurationSec (audioDurationMs scene)) in
  match videoProvider this with
  | Orchestrator.Veo =>
      {| Orchestrator.rq_provider := Orchestrator.Veo;
         Orchestrator.rq_prompt :=
           if withAudio then createVeoPromptWithDialogue prompt (text scene)
           else prompt;
         Orchestrator.rq_model := "veo-3.1";
         Orchestrator.rq_aspectRatio := "9:16";
         Orchestrator.rq_duration := targetDurationSec |}
  | Orchestrator.Higgsfield =>
      {| Orchestrator.rq_provider := Orchestrator.Higgsfield;
         Orchestrator.rq_prompt := prompt;
         Orchestrator.rq_model := higgsfieldModel this;
         Orchestrator.rq_aspectRatio := "9:16";
         Orchestrator.rq_duration := targetDurationSec |}
  end.

(** One turn of the loop of [requestVideos]: the scene pushed and the
    calls made. *)
Definition requestScene (scene : Scene) : Scene * list Call :=
  if negb (JS.truthy_opt (prompt scene)) then
    (with_failure scene "프롬프트 없음", [])
  else
    let rq := sceneRequest scene in
    match videoProvider this with
    | Orchestrator.Veo =>
        (match requestVeoVideo env rq with
         | Ok job => with_job scene job withAudio
         | Throw msg => with_failure scene msg
         end, [RequestVeo rq])
    | Orchestrator.Higgsfield =>
        (match requestHiggsfieldVideo env rq with
         | Ok job => with_job scene job false
         | Throw msg => with_failure scene msg
         end, [RequestHiggsfield rq])
    end.

Fixpoint requestLoop (scenes : list Scene) (updatedScenes : list Scene)
    (calls : list Call) : list Scene * list Call :=
  match scenes with
  | [] => (updatedScenes, calls)
  | scene :: rest =>
      let '(pushed, made) := requestScene scene in
      requestLoop rest (updatedScenes ++ [pushed]) (calls ++ made)
  end.

Definition requestVideos (scenes : list Scene) : Result (list Scene) * list Call :=
  match mkdir env (outputDir this) with
  | Throw msg => (Throw msg, [MkdirCall (outputDir this)])
  | Ok _ =>
      let '(updatedScenes, calls) :=
        requestLoop scenes [] [MkdirCall (outputDir this)] in
      (Ok updatedScenes, calls)
  end.

Definition videoFileName (scene : Scene) : string :=
  "scene_" +:+ Media.pad2 (id scene) +:+ ".mp4".

Definition isSettled (scene : Scene) : bool :=
  VideoStatus_eqb (videoStatus scene) VCompleted
  || VideoStatus_eqb (videoStatus scene) VFailed
  || VideoStatus_eqb (videoStatus scene) Adjusted.

(** One turn of the loop of [checkAndDownloadVideos]. *)
Definition checkScene (scene : Scene) : Scene * list Call :=
  if isSettled scene then (scene, [])
  else if negb (VideoStatus_eqb (videoStatus scene) Generating)
          || negb (JS.truthy_opt (videoPath scene)) then (scene, [])
  else
    let videoJobId := default "" (videoPath scene) in
    let '(asked, result) :=
      match videoProvider this with
      | Orchestrator.Veo => (AskVeo videoJobId, getVeoVideoResult env videoJobId)
      | Orchestrator.Higgsfield =>
          (AskHiggsfield videoJobId, getHiggsfieldVideoResult env videoJobId)
      end in
    match result with
    | Throw _ => (scene, [asked])
    | Ok result =>
        if Status_eqb (Vendors.v_status result) Completed
           && JS.truthy_opt (Vendors.v_videoUrl result) then
          let url := default "" (Vendors.v_videoUrl result) in
          match downloadFile env url with
          | Throw _ => (scene, [asked; Download url])
          | Ok videoBuffer =>
              let videoPath := Media.pjoin (outputDir this) (videoFileName scene) in
              match writeFile env videoPath videoBuffer with
              | Throw _ => (scene, [asked; Download url; WriteFile videoPath])
              | Ok _ =>
                  match ffprobe env videoPath with
                  | Throw _ =>
                      (scene, [asked; Download url; WriteFile videoPath;
                               Probe videoPath])
                  | Ok durationSec =>
                      (with_download scene
                         ("/videos/jobs/" +:+ jobId this +:+ "/"
                          +:+ videoFileName scene)
                         (JS.round (durationSec * 1000)),
                       [asked; Download url; WriteFile videoPath; Probe videoPath])
                  end
              end
          end
        else if Status_eqb (Vendors.v_status result) Failed then
          (with_failure scene
             (if JS.truthy_opt (Vendors.v_errorMessage result)
              then default "" (Vendors.v_errorMessage result)
              else "영상 생성 실패"),
           [asked])
        else (scene, [asked])
    end.

Fixpoint checkLoop (scenes : list Scene) (updatedScenes : list Scene)
    (calls : list Call) : list Scene * list Call :=
  match scenes with
  | [] => (updatedScenes, calls)
  | scene :: rest =>
      let '(pushed, made) := checkScene scene in
      checkLoop rest (updatedScenes ++ [pushed]) (calls ++ made)
  end.

Definition checkAndDownloadVideos (scenes : list Scene) : list Scene * list Call :=
  checkLoop scenes [] [].

(** [retryScene]: the first component is the argument as the call leaves
    it, the second what the call resolves to, [scenes[0]]. *)
Definition retryScene (scene : Scene)
  : Scene * Result (option Scene) * list Call :=
  let scene :=
    if negb (JS.truthy_opt (prompt scene))
    then set_prompt scene (createFallbackPrompt (text scene))
    else scene in
  match requestVideos [with_videoStatus scene VPending] with
  | (Ok scenes, calls) => (scene, Ok (head scenes), calls)
  | (Throw msg, calls) => (scene, Throw msg, calls)
  end.

End WithEnv.

(** [getScenesSummary]. *)
Record Summary := {
  total : nat;
  pending : nat;
  generating : nat;
  completed : nat;
  failed : nat;
  adjusted : nat
}.

Definition countStatus (st : VideoStatus) (scenes : list Scene) : nat :=
  length (List.filter (fun s => VideoStatus_eqb (videoStatus s) st) scenes).

Definition getScenesSummary (scenes : list Scene) : Summary :=
  {| total := length scenes;
     pending := countStatus VPending scenes;
     generating := countStatus Generating scenes;
     completed := countStatus VCompleted scenes;
     failed := countStatus VFailed scenes;
     adjusted := countStatus Adjusted scenes |}.

(** What [requestVideos] pushes for a scene. *)
Definition requestedFrom (this : Manager) (s s' : Scene) : Prop :=
  (JS.truthy_opt (prompt s) = false /\ s' = with_failure s "프롬프트 없음")
  \/ (JS.truthy_opt (prompt s) = true
      /\ ((exists job,
             s' = with_job s job
                    (match videoProvider this with
                     | Orchestrator.Veo => withAudio this
                     | Orchestrator.Higgsfield => false
                     end))
          \/ exists msg, s' = with_failure s msg)).

(** What [checkAndDownloadVideos] pushes for a scene. *)
Definition checkedFrom (this : Manager) (s s' : Scene) : Prop :=
  s' = s
  \/ (videoStatus s = Generating
      /\ ((exists durationMs,
             s' = with_download s
                    ("/videos/jobs/" +:+ jobId this +:+ "/" +:+ videoFileName s)
                    durationMs)
          \/ exists msg, s' = with_failure s msg)).

(** An environment in which every call succeeds and the vendors report the
    video done, and the options of a job that leave the provider and the
    mode to their defaults. *)
Definition env_up : Env :=
  {| cwd := "/app";
     mkdir := fun _ => Ok tt;
     requestVeoVideo := fun _ => Ok "veo|models/veo-3.1-generate-preview/operations/a1";
     requestHiggsfieldVideo := fun _ => Ok "higgsfield|r1";
     getVeoVideoResult := fun _ =>
       Ok {| Vendors.v_status := Completed;
             Vendors.v_videoUrl := Some "https://cdn/veo.mp4?key=g-key";
             Vendors.v_errorMessage := None; Vendors.v_progress := None |};
     getHiggsfieldVideoResult := fun _ =>
       Ok {| Vendors.v_status := Completed;
             Vendors.v_videoUrl := Some "https://cdn/hf.mp4";
             Vendors.v_errorMessage := None; Vendors.v_progress := None |};
     downloadFile := fun _ => Ok "bytes";
     writeFile := fun _ _ => Ok tt;
     ffprobe := fun _ => Ok 5 |}.

(** A scene of job [job1] that waits for its video; [audio] is its
    narration file. *)
Definition pendingScene (i : Z) (promptText : option string)
    (audio : option string) : Scene :=
  {| id := i; text := "A."; prompt := promptText; audioPath := audio;
     audioDurationMs := 5000; audioIncluded := None; videoPath := None;
     videoDurationMs := None; videoStatus := VPending; adjustmentType := None;
     adjustedVideoPath := None; startTimeMs := None; endTimeMs := None;
     errorMessage := None |}.

Definition job1 : Options :=
  {| o_jobId := "job1"; o_topic := "tea"; o_category := None;
     o_videoProvider := None; o_videoGenerationMode := None;
     o_higgsfieldModel := None |}.

End SceneManager.
(* ===================================================================== *)
(** ** Cutting the narration into segments
       (the split-audio route, [splitScriptToSegments]) *)
(* ===================================================================== *)

Module AudioSegments.
Import Segmenter.

Record AudioSegment := {
  index : nat;
  startTime : Q;
  endTime : Q;
  duration : Q;
  text : jsstring;
  audioUrl : option string
}.

Definition MAX_SEGMENT_DURATION : Q := 89 # 10.

(** The class [[.!?]]. *)
Definition is_end (c : N) : bool := ((c =? 46) || (c =? 33) || (c =? 63))%N.

(** [script.split(/(?<=[.!?])\s+/)]: a cut is a run of white space that
    follows a terminator.  [cur] is the pending piece, reversed;
    [prev_end] says that the code unit before is a terminator; [skipping]
    that the white space of a cut is being consumed. *)
Fixpoint cut_go (cur : jsstring) (prev_end skipping : bool) (s : jsstring)
  : list jsstring :=
  match s with
  | [] => [rev cur]
  | c :: s' =>
      if skipping then
        if is_space c then cut_go [] false true s'
        else cut_go [c] (is_end c) false s'
      else if prev_end && is_space c then rev cur :: cut_go [] false true s'
      else cut_go (c :: cur) (is_end c) false s'
  end.

Definition sentencesOf (script : jsstring) : list jsstring :=
  filter (fun s => (0 < length s)%nat) (map trim (cut_go [] false false script)).

(** The variables of the loop. *)
Record Loop := {
  segments : list AudioSegment;
  currentText : jsstring;
  currentStartTime : Q;
  currentChars : nat;
  segmentIndex : nat
}.

Definition chars (n : nat) : Q := inject_Z (Z.of_nat n).

Section Segments.
Variables (charsPerSecond totalDuration targetSegmentDuration : Q).

(** [segments.push({...})] and the reset of the variables after it, in
    exact arithmetic; the code's sum and difference are rounded, so that a
    segment can end an instant before [totalDuration] where the exact sum
    reaches it. *)
Definition push (st : Loop) (segmentDuration : Q) : Loop :=
  let endTime := Qmin (currentStartTime st + segmentDuration) totalDuration in
  {| segments := segments st ++
                 [{| index := segmentIndex st;
                     startTime := currentStartTime st;
                     endTime := endTime;
                     duration := endTime - currentStartTime st;
                     text := trim (currentText st);
                     audioUrl := None |}];
     currentText := [];
     currentStartTime := endTime;
     currentChars := 0;
     segmentIndex := S (segmentIndex st) |}.

(** One turn of the [for] loop. *)
Definition turn (sentence : jsstring) (isLastSentence : bool) (st : Loop) : Loop :=
  let sentenceChars := length sentence in
  let projectedDuration := chars (currentChars st + sentenceChars) / charsPerSecond in
  let st :=
    if (0 <? currentChars st)%nat && JS.gtb projectedDuration MAX_SEGMENT_DURATION
    then push st (chars (currentChars st) / charsPerSecond)
    else st in
  let st :=
    {| segments := segments st;
       currentText := currentText st
                      ++ (if (0 <? length (currentText st))%nat then [32%N] else [])
                      ++ sentence;
       currentStartTime := currentStartTime st;
       currentChars := currentChars st + sentenceChars;
       segmentIndex := segmentIndex st |} in
  let currentDuration := chars (currentChars st) / charsPerSecond in
  if Qle_bool targetSegmentDuration currentDuration || isLastSentence then
    if negb isLastSentence && JS.ltb currentDuration MAX_SEGMENT_DURATION then st
    else push st currentDuration
  else st.

Fixpoint loop (sentences : list jsstring) (st : Loop) : Loop :=
  match sentences with
  | [] => st
  | sentence :: rest =>
      loop rest (turn sentence (match rest with [] => true | _ => false end) st)
  end.

End Segments.

(** The last two segments made one. *)
Definition mergeTwo (prevSegment lastSegment : AudioSegment) : AudioSegment :=
  {| index := index prevSegment;
     startTime := startTime prevSegment;
     endTime := endTime lastSegment;
     duration := duration prevSegment + duration lastSegment;
     text := text prevSegment ++ 32%N :: text lastSegment;
     audioUrl := audioUrl prevSegment |}.

(** The step after the loop: a last segment under 3 seconds joins the one
    before it when the two stay under the maximum. *)
Fixpoint mergeShortLast (segments : list AudioSegment) : list AudioSegment :=
  match segments with
  | [prevSegment; lastSegment] =>
      if JS.ltb (duration lastSegment) 3
         && JS.ltb (duration prevSegment + duration lastSegment) MAX_SEGMENT_DURATION
      then [mergeTwo prevSegment lastSegment]
      else segments
  | s :: rest => s :: mergeShortLast rest
  | [] => []
  end.

Definition totalChars (sentences : list jsstring) : nat :=
  foldl (fun sum s => (sum + length s)%nat) 0%nat sentences.

(** [splitScriptToSegments(script, totalDuration, targetSegmentDuration = 7)]. *)
Definition splitScriptToSegments (script : jsstring) (totalDuration : Q)
    (targetSegmentDuration : option Q) : list AudioSegment :=
  let targetSegmentDuration := default 7 targetSegmentDuration in
  let sentences := sentencesOf script in
  if (length sentences =? 0)%nat then []
  else
    let charsPerSecond := chars (totalChars sentences) / totalDuration in
    mergeShortLast
      (segments (loop charsPerSecond totalDuration targetSegmentDuration sentences
                      {| segments := []; currentText := []; currentStartTime := 0;
                         currentChars := 0; segmentIndex := 0 |})).

(** The segments follow one another from [from]: each starts where the one
    before it ended, ends no earlier than it starts, and no later than
    [upto]. *)
Fixpoint follows (from upto : Q) (segments : list AudioSegment) : Prop :=
  match segments with
  | [] => True
  | s :: rest =>
      startTime s == from /\ from <= endTime s /\ endTime s <= upto
      /\ follows (endTime s) upto rest
  end.

(** The same in exact arithmetic: the segments follow one another from
    [from] to [to_], each lasting from its start to its end. *)
Fixpoint tiles (from to_ : Q) (segments : list AudioSegment) : Prop :=
  match segments with
  | [] => from == to_
  | s :: rest =>
      startTime s == from /\ from <= endTime s
      /\ duration s == endTime s - startTime s
      /\ tiles (endTime s) to_ rest
  end.

End AudioSegments.
(* ===================================================================== *)
(** ** The tempo filters of [adjustAudioSpeed]  (src/lib/ffmpeg.ts) *)
(* ===================================================================== *)

Module Tempo.

(** [x.toFixed(4)] as a number: the nearest multiple of 0.0001, a tie going
    away from zero. *)
Definition toFixed4 (x : Q) : Q :=
  if JS.ltb x 0 then - (inject_Z (JS.round (- x * 10000)) / 10000)
  else inject_Z (JS.round (x * 10000)) / 10000.

(** [while (ratio > 2.0) { atempoFilters.push('atempo=2.0'); ratio /= 2.0; }];
    a filter is kept as its factor.  [None]: the loop has not ended within
    [fuel] turns. *)
Fixpoint whileAbove (fuel : nat) (atempoFilters : list Q) (ratio : Q)
  : option (list Q * Q) :=
  match fuel with
  | O => None
  | S fuel' =>
      if JS.gtb ratio 2 then whileAbove fuel' (atempoFilters ++ [2]) (ratio / 2)
      else Some (atempoFilters, ratio)
  end.

(** [while (ratio < 0.5) { atempoFilters.push('atempo=0.5'); ratio /= 0.5; }]. *)
Fixpoint whileBelow (fuel : nat) (atempoFilters : list Q) (ratio : Q)
  : option (list Q * Q) :=
  match fuel with
  | O => None
  | S fuel' =>
      if JS.ltb ratio (1 # 2)
      then whileBelow fuel' (atempoFilters ++ [1 # 2]) (ratio / (1 # 2))
      else Some (atempoFilters, ratio)
  end.

(** The filters of [adjustAudioSpeed] for a speed ratio, and the ratio left
    for the last of them before it is printed. *)
Definition atempoChain (fuel : nat) (speedRatio : Q) : option (list Q * Q) :=
  match whileAbove fuel [] speedRatio with
  | None => None
  | Some (atempoFilters, ratio) =>
      match whileBelow fuel atempoFilters ratio with
      | None => None
      | Some (atempoFilters, ratio) =>
          Some (atempoFilters ++ [toFixed4 ratio], ratio)
      end
  end.

Definition atempoFilters (fuel : nat) (speedRatio : Q) : option (list Q) :=
  fst <$> atempoChain fuel speedRatio.

(** The speed a chain of filters gives. *)
Definition product (filters : list Q) : Q := fold_right Qmult 1 filters.

End Tempo.

(* ===================================================================== *)
(** * Properties *)
(* ===================================================================== *)

(** ** Numbers *)

Lemma ltb_true (a b : Q) : JS.ltb a b = true <-> a < b.
Proof.
  unfold JS.ltb. rewrite negb_true_iff, <- not_true_iff_false, Qle_bool_iff.
  split; [apply Qnot_le_lt | apply Qlt_not_le].
Qed.

Lemma ltb_false (a b : Q) : JS.ltb a b = false <-> b <= a.
Proof. unfold JS.ltb. rewrite negb_false_iff. apply Qle_bool_iff. Qed.

Lemma clamp_range (lo hi x : Q) : lo <= hi -> lo <= JS.clamp lo hi x <= hi.
Proof.
  intros Hle. unfold JS.clamp, JS.gtb.
  destruct (JS.ltb x lo) eqn:E1.
  - destruct (JS.ltb hi lo) eqn:E2.
    + apply ltb_true in E2. lra.
    + lra.
  - apply ltb_false in E1. destruct (JS.ltb hi x) eqn:E2.
    + lra.
    + apply ltb_false in E2. lra.
Qed.

Lemma clamp_id (lo hi x : Q) : lo <= x <= hi -> JS.clamp lo hi x = x.
Proof.
  intros [H1 H2]. unfold JS.clamp, JS.gtb.
  apply ltb_false in H1. rewrite H1. apply ltb_false in H2. by rewrite H2.
Qed.

Lemma round_bounds (x : Q) :
  inject_Z (JS.round x) <= x + (1 # 2) /\ x + (1 # 2) < inject_Z (JS.round x) + 1.
Proof.
  unfold JS.round. split; [apply Qfloor_le |].
  pose proof (Qlt_floor (x + (1 # 2))) as H.
  rewrite inject_Z_plus in H. exact H.
Qed.

Lemma round_mono (x y : Q) : x <= y -> (JS.round x <= JS.round y)%Z.
Proof. intros H. unfold JS.round. apply Qfloor_resp_le. lra. Qed.

Lemma round_int (z : Z) : JS.round (inject_Z z) = z.
Proof.
  destruct (round_bounds (inject_Z z)) as [H1 H2].
  assert (inject_Z (z + 1) == inject_Z z + 1) as E1
    by (rewrite inject_Z_plus; reflexivity).
  assert (inject_Z (z - 1) == inject_Z z - 1) as E2
    by (unfold Z.sub; rewrite inject_Z_plus, inject_Z_opp; reflexivity).
  assert (inject_Z (JS.round (inject_Z z)) < inject_Z (z + 1)) as H3 by lra.
  assert (inject_Z (z - 1) < inject_Z (JS.round (inject_Z z))) as H4 by lra.
  rewrite <- Zlt_Qlt in H3, H4. lia.
Qed.

Lemma round1_mono (x y : Q) : x <= y -> JS.round1 x <= JS.round1 y.
Proof.
  intros H. unfold JS.round1.
  assert (inject_Z (JS.round (x * 10)) <= inject_Z (JS.round (y * 10))) as H'
    by (rewrite <- Zle_Qle; apply round_mono; lra).
  unfold Qdiv. apply Qmult_le_compat_r; [exact H' | discriminate].
Qed.

Lemma round1_tenths (q : Q) : Segmenter.tenths q -> JS.round1 q == q.
Proof.
  intros [z Hz]. unfold JS.round1.
  assert (q * 10 == inject_Z z) as E by (rewrite Hz; field).
  unfold JS.round. rewrite (Qfloor_comp _ (inject_Z z + (1 # 2))) by (rewrite E; reflexivity).
  fold (JS.round (inject_Z z)). rewrite round_int. rewrite Hz. reflexivity.
Qed.

Lemma round1_clamp_range (lo hi x : Q) :
  lo <= hi -> Segmenter.tenths lo -> Segmenter.tenths hi ->
  lo <= JS.round1 (JS.clamp lo hi x) <= hi.
Proof.
  intros Hle Hlo Hhi. destruct (clamp_range lo hi x Hle) as [H1 H2].
  apply round1_mono in H1, H2.
  rewrite (round1_tenths lo Hlo) in H1. rewrite (round1_tenths hi Hhi) in H2.
  split; assumption.
Qed.

Lemma round1_error (x : Q) : Qabs (JS.round1 x - x) <= 1 # 20.
Proof.
  destruct (round_bounds (x * 10)) as [H1 H2]. unfold JS.round1, Qdiv.
  change (/ 10) with (1 # 10).
  apply Qabs_Qle_condition. split; lra.
Qed.

(** ** Segmenter *)

Section SegmenterFacts.
Import Segmenter.

Lemma buildSections_nonempty cps target mn mx sentences :
  forall cur curDur,
    sentences <> [] ->
    buildSections cps target mn mx sentences cur curDur <> [].
Proof.
  induction sentences as [| s rest IH]; intros cur curDur Hne; [done |].
  cbn [buildSections]. destruct rest as [| s' rest'].
  - rewrite orb_true_r. discriminate.
  - rewrite orb_false_r.
    match goal with |- context [if ?b then _ else _] => destruct b end.
    + discriminate.
    + apply IH. discriminate.
Qed.

Lemma buildSections_range cps target mn mx sentences :
  mn <= mx -> tenths mn -> tenths mx ->
  forall cur curDur,
    Forall (fun s => mn <= duration s <= mx)
           (buildSections cps target mn mx sentences cur curDur).
Proof.
  intros Hle Hmn Hmx.
  induction sentences as [| s rest IH]; intros cur curDur; [constructor |].
  cbn [buildSections].
  match goal with |- context [if ?b then _ :: _ else _] => destruct b end.
  - constructor.
    + cbn [duration]. by apply round1_clamp_range.
    + destruct rest; apply IH.
  - apply IH.
Qed.

Lemma totalDuration_from (l : list ScriptSection) (a : Q) :
  fold_left (fun sum s => sum + duration s) l a == a + totalDuration l.
Proof.
  unfold totalDuration. revert a.
  induction l as [| s l IH]; intros a; cbn [fold_left]; [lra |].
  rewrite (IH (a + duration s)), (IH (0 + duration s)). lra.
Qed.

Lemma totalDuration_cons (s : ScriptSection) (l : list ScriptSection) :
  totalDuration (s :: l) == duration s + totalDuration l.
Proof.
  unfold totalDuration at 1. cbn [fold_left]. rewrite totalDuration_from. lra.
Qed.

Lemma totalDuration_pos (mn : Q) (l : list ScriptSection) :
  0 < mn -> l <> [] -> Forall (fun s => mn <= duration s) l ->
  0 < totalDuration l.
Proof.
  intros Hmn Hne Hall. destruct l as [| s l]; [done |].
  clear Hne. revert s Hall. induction l as [| s' l IH]; intros s Hall.
  - rewrite totalDuration_cons. inversion_clear Hall.
    change (totalDuration []) with 0. lra.
  - rewrite totalDuration_cons. inversion_clear Hall.
    specialize (IH s' H0). lra.
Qed.

Lemma rescale_drift (mn mx k : Q) (l : list ScriptSection) :
  Forall (fun s => mn <= duration s * k <= mx) l ->
  Qabs (totalDuration (map (rescale mn mx k) l) - k * totalDuration l)
  <= inject_Z (Z.of_nat (length l)) / 20.
Proof.
  induction l as [| s l IH]; intros Hall.
  - assert (totalDuration (map (rescale mn mx k) []) - k * totalDuration [] == 0)
      as E by (change (0 - k * 0 == 0); ring).
    rewrite E. discriminate.
  - inversion_clear Hall as [| ? ? Hs Hl]. specialize (IH Hl).
    cbn [map length]. rewrite !totalDuration_cons. cbn [rescale duration].
    rewrite (clamp_id mn mx _ Hs).
    pose proof (round1_error (duration s * k)) as Herr.
    rewrite Nat2Z.inj_succ. unfold Z.succ. rewrite inject_Z_plus.
    change (inject_Z 1) with 1.
    apply Qabs_Qle_condition in IH, Herr. apply Qabs_Qle_condition.
    unfold Qdiv in *. change (/ 20) with (1 # 20) in *.
    split; lra.
Qed.

(** C1 (as the code has it). For a script with at least one sentence, a
    measured duration [D > 0] and limits [0 < min <= max] that are whole
    tenths of a second, [splitScriptWithDurations] returns at least one
    section and every section's duration lies in [min, max].  When no section
    is clamped again after the rescaling, the durations sum to [D] up to the
    rounding to tenths: within 0.06 second per section.  (The rounding moves
    a section by 0.05 second; the code rounds a double, which at a tie can
    fall to the other side, and the last hundredth leaves room for that.) *)
Theorem C1_sections_in_range (script : jsstring) (D target mn mx : Q) :
  splitIntoSentences script <> [] ->
  0 < D -> 0 < mn -> mn <= mx -> tenths mn -> tenths mx ->
  let raw := rawSections script D target mn mx in
  let out := splitScriptWithDurations script D target mn mx in
  out <> []
  /\ Forall (fun s => mn <= duration s <= mx) out
  /\ (Forall (fun s => mn <= duration s * scaleFactor D raw <= mx) raw ->
      Qabs (totalDuration out - D)
      <= inject_Z (Z.of_nat (length out)) * (3 # 50)).
Proof.
  intros Hsent HD Hmn Hle Tmn Tmx raw out.
  assert (raw <> []) as Hraw by (apply buildSections_nonempty; exact Hsent).
  assert (Forall (fun s => mn <= duration s <= mx) raw) as Hrange
    by (apply buildSections_range; assumption).
  assert (out = map (rescale mn mx (scaleFactor D raw)) raw) as Eout by reflexivity.
  split; [| split].
  - rewrite Eout. destruct raw; [done | discriminate].
  - rewrite Eout. apply Forall_fmap, Forall_true. intros s.
    cbn [rescale duration compose]. by apply round1_clamp_range.
  - intros Hno. rewrite Eout, length_map.
    assert (0 < totalDuration raw) as Hpos.
    { apply (totalDuration_pos mn); [assumption .. |].
      eapply Forall_impl; [exact Hrange |]. intros s [H _]. exact H. }
    assert (scaleFactor D raw * totalDuration raw == D) as Ek
      by (unfold scaleFactor; field; lra).
    pose proof (rescale_drift mn mx _ raw Hno) as Hd.
    rewrite Ek in Hd. eapply Qle_trans; [exact Hd |].
    assert (0 <= inject_Z (Z.of_nat (length raw))) as Hn
      by (change 0 with (inject_Z 0); rewrite <- Zle_Qle; lia).
    unfold Qdiv. change (/ 20) with (1 # 20). lra.
Qed.

(** The script [A. B. C.] spoken in 9 seconds, with a target of 8 and the
    limits 4 and 10: one section of 9 seconds, not clamped again. *)
Lemma C1_witness :
  let script := ofString "A. B. C." in
  let out := splitScriptWithDurations script 9 8 4 10 in
  out <> []
  /\ Forall (fun s => 4 <= duration s <= 10) out
  /\ Qabs (totalDuration out - 9) <= inject_Z (Z.of_nat (length out)) * (3 # 50).
Proof.
  intros script out.
  destruct (C1_sections_in_range script 9 8 4 10) as (Hne & Hrange & Hsum).
  - discriminate.
  - reflexivity.
  - reflexivity.
  - discriminate.
  - exists 40%Z. reflexivity.
  - exists 100%Z. reflexivity.
  - split; [exact Hne |]. split; [exact Hrange |]. apply Hsum.
    vm_compute. repeat constructor; discriminate.
Defined.

(** C1 (counterexample). The scenario of the specification: [A. B. C.] with
    18 seconds of audio is one section of 10 seconds, 8 seconds short of the
    audio.  And 36 sentences spoken in 174.2 seconds are 35 sections, none of
    them clamped, whose durations sum to 173 seconds.  And under a lower
    limit of 4.04 seconds a short sentence is one section of 4.0 seconds. *)
Lemma C1_counterexample :
  (splitIntoSentences (ofString "A. B. C.") <> []
   /\ map (fun s => Qred (duration s))
          (splitScriptWithDurations (ofString "A. B. C.") 18 8 4 10) = [10]
   /\ ~ Qabs (totalDuration (splitScriptWithDurations (ofString "A. B. C.") 18 8 4 10)
              - 18) <= 1)
  /\
  (let script := ofString (repeatString "Aaaa." 36) in
   let raw := rawSections script (871 # 5) 8 4 10 in
   let out := splitScriptWithDurations script (871 # 5) 8 4 10 in
   length out = 35%nat
   /\ forallb (fun s => Qle_bool 4 (duration s * scaleFactor (871 # 5) raw)
                        && Qle_bool (duration s * scaleFactor (871 # 5) raw) 10) raw
      = true
   /\ Qred (totalDuration out) = 173
   /\ ~ Qabs (totalDuration out - (871 # 5)) <= 1)
  /\
  (map (fun s => Qred (duration s))
       (splitScriptWithDurations (ofString "A.") 1 8 (101 # 25) 10) = [4]
   /\ 4 < 101 # 25).
Proof.
  split; [| split].
  - split; [discriminate |]. split; [vm_compute; reflexivity |].
    apply Qlt_not_le. vm_compute. reflexivity.
  - cbv zeta. split; [vm_compute; reflexivity |].
    split; [vm_compute; reflexivity |].
    split; [vm_compute; reflexivity |].
    apply Qlt_not_le. vm_compute. reflexivity.
  - split; [vm_compute; reflexivity | reflexivity].
Qed.

End SegmenterFacts.

(** ** Progress steps *)

Section StepsFacts.
Import Steps.

Lemma over_absent {A} (old : A) : over None old = old.
Proof. reflexivity. Qed.

Lemma over_present {A} (v old : A) : over (Some v) old = v.
Proof. reflexivity. Qed.

Lemma updateStep_lookup steps stepId updates i :
  updateStep steps stepId updates !! i =
  (fun step => if String.eqb (id step) stepId then spread step updates else step)
    <$> steps !! i.
Proof. unfold updateStep. apply list_lookup_fmap. Qed.

(** C9. [updateStep] keeps the length of the array; a step whose id differs
    from [stepId] is returned as it is, and a step whose id is [stepId] is
    returned with exactly the properties present in [updates] replaced. *)
Theorem C9_updateStep_frame (steps : list MultiClipStep) (stepId : string)
    (updates : StepUpdate) :
  length (updateStep steps stepId updates) = length steps
  /\ forall (i : nat) (step : MultiClipStep),
       steps !! i = Some step ->
       exists step',
         updateStep steps stepId updates !! i = Some step'
         /\ (id step <> stepId -> step' = step)
         /\ (id step = stepId ->
             id step' = over (u_id updates) (id step)
             /\ name step' = over (u_name updates) (name step)
             /\ status step' = over (u_status updates) (status step)
             /\ startTime step' = over (u_startTime updates) (startTime step)
             /\ endTime step' = over (u_endTime updates) (endTime step)
             /\ result step' = over (u_result updates) (result step)
             /\ error step' = over (u_error updates) (error step)).
Proof.
  split.
  - unfold updateStep. apply length_map.
  - intros i step Hi. rewrite updateStep_lookup, Hi. cbn.
    destruct (String.eqb_spec (id step) stepId) as [E | E];
      eexists; (split; [reflexivity |]); split; intros H;
      try contradiction; try reflexivity.
    repeat split.
Qed.
End StepsFacts.

(** ** Clip orchestrator *)

Section OrchestratorFacts.
Import Orchestrator.
Variable env : Env.

Lemma requestLoop_spec provider model rest :
  forall (i : nat) (done : list ClipInfo) (log : list Event),
    length done = i ->
    requestLoop env provider model rest i (done ++ rest) log
    = (done ++ map (requestOne env provider model) rest,
       log ++ map (fun c => Submitted (buildRequest provider model c)) rest).
Proof.
  induction rest as [| c rest IH]; intros i done log Hlen; cbn.
  - by rewrite !app_nil_r.
  - rewrite insert_app_r_alt by lia.
    replace (i - length done)%nat with 0%nat by lia. cbn.
    rewrite (cons_middle _ done rest), app_assoc.
    rewrite IH by (rewrite length_app; cbn; lia).
    by rewrite <- !app_assoc.
Qed.

Lemma requestClipVideos_spec clips provider model :
  requestClipVideos env clips provider model
  = (map (requestOne env provider model) clips,
     map (fun c => Submitted (buildRequest provider model c)) clips).
Proof.
  unfold requestClipVideos.
  apply (requestLoop_spec provider model clips 0 [] []). reflexivity.
Qed.

Lemma veo_duration_in_range (c : ClipInfo) :
  4 <= requestedDuration Veo c <= 8.
Proof.
  unfold requestedDuration, JS.gtb, JS.ltb.
  destruct (Qle_bool 4 (duration c)) eqn:E1; cbn.
  - destruct (Qle_bool (duration c) 8) eqn:E2; cbn.
    + apply Qle_bool_iff in E1, E2. split; assumption.
    + split; [discriminate | apply Qle_refl].
  - split; [apply Qle_refl | discriminate].
Qed.

Lemma targetDurationSec_in_range (audioDurationMs : Q) :
  (4 <= targetDurationSec audioDurationMs <= 8)%Z.
Proof. unfold targetDurationSec. lia. Qed.

End OrchestratorFacts.

Section PollFacts.
Import Orchestrator.
Variable env : Env.

Lemma pollClip_settled job i c st :
  settled c = true ->
  updatedClips (pollClip env job i c st) = updatedClips st
  /\ events (pollClip env job i c st) = events st.
Proof.
  unfold settled, pollClip. intros ->. split; reflexivity.
Qed.

Lemma pollClip_frame job i c st (j : nat) :
  j <> i ->
  updatedClips (pollClip env job i c st) !! j = updatedClips st !! j.
Proof.
  intros Hne. unfold pollClip.
  repeat (match goal with
          | |- context [if ?b then _ else _] => destruct b
          | |- context [match ?r with Ok _ => _ | Throw _ => _ end] => destruct r
          end; cbn [updatedClips]);
    try reflexivity; apply list_lookup_insert_ne; congruence.
Qed.

Lemma pollClip_events job i c st :
  exists l, events (pollClip env job i c st) = events st ++ l
            /\ Forall (fun e => eventClip e = Some i /\ settled c = false) l.
Proof.
  unfold pollClip. fold (settled c).
  destruct (settled c) eqn:Hs; [exists []; by rewrite app_nil_r |].
  repeat (match goal with
          | |- context [if ?b then _ else _] => destruct b
          | |- context [match ?r with Ok _ => _ | Throw _ => _ end] => destruct r
          end; cbn [events]);
    rewrite <- ?app_assoc;
    eexists; (split; [try reflexivity; by rewrite app_nil_r |]);
    repeat constructor.
Qed.

Lemma pollLoop_spec job rest :
  forall (i : nat) (st : PollState),
    (forall (j : nat) (c : ClipInfo),
       rest !! j = Some c -> settled c = true ->
       updatedClips (pollLoop env job rest i st) !! (i + j)%nat
       = updatedClips st !! (i + j)%nat)
    /\ (forall j : nat, (j < i)%nat ->
        updatedClips (pollLoop env job rest i st) !! j = updatedClips st !! j)
    /\ exists l, events (pollLoop env job rest i st) = events st ++ l
         /\ Forall (fun e => exists (k : nat) (c : ClipInfo),
                      eventClip e = Some (i + k)%nat
                      /\ rest !! k = Some c /\ settled c = false) l.
Proof.
  induction rest as [| c rest IH]; intros i st; cbn [pollLoop].
  - split; [intros j c H; by destruct j |].
    split; [reflexivity |]. exists []. by rewrite app_nil_r.
  - destruct (IH (S i) (pollClip env job i c st)) as (IH1 & IH2 & l & IH3 & IH4).
    split; [| split].
    + intros [| j] c' Hj Hs; cbn in Hj.
      * injection Hj as <-. rewrite Nat.add_0_r, IH2 by lia.
        by rewrite (proj1 (pollClip_settled job i c st Hs)).
      * replace (i + S j)%nat with (S i + j)%nat by lia.
        rewrite (IH1 j c' Hj Hs). apply pollClip_frame. lia.
    + intros j Hj. rewrite IH2 by lia. apply pollClip_frame. lia.
    + destruct (pollClip_events job i c st) as (l0 & E0 & F0).
      exists (l0 ++ l). split; [by rewrite IH3, E0, app_assoc |].
      apply Forall_app. split.
      * eapply Forall_impl; [exact F0 |]. intros e [He Hs].
        exists 0%nat, c. by rewrite Nat.add_0_r.
      * eapply Forall_impl; [exact IH4 |]. intros e (k & c' & He & Hk & Hs).
        exists (S k), c'. replace (i + S k)%nat with (S i + k)%nat by lia. done.
Qed.

(** The part of the polling contract that the code keeps: a clip that is
    already Completed or Failed is returned as it is, and every call made
    during the tick is about a clip that was not. *)
Lemma checkAndDownloadClips_skips_settled (cs : list ClipInfo) (job : string) :
  (forall (i : nat) (c : ClipInfo),
     cs !! i = Some c -> settled c = true ->
     clips (checkAndDownloadClips env cs job) !! i = Some c)
  /\ Forall (fun e => exists (i : nat) (c : ClipInfo),
               eventClip e = Some i /\ cs !! i = Some c /\ settled c = false)
            (polled (checkAndDownloadClips env cs job)).
Proof.
  unfold checkAndDownloadClips. cbn [clips polled].
  match goal with |- context [pollLoop env job cs 0 ?st] =>
    destruct (pollLoop_spec job cs 0 st) as (H1 & _ & l & H3 & H4) end.
  split.
  - intros i c Hi Hs. specialize (H1 i c Hi Hs). cbn in H1. by rewrite H1.
  - rewrite H3. exact H4.
Qed.

End PollFacts.


(** ** The monad of commands *)

Section MediaFacts.
Import Media.
Variable env : Env.

Lemma returns_ret {A} (a : A) w (post : A -> World -> Prop) :
  post a w -> returns (ret a) w post.
Proof. intros H. by exists a, w. Qed.

Lemma returns_bind {A B} (m : M A) (k : A -> M B) w (post : B -> World -> Prop) :
  returns m w (fun a w' => returns (k a) w' post) -> returns (bind m k) w post.
Proof.
  intros (a & w' & Hm & b & w'' & Hk & Hpost). exists b, w''.
  unfold bind. by rewrite Hm.
Qed.

Lemma returns_weaken {A} (m : M A) w (post post' : A -> World -> Prop) :
  returns m w post -> (forall a w', post a w' -> post' a w') -> returns m w post'.
Proof. intros (a & w' & Hm & Hpost) H. exists a, w'. eauto. Qed.

Lemma returns_exec (c : Cmd) w f' (post : unit -> World -> Prop) :
  cmdFails env c = false ->
  run c (files w) = Some f' ->
  post tt {| files := f'; log := log w ++ [c] |} ->
  returns (exec env c) w post.
Proof.
  intros Hc Hr Hpost. eexists _, _. split; [| exact Hpost].
  unfold exec. by rewrite Hc, Hr.
Qed.

Lemma returns_ffprobe (p : string) w d (post : Q -> World -> Prop) :
  probeFails env p = false -> files w !! p = Some d -> post d w ->
  returns (ffprobe env p) w post.
Proof.
  intros Hp Hf Hpost. exists d, w. split; [| exact Hpost].
  unfold ffprobe. by rewrite Hp, Hf.
Qed.

Lemma returns_tryCatch_ok {A} (m : M A) h w (post : A -> World -> Prop) :
  returns m w post -> returns (tryCatch m h) w post.
Proof.
  intros (a & w' & Hm & Hpost). exists a, w'. unfold tryCatch. by rewrite Hm.
Qed.

Lemma returns_tryCatch {A} (m : M A) h w (post : A -> World -> Prop) :
  (forall a w', m w = (Ok a, w') -> post a w') ->
  (forall msg w', m w = (Throw msg, w') -> returns (h msg) w' post) ->
  returns (tryCatch m h) w post.
Proof.
  intros Hok Hthrow. unfold returns, tryCatch.
  destruct (m w) as [[a | msg] w'] eqn:E.
  - exists a, w'. eauto.
  - by apply Hthrow.
Qed.

Lemma returns_finally {A} (m : M A) cleanup w (post : A -> World -> Prop) :
  returns m w (fun a w' => forall r w'', cleanup w' = (r, w'') -> post a w'') ->
  returns (finally m cleanup) w post.
Proof.
  intros (a & w' & Hm & Hpost). unfold returns, finally. rewrite Hm.
  destruct (cleanup w') as [r w''] eqn:E. exists a, w''. eauto.
Qed.

(** What one command leaves behind, whether it ran or threw. *)
Lemma exec_cases (c : Cmd) w r w' :
  exec env c w = (r, w') ->
  (r = Ok tt /\ exists f', run c (files w) = Some f' /\ cmdFails env c = false
                 /\ w' = {| files := f'; log := log w ++ [c] |})
  \/ ((exists msg, r = Throw msg) /\ w' = w).
Proof.
  unfold exec. destruct (cmdFails env c) eqn:Hc.
  - intros [= <- <-]. right. eauto.
  - destruct (run c (files w)) as [f' |] eqn:Hr; intros [= <- <-].
    + left. eauto 10.
    + right. eauto.
Qed.

(** [await fs.unlink(p).catch(() => {})]: the other files stay. *)
Lemma returns_unlink_quiet (p : string) w (post : unit -> World -> Prop) :
  (forall w', (forall q, q <> p -> files w' !! q = files w !! q) -> post tt w') ->
  returns (tryCatch (exec env (Unlink p)) (fun _ => ret tt)) w post.
Proof.
  intros Hpost. apply returns_tryCatch.
  - intros [] w' He. apply Hpost.
    apply exec_cases in He as [(_ & f' & Hr & _ & ->) | ((msg & [=]) & _)].
    cbn [run] in Hr. destruct (files w !! p) as [d |]; [| discriminate].
    injection Hr as <-. intros q Hq. cbn. by apply lookup_delete_ne.
  - intros msg w' He. apply returns_ret. apply Hpost.
    apply exec_cases in He as [([=] & _) | (_ & ->)]. done.
Qed.

(** *** The log *)

Lemma logs_ret {A} good (a : A) : logsOnly good (ret a).
Proof. intros w r w' [= <- <-]. exists []. by rewrite app_nil_r. Qed.

Lemma logs_throw {A} good msg : logsOnly good (@throw A msg).
Proof. intros w r w' [= <- <-]. exists []. by rewrite app_nil_r. Qed.

Lemma logs_bind {A B} good (m : M A) (k : A -> M B) :
  logsOnly good m -> (forall a, logsOnly good (k a)) -> logsOnly good (bind m k).
Proof.
  intros Hm Hk w r w'. unfold bind.
  destruct (m w) as [[a | msg] w1] eqn:E.
  - intros Hka. destruct (Hm _ _ _ E) as (l1 & E1 & F1).
    destruct (Hk a _ _ _ Hka) as (l2 & E2 & F2).
    exists (l1 ++ l2). split; [by rewrite E2, E1, app_assoc | by apply Forall_app].
  - intros [= <- <-]. eapply Hm. exact E.
Qed.

Lemma logs_tryCatch {A} good (m : M A) h :
  logsOnly good m -> (forall msg, logsOnly good (h msg)) ->
  logsOnly good (tryCatch m h).
Proof.
  intros Hm Hh w r w'. unfold tryCatch.
  destruct (m w) as [[a | msg] w1] eqn:E.
  - intros [= <- <-]. eapply Hm. exact E.
  - intros Hhm. destruct (Hm _ _ _ E) as (l1 & E1 & F1).
    destruct (Hh msg _ _ _ Hhm) as (l2 & E2 & F2).
    exists (l1 ++ l2). split; [by rewrite E2, E1, app_assoc | by apply Forall_app].
Qed.


Lemma logs_exec (good : Cmd -> Prop) (c : Cmd) : good c -> logsOnly good (exec env c).
Proof.
  intros Hg w r w' He.
  apply exec_cases in He as [(_ & f' & _ & _ & ->) | (_ & ->)].
  - exists [c]. split; [reflexivity | by constructor].
  - exists []. by rewrite app_nil_r.
Qed.

Lemma logs_ffprobe good (p : string) : logsOnly good (ffprobe env p).
Proof.
  intros w r w'. unfold ffprobe.
  destruct (probeFails env p); [| destruct (files w !! p)];
    intros [= <- <-]; exists []; by rewrite app_nil_r.
Qed.

End MediaFacts.

(** ** Paths *)

Section PathFacts.
Import Media.

Lemma append_nil (b : string) : "" +:+ b = b.
Proof. reflexivity. Qed.

Lemma append_cons (c : Ascii.ascii) (a b : string) :
  String c a +:+ b = String c (a +:+ b).
Proof. reflexivity. Qed.

Lemma slashes_app (a b : string) : slashes (a +:+ b) = (slashes a + slashes b)%nat.
Proof.
  induction a as [| c a IH]; [reflexivity |].
  rewrite append_cons. cbn. rewrite IH. lia.
Qed.

Lemma startsWith_app (p s : string) :
  JS.startsWith p s = true -> exists r, s = p +:+ r.
Proof.
  revert s. induction p as [| a p IH]; intros s; cbn.
  - intros _. by exists s.
  - destruct s as [| b s]; [done |].
    destruct (Ascii.eqb_spec a b) as [-> |]; [| done].
    intros (r & ->)%IH. exists r. by rewrite append_cons.
Qed.

Lemma beforeLastSlash_slashes (s : string) :
  match beforeLastSlash s with
  | Some d => slashes s = S (slashes d)
  | None => slashes s = 0%nat
  end.
Proof.
  induction s as [| c s IH]; cbn; [reflexivity |].
  destruct (beforeLastSlash s) as [d |].
  - cbn. lia.
  - destruct (Ascii.eqb c slash); cbn; lia.
Qed.

Lemma dirname_slashes (s : string) : (slashes s <= S (slashes (dirname s)))%nat.
Proof.
  unfold dirname. pose proof (beforeLastSlash_slashes s) as H.
  destruct (beforeLastSlash s) as [[| c d] |]; cbn in *; lia.
Qed.

(** The output of a merge is not inside its temporary directory. *)
Lemma output_outside_tmp (dir outputPath : string) :
  underDir (pjoin (dirname outputPath) dir) outputPath = false.
Proof.
  unfold underDir. destruct (JS.startsWith _ outputPath) eqn:E; [| reflexivity].
  apply startsWith_app in E as (r & E).
  pose proof (dirname_slashes outputPath) as H. rewrite E in H at 1.
  unfold pjoin in H. destruct (JS.startsWith "/" dir) eqn:Ed.
  - apply startsWith_app in Ed as (d & ->).
    rewrite !slashes_app in H. cbn in H. lia.
  - rewrite !slashes_app in H. cbn in H. lia.
Qed.

Lemma string_app_inv_head (a b c : string) : a +:+ b = a +:+ c -> b = c.
Proof.
  induction a as [| x a IH]; [done |]. rewrite !append_cons. intros [= H]. auto.
Qed.

Lemma string_length_app (a b : string) :
  String.length (a +:+ b) = (String.length a + String.length b)%nat.
Proof.
  induction a as [| x a IH]; [reflexivity |]. rewrite append_cons. cbn. by rewrite IH.
Qed.

Lemma dropChars_length (n : nat) (s : string) :
  String.length (dropChars n s) = (String.length s - n)%nat.
Proof.
  revert s. induction n as [| n IH]; intros [| c s]; cbn;
    first [reflexivity | apply IH | lia].
Qed.

Lemma startsWith_length (p s : string) :
  JS.startsWith p s = true -> (String.length p <= String.length s)%nat.
Proof.
  intros (r & ->)%startsWith_app. rewrite string_length_app. lia.
Qed.

(** Replacing [.mp4] in a name that ends in [.mp4] makes a longer name. *)
Lemma replaceFirst_mp4_length (by_ a : string) :
  String.length (replaceFirst ".mp4" by_ (a +:+ ".mp4"))
  = (String.length a + String.length by_)%nat.
Proof.
  induction a as [| c a IH].
  - rewrite append_nil. cbn. rewrite string_length_app. cbn. lia.
  - rewrite append_cons. cbn [replaceFirst].
    destruct (JS.startsWith ".mp4" (String c (a +:+ ".mp4"))) eqn:E.
    + rewrite string_length_app, dropChars_length.
      cbn [String.length]. rewrite string_length_app. cbn [String.length]. lia.
    + cbn [String.length]. rewrite IH. lia.
Qed.

Lemma replaceFirst_mp4_neq (by_ a : string) :
  (4 < String.length by_)%nat ->
  replaceFirst ".mp4" by_ (a +:+ ".mp4") <> a +:+ ".mp4".
Proof.
  intros Hlen E. apply (f_equal String.length) in E.
  rewrite replaceFirst_mp4_length, string_length_app in E. cbn in E. lia.
Qed.

End PathFacts.

(** ** Sorting by a key *)

Section SortFacts.
Context {A : Type} (key : A -> Z).





(** A list that is already in order is returned as it is. *)
Lemma sortBy_id (l : list A) : StronglySorted (keyLe key) l -> sortBy key l = l.
Proof.
  induction 1 as [| x l Hs IH Hx]; [reflexivity |].
  change (sortBy key (x :: l)) with (insertBy key x (sortBy key l)).
  rewrite IH. destruct l as [| y l]; [reflexivity |]. cbn.
  inversion_clear Hx as [| ? ? Hxy _]. unfold keyLe in Hxy.
  destruct (Z.leb_spec (key x) (key y)); [reflexivity | lia].
Qed.

End SortFacts.

(** ** Merging the clips *)

Section MergeFacts.
Import Media.
Variable env : Env.










Lemma requireFFmpeg_pure w r w' : Ffmpeg.requireFFmpeg env w = (r, w') -> w' = w.
Proof.
  unfold Ffmpeg.requireFFmpeg, bind, checkFFmpegInstalled, ret, throw.
  destruct (ffmpegInstalled env); by intros [= _ <-].
Qed.

Lemma probe_or_default_pure (p : string) (d : Q) w r w' :
  tryCatch (ffprobe env p) (fun _ => ret d) w = (r, w') -> w' = w /\ exists q, r = Ok q.
Proof.
  unfold tryCatch, ffprobe, ret.
  destruct (probeFails env p); [| destruct (files w !! p)];
    intros [= <- <-]; eauto.
Qed.

Lemma sumDurations_pure paths :
  forall acc w r w',
    Ffmpeg.sumDurations env paths acc w = (r, w') -> w' = w /\ exists q, r = Ok q.
Proof.
  induction paths as [| p paths IH]; intros acc w r w'; cbn [Ffmpeg.sumDurations].
  - intros [= <- <-]. eauto.
  - unfold bind. destruct (Ffmpeg.getVideoDuration env p w) as [rd w1] eqn:E.
    apply probe_or_default_pure in E as [-> [q ->]]. apply IH.
Qed.





Lemma filter_none_completed (clips : list ClipInfo) :
  Forall (fun c => status c <> Completed) clips ->
  List.filter MultiClip.isCompleted clips = [].
Proof.
  induction 1 as [| c clips Hc _ IH]; [reflexivity |]. cbn.
  unfold MultiClip.isCompleted at 1. destruct (status c); try done; exact IH.
Qed.

(** C4. When no clip is Completed, [mergeClipsIntoVideo] throws: it runs no
    command and writes no file, so no output comes out of the call.  The
    merge against the narration and the plain merge refuse an empty list of
    clips the same way. *)
Theorem C4_no_completed_clip_no_merge (clips : list ClipInfo) (outputPath : string)
    (audioPath : option string) (audioDuration : option Q) (w : World) :
  Forall (fun c => status c <> Completed) clips ->
  MultiClip.mergeClipsIntoVideo env clips outputPath audioPath audioDuration w
  = (Throw "합칠 수 있는 완료된 클립이 없습니다.", w)
  /\ (forall audio, Ffmpeg.mergeVideosWithAudioSync env [] audio outputPath w
                    = (Throw "합칠 비디오가 없습니다.", w))
  /\ Ffmpeg.mergeVideos env [] outputPath audioPath w
     = (Throw "합칠 비디오가 없습니다.", w).
Proof.
  intros H. split; [| split; reflexivity].
  unfold MultiClip.mergeClipsIntoVideo, MultiClip.completedClips.
  by rewrite (filter_none_completed clips H).
Qed.


End MergeFacts.

Section MergeOrderExamples.
Import Media Orchestrator.

(** Two clips, one Failed and one never requested: nothing to merge. *)
Lemma C4_witness :
  MultiClip.mergeClipsIntoVideo env_fine
    [with_status (freshClip 0 "A." 8) Failed; freshClip 1 "B." 8]
    "/app/public/videos/out.mp4" (Some "/app/public/audio/tts.mp3") (Some 25)
    threeClips
  = (Throw "합칠 수 있는 완료된 클립이 없습니다.", threeClips).
Proof.
  apply (C4_no_completed_clip_no_merge env_fine
           [with_status (freshClip 0 "A." 8) Failed; freshClip 1 "B." 8]).
  repeat constructor; discriminate.
Defined.

(** Clips that reach the merge in the order 2, 0, 1 are joined in the order
    0, 1, 2. *)
Lemma merge_out_of_order_example :
  log (MultiClip.mergeClipsIntoVideo env_fine
         [with_video (freshClip 2 "C." 6) "/videos/clip-4.mp4";
          with_video (freshClip 0 "A." 8) "/videos/clip-1.mp4";
          with_video (freshClip 1 "B." 8) "/videos/clip-3.mp4"]
         "/app/public/videos/out.mp4" (Some "/app/public/audio/tts.mp3") None
         threeClips).2
  = [Mkdir "/app/public/videos/tmp_sync_merge";
     FillerPipe "/app/public/videos/clip-4.mp4"
                "/app/public/videos/tmp_sync_merge/filler.mp4" 4;
     ConcatAudio ["/app/public/videos/clip-1.mp4"; "/app/public/videos/clip-3.mp4";
                  "/app/public/videos/clip-4.mp4";
                  "/app/public/videos/tmp_sync_merge/filler.mp4"]
                 "/app/public/audio/tts.mp3" (Some 25) false
                 "/app/public/videos/out.mp4";
     RemoveDir "/app/public/videos/tmp_sync_merge"].
Proof. vm_compute. reflexivity. Qed.

End MergeOrderExamples.

(** ** Merging against the narration *)

Section MergeRun.
Import Media.
Variable env : Env.
Hypothesis installed : ffmpegInstalled env = true.
Hypothesis commands_run : forall c, cmdFails env c = false.

Lemma totalOf_app f (a b : list string) ta tb :
  totalOf f a = Some ta -> totalOf f b = Some tb ->
  exists t, totalOf f (a ++ b) = Some t /\ t == ta + tb.
Proof.
  revert ta. induction a as [| p a IH]; intros ta; cbn.
  - intros [= <-] ->. exists tb. split; [reflexivity | lra].
  - destruct (f !! p) as [d |]; [| done].
    destruct (totalOf f a) as [t' |]; [| done].
    intros [= <-] Hb. destruct (IH t' eq_refl Hb) as (t & -> & E).
    exists (d + t). split; [reflexivity | lra].
Qed.

Lemma totalOf_insert_fresh (f : gmap string Q) (k : string) (v : Q) (paths : list string) t :
  f !! k = None -> totalOf f paths = Some t ->
  totalOf (<[k := v]> f) paths = Some t.
Proof.
  intros Hk. revert t. induction paths as [| p paths IH]; intros t; cbn; [done |].
  destruct (f !! p) as [d |] eqn:Ep; [| done].
  destruct (totalOf f paths) as [t' |]; [| done].
  intros [= <-]. rewrite lookup_insert_ne by congruence.
  by rewrite Ep, (IH t' eq_refl).
Qed.

Lemma totalOf_last f (paths : list string) t :
  paths <> [] -> totalOf f paths = Some t -> is_Some (f !! List.last paths "").
Proof.
  revert t. induction paths as [| p paths IH]; intros t Hne; [done |]. cbn [totalOf].
  destruct (f !! p) as [d |] eqn:Ep; [| done].
  destruct (totalOf f paths) as [t' |] eqn:Et; [| done]. intros _.
  destruct paths as [| q paths]; [by cbn; rewrite Ep |].
  change (List.last (p :: q :: paths) "") with (List.last (q :: paths) "").
  by apply (IH t').
Qed.

(** The merge against the narration, with the two measurements as they
    came out ([A'] for the narration, [T'] for the clips), when every command
    runs and the files are there. *)
Lemma merge_runs (paths : list string) (audio out : string) (w : World)
    (A' T' A T : Q) :
  paths <> [] ->
  Ffmpeg.getAudioDuration env audio w = (Ok A', w) ->
  Ffmpeg.sumDurations env paths 0 w = (Ok T', w) ->
  files w !! audio = Some A ->
  totalOf (files w) paths = Some T ->
  files w !! Ffmpeg.fillerPathOf out = None ->
  exists w' d,
    Ffmpeg.mergeVideosWithAudioSync env paths audio out w = (Ok out, w')
    /\ log w' = log w ++
         Mkdir (Ffmpeg.tmpSyncDir out)
         :: (if JS.ltb T' (A' - (1 # 2))
             then [FillerPipe (List.last paths "") (Ffmpeg.fillerPathOf out)
                              (A' - T' + 1);
                   ConcatAudio (paths ++ [Ffmpeg.fillerPathOf out]) audio (Some A')
                               false out]
             else [ConcatAudio paths audio (Some A') false out])
         ++ [RemoveDir (Ffmpeg.tmpSyncDir out)]
    /\ files w' !! out = Some d
    /\ d == Qmin A' (Qmax (if JS.ltb T' (A' - (1 # 2)) then T + oneFrame else T) A).
Proof.
  intros Hne Haudio Hsum Hafile Htotal Hfresh.
  unfold Ffmpeg.mergeVideosWithAudioSync.
  destruct paths as [| p0 ps] eqn:Epaths; [done |]. rewrite <- Epaths in *.
  replace (length paths =? 0)%nat with false by (by rewrite Epaths).
  unfold bind at 1. unfold Ffmpeg.requireFFmpeg at 1.
  unfold bind at 1, checkFFmpegInstalled, ret at 1. rewrite installed.
  unfold ret at 1.
  unfold bind at 1. rewrite Haudio.
  unfold bind at 1. rewrite Hsum.
  unfold bind at 1. unfold exec at 1. rewrite commands_run. cbn [run].
  destruct (JS.ltb T' (A' - (1 # 2))).
  - destruct (totalOf_last _ _ _ Hne Htotal) as [dl Hlast].
    destruct (totalOf_app (<[Ffmpeg.fillerPathOf out := oneFrame]> (files w))
                paths [Ffmpeg.fillerPathOf out] T (oneFrame + 0))
      as (T1 & HT1 & ET1).
    { by apply totalOf_insert_fresh. }
    { cbn [totalOf]. by rewrite lookup_insert_eq. }
    unfold finally, bind at 1, bind at 1.
    unfold Ffmpeg.createFillerFromLastFrame, bind at 1.
    unfold Ffmpeg.requireFFmpeg, bind at 1, checkFFmpegInstalled, ret at 1.
    rewrite installed. unfold ret at 1.
    unfold tryCatch, exec at 1. rewrite commands_run.
    cbn [run files log]. unfold write1. rewrite Hlast.
    unfold ret at 1. unfold bind at 1, exec at 1. rewrite commands_run.
    cbn [run files log]. rewrite HT1.
    rewrite lookup_insert_ne by (intros E; rewrite <- E, Hfresh in Hafile; done).
    rewrite Hafile. unfold ret at 1.
    unfold exec. rewrite commands_run. cbn [run files log].
    eexists _, _. split; [reflexivity |]. cbn [files log].
    split; [by rewrite <- !app_assoc |].
    split.
    + apply map_lookup_filter_Some. split; [apply lookup_insert_eq |].
      exact (output_outside_tmp "tmp_sync_merge" out).
    + rewrite ET1.
      assert (T + (oneFrame + 0) == T + oneFrame) as -> by lra. reflexivity.
  - unfold finally, bind at 1, ret at 1, bind at 1.
    unfold exec at 1. rewrite commands_run. cbn [run files log].
    rewrite Htotal, Hafile. unfold ret at 1.
    unfold exec. rewrite commands_run. cbn [run files log].
    eexists _, _. split; [reflexivity |]. cbn [files log].
    split; [by rewrite <- !app_assoc |].
    split.
    + apply map_lookup_filter_Some. split; [apply lookup_insert_eq |].
      exact (output_outside_tmp "tmp_sync_merge" out).
    + reflexivity.
Qed.
End MergeRun.

Section MergeClaims.
Import Media.
Variable env : Env.

Lemma getAudioDuration_measured (p : string) (w : World) (d : Q) :
  probeFails env p = false -> files w !! p = Some d ->
  Ffmpeg.getAudioDuration env p w = (Ok d, w).
Proof.
  intros Hp Hf. unfold Ffmpeg.getAudioDuration, tryCatch, ffprobe. by rewrite Hp, Hf.
Qed.



Lemma sumDurations_measured (paths : list string) (w : World) :
  (forall p, probeFails env p = false) ->
  forall T acc,
    totalOf (files w) paths = Some T ->
    exists t, Ffmpeg.sumDurations env paths acc w = (Ok t, w) /\ t == acc + T.
Proof.
  intros Hp. induction paths as [| p paths IH]; intros T acc; cbn.
  - intros [= <-]. exists acc. split; [reflexivity | lra].
  - destruct (files w !! p) as [d |] eqn:Ed; [| done].
    destruct (totalOf (files w) paths) as [t' |]; [| done]. intros [= <-].
    unfold bind, Ffmpeg.getVideoDuration, tryCatch, ffprobe. rewrite Hp, Ed.
    destruct (IH t' (acc + d) eq_refl) as (t & -> & E).
    exists t. split; [reflexivity | lra].
Qed.


(** The store in which the clips and the piped filler are joined. *)
Lemma pictures_with_piped_filler (paths : list string) (audio out : string)
    (f : Files) (A T cap : Q) :
  f !! audio = Some A ->
  totalOf f paths = Some T ->
  f !! Ffmpeg.fillerPathOf out = None ->
  exists v,
    pictures (ConcatAudio (paths ++ [Ffmpeg.fillerPathOf out]) audio (Some cap)
                          false out)
             (<[Ffmpeg.fillerPathOf out := oneFrame]> f) = Some v
    /\ v == Qmin cap (T + oneFrame).
Proof.
  intros Ha Ht Hfresh.
  destruct (totalOf_app (<[Ffmpeg.fillerPathOf out := oneFrame]> f)
              paths [Ffmpeg.fillerPathOf out] T (oneFrame + 0))
    as (T1 & HT1 & ET1).
  { by apply totalOf_insert_fresh. }
  { cbn [totalOf]. by rewrite lookup_insert_eq. }
  cbn [pictures]. rewrite HT1.
  rewrite lookup_insert_ne by (intros E; rewrite <- E, Hfresh in Ha; done).
  rewrite Ha. eexists. split; [reflexivity |]. rewrite ET1.
  assert (T + (oneFrame + 0) == T + oneFrame) as -> by lra. reflexivity.
Qed.

(** C3 (what the code does). With ffmpeg installed and every command and
    measurement succeeding, at least one clip, and clips whose total
    duration [T] is more than half a second short of the narration [A]:
    [mergeVideosWithAudioSync] asks for one filler from the last frame of the
    last clip, to last [A - T + 1] seconds, and joins the clips followed by
    the filler under the narration with the output capped at [A].  The
    filler comes from the piped command, which ends after one frame: the
    file it writes lasts a thirtieth of a second, not [A - T + 1] seconds,
    so the pictures joined last [T] and one frame and end before the
    narration does.  The output file still lasts [A] seconds, the length of
    the narration under the cap. *)
Theorem C3_piped_filler_holds_one_frame (videoPaths : list string)
    (audioPath outputPath : string) (w : World) (A T : Q) :
  ffmpegInstalled env = true ->
  (forall c, cmdFails env c = false) ->
  (forall p, probeFails env p = false) ->
  videoPaths <> [] ->
  files w !! audioPath = Some A ->
  totalOf (files w) videoPaths = Some T ->
  files w !! Ffmpeg.fillerPathOf outputPath = None ->
  T < A - (1 # 2) ->
  let filler := Ffmpeg.fillerPathOf outputPath in
  exists w' shortfall f1 v d,
    Ffmpeg.mergeVideosWithAudioSync env videoPaths audioPath outputPath w
    = (Ok outputPath, w')
    /\ log w' = log w ++
         [Mkdir (Ffmpeg.tmpSyncDir outputPath);
          FillerPipe (List.last videoPaths "") filler shortfall;
          ConcatAudio (videoPaths ++ [filler]) audioPath (Some A) false outputPath;
          RemoveDir (Ffmpeg.tmpSyncDir outputPath)]
    /\ shortfall == A - T + 1
    /\ run (FillerPipe (List.last videoPaths "") filler shortfall) (files w)
       = Some f1
    /\ f1 !! filler = Some oneFrame
    /\ oneFrame < shortfall
    /\ pictures (ConcatAudio (videoPaths ++ [filler]) audioPath (Some A) false
                             outputPath) f1 = Some v
    /\ v == T + oneFrame
    /\ v < A
    /\ files w' !! outputPath = Some d
    /\ d == A.
Proof.
  intros Hinst Hcmd Hprobe Hne Haudio Htotal Hfresh Hshort filler.
  destruct (sumDurations_measured videoPaths w Hprobe T 0 Htotal) as (T' & Hsum & ET).
  destruct (merge_runs env Hinst Hcmd videoPaths audioPath outputPath w
              A T' A T Hne (getAudioDuration_measured _ _ _ (Hprobe _) Haudio)
              Hsum Haudio Htotal Hfresh)
    as (w' & d & Hrun & Hlog & Hout & Ed).
  assert (JS.ltb T' (A - (1 # 2)) = true) as Hlt by (apply ltb_true; lra).
  rewrite Hlt in Hlog, Ed.
  destruct (totalOf_last _ _ _ Hne Htotal) as [dl Hlast].
  destruct (pictures_with_piped_filler videoPaths audioPath outputPath (files w)
              A T A Haudio Htotal Hfresh) as (v & Hv & Ev).
  assert (oneFrame == 1 # 30) as E30 by reflexivity.
  assert (v == T + oneFrame) as Ev'
    by (rewrite Ev; apply Q.min_r; lra).
  exists w', (A - T' + 1), (<[filler := oneFrame]> (files w)), v, d.
  split; [exact Hrun |]. split; [exact Hlog |]. split; [lra |].
  split; [cbn [run]; unfold write1; by rewrite Hlast |].
  split; [apply lookup_insert_eq |]. split; [lra |].
  split; [exact Hv |]. split; [exact Ev' |]. split; [lra |].
  split; [exact Hout |].
  rewrite Ed. apply Q.min_l. apply Q.le_max_r.
Qed.


End MergeClaims.

Section MergeExamples.
Import Media.

(** Three clips of 22 seconds in all under a narration of 25 seconds: a
    filler of 4 seconds is asked for and one frame is written; the pictures
    end after 22 seconds and one frame, the output lasts 25 seconds. *)
Lemma C3_witness :
  let clips := ["/app/public/videos/clip-1.mp4"; "/app/public/videos/clip-3.mp4";
                "/app/public/videos/clip-4.mp4"] in
  let audio := "/app/public/audio/tts.mp3" in
  let out := "/app/public/videos/out.mp4" in
  let filler := "/app/public/videos/tmp_sync_merge/filler.mp4" in
  exists w' shortfall f1 v d,
    Ffmpeg.mergeVideosWithAudioSync env_fine clips audio out threeClips = (Ok out, w')
    /\ log w' = log threeClips ++
         [Mkdir "/app/public/videos/tmp_sync_merge";
          FillerPipe "/app/public/videos/clip-4.mp4" filler shortfall;
          ConcatAudio (clips ++ [filler]) audio (Some 25) false out;
          RemoveDir "/app/public/videos/tmp_sync_merge"]
    /\ shortfall == 25 - 22 + 1
    /\ run (FillerPipe "/app/public/videos/clip-4.mp4" filler shortfall)
           (files threeClips) = Some f1
    /\ f1 !! filler = Some (1 # 30)
    /\ 1 # 30 < shortfall
    /\ pictures (ConcatAudio (clips ++ [filler]) audio (Some 25) false out) f1
       = Some v
    /\ v == 22 + (1 # 30)
    /\ v < 25
    /\ files w' !! out = Some d
    /\ d == 25.
Proof.
  apply (C3_piped_filler_holds_one_frame env_fine
           ["/app/public/videos/clip-1.mp4"; "/app/public/videos/clip-3.mp4";
            "/app/public/videos/clip-4.mp4"]
           "/app/public/audio/tts.mp3" "/app/public/videos/out.mp4" threeClips 25 22).
  - reflexivity.
  - reflexivity.
  - reflexivity.
  - discriminate.
  - vm_compute. reflexivity.
  - vm_compute. reflexivity.
  - vm_compute. reflexivity.
  - reflexivity.
Defined.


End MergeExamples.

(** ** Duration adjuster *)

Section AdjustFacts.
Import Media Core.
Variable env : Env.
Variable jobId : string.

Lemma string_app_assoc (a b c : string) : (a +:+ b) +:+ c = a +:+ (b +:+ c).
Proof.
  induction a as [| x a IH]; [reflexivity |]. rewrite !append_cons. by rewrite IH.
Qed.

Lemma tempPath_ends_mp4 (scene : Scene) :
  exists a, VideoManager.tempPath env jobId scene = a +:+ ".mp4".
Proof.
  exists (VideoManager.outputDir env jobId +:+ "/" +:+ "scene_" +:+ pad2 (id scene)
          +:+ "_temp").
  rewrite !string_app_assoc. reflexivity.
Qed.

Lemma outputPath_ends_mp4 (scene : Scene) :
  exists a, VideoManager.outputPath env jobId scene = a +:+ ".mp4".
Proof.
  exists (VideoManager.outputDir env jobId +:+ "/" +:+ "scene_" +:+ pad2 (id scene)
          +:+ "_adjusted").
  rewrite !string_app_assoc. reflexivity.
Qed.

Lemma tempPath_not_outputPath (scene : Scene) :
  VideoManager.outputPath env jobId scene <> VideoManager.tempPath env jobId scene.
Proof.
  change (VideoManager.outputDir env jobId +:+ "/" +:+ "scene_" +:+ pad2 (id scene)
          +:+ "_adjusted.mp4"
          <> VideoManager.outputDir env jobId +:+ "/" +:+ "scene_" +:+ pad2 (id scene)
             +:+ "_temp.mp4").
  intros E. do 2 apply string_app_inv_head in E.
  change ("scene_" +:+ (pad2 (id scene) +:+ "_adjusted.mp4")
          = "scene_" +:+ (pad2 (id scene) +:+ "_temp.mp4")) in E.
  do 2 apply string_app_inv_head in E. discriminate.
Qed.

Hypothesis commands_run : forall c, cmdFails env c = false.

Lemma applyAdjustment_returns (diff : option Q) (input target : string) (ms : Q)
    (w : World) (din : Q) (a : string) :
  files w !! input = Some din ->
  target = a +:+ ".mp4" ->
  returns (VideoManager.applyAdjustment env diff input target ms) w
    (fun t w1 => VideoManager.chosen diff t
                 /\ exists d, files w1 !! target = Some d /\ (t = none -> d = din)).
Proof.
  intros Hin Htarget. unfold VideoManager.applyAdjustment, VideoManager.chosen.
  destruct (VideoManager.absLt diff 500) eqn:E1;
    [| destruct (VideoManager.gt0 diff) eqn:E2;
       [destruct (VideoManager.le diff 2000) eqn:E3;
        [| destruct (VideoManager.le diff 4000) eqn:E4] |]].
  - apply returns_bind. eapply (returns_exec env); [apply commands_run | |].
    { cbn [run]. unfold write1. by rewrite Hin. }
    apply returns_ret. split; [tauto |]. eexists. split; [apply lookup_insert_eq | done].
  - apply returns_bind. eapply (returns_exec env); [apply commands_run | |].
    { cbn [run]. unfold write1. by rewrite Hin. }
    apply returns_ret. split; [tauto |]. eexists.
    split; [apply lookup_insert_eq | discriminate].
  - apply returns_bind. unfold VideoManager.applyKenBurns.
    apply returns_bind. eapply (returns_exec env); [apply commands_run | |].
    { cbn [run]. unfold write1. by rewrite Hin. }
    apply returns_bind. eapply (returns_exec env); [apply commands_run | |].
    { cbn [run files]. unfold write1. by rewrite lookup_insert_eq. }
    apply returns_unlink_quiet. intros w' Hw'. apply returns_ret.
    split; [tauto |]. eexists. split; [| discriminate].
    rewrite Hw'; [cbn [files]; apply lookup_insert_eq |].
    rewrite Htarget. intros E. symmetry in E. revert E.
    apply replaceFirst_mp4_neq. cbn. lia.
  - apply returns_bind. eapply (returns_exec env); [apply commands_run | |].
    { cbn [run]. unfold write1. by rewrite Hin. }
    apply returns_ret. split; [tauto |]. eexists.
    split; [apply lookup_insert_eq | discriminate].
  - apply returns_bind. eapply (returns_exec env); [apply commands_run | |].
    { cbn [run]. unfold write1. by rewrite Hin. }
    apply returns_ret. split; [tauto |]. eexists.
    split; [apply lookup_insert_eq | discriminate].
Qed.

Lemma dubIfNeeded_returns (scene : Scene) (w : World) (d : Q) :
  files w !! (if VideoManager.needsDubbing scene
              then VideoManager.tempPath env jobId scene
              else VideoManager.outputPath env jobId scene) = Some d ->
  returns (VideoManager.dubIfNeeded env jobId scene) w
    (fun _ w2 => exists d', files w2 !! VideoManager.outputPath env jobId scene = Some d'
                            /\ (VideoManager.needsDubbing scene = false -> d' = d)).
Proof.
  unfold VideoManager.dubIfNeeded.
  destruct (VideoManager.needsDubbing scene); intros Hd.
  2:{ apply returns_ret. exists d. done. }
  apply returns_bind.
  apply returns_weaken with
    (post := fun _ w1 => is_Some (files w1 !! VideoManager.outputPath env jobId scene)).
  - unfold VideoManager.addAudioToVideo. apply returns_tryCatch.
    + intros [] w' He.
      apply exec_cases in He as [(_ & f' & Hr & _ & ->) | ((msg & [=]) & _)].
      cbn [run] in Hr. unfold write1 in Hr. rewrite Hd in Hr.
      match type of Hr with
      | match ?o with Some _ => _ | None => _ end = _ =>
          destruct o as [au |]; [| done]
      end.
      injection Hr as <-.
      cbn [files]. rewrite lookup_insert_eq. eauto.
    + intros msg w' He.
      apply exec_cases in He as [([=] & _) | (_ & ->)].
      eapply (returns_exec env); [apply commands_run | |].
      { cbn [run]. unfold write1. by rewrite Hd. }
      cbn [files]. rewrite lookup_insert_eq. eauto.
  - intros _ w1 [d' Hd']. apply returns_unlink_quiet. intros w2 Hw2.
    exists d'. split; [| done].
    rewrite Hw2; [exact Hd' | apply tempPath_not_outputPath].
Qed.

Lemma abs_ge_cases (x b : Q) : b <= Qabs x -> x <= - b \/ b <= x.
Proof.
  intros H. destruct (Qlt_le_dec x 0) as [Hneg | Hpos].
  - left. rewrite Qabs_neg in H by lra. lra.
  - right. rewrite Qabs_pos in H by lra. exact H.
Qed.

Lemma chosen_by_delta (delta : Q) (t : AdjustmentType) :
  VideoManager.chosen (Some delta) t ->
  (Qabs delta < 500 -> t = none)
  /\ (500 <= delta <= 2000 -> t = freeze)
  /\ (2000 < delta <= 4000 -> t = ken_burns)
  /\ (4000 < delta -> t = loop)
  /\ (delta <= -500 -> t = trim).
Proof.
  unfold VideoManager.chosen, VideoManager.absLt, VideoManager.gt0, VideoManager.le, JS.gtb, JS.abs.
  rewrite !ltb_true, !ltb_false, !Qle_bool_iff, <- !not_true_iff_false, !Qle_bool_iff.
  rewrite Qabs_Qlt_condition.
  intros [(H1 & ->) | [(H1 & H2 & H3 & ->) | [(H1 & H2 & H3 & H4 & ->)
         | [(H1 & H2 & H3 & H4 & ->) | (H1 & H2 & ->)]]]];
    try apply abs_ge_cases in H1;
    repeat split; intros; try reflexivity; exfalso; lra.
Qed.

(** C2 (as the code has it). When the commands and the measurement succeed
    and the source clip exists, [adjustScene] returns, and with
    [delta = audioDurationMs - videoDurationMs] its [adjustmentType] is
    [none] when [|delta| < 500], [freeze] when [500 <= delta <= 2000],
    [ken_burns] when [2000 < delta <= 4000], [loop] when [delta > 4000] and
    [trim] when [delta <= -500].  In the [none] case without dubbing the
    output is a copy of the source clip, and [finalDurationMs] is the measured
    duration of that clip. *)
Theorem C2_adjustment_by_delta (scene : Scene) (w : World) (vp : string)
    (v din : Q) :
  (forall p, probeFails env p = false) ->
  videoPath scene = Some vp ->
  videoDurationMs scene = Some v ->
  files w !! VideoManager.public env vp = Some din ->
  let delta := audioDurationMs scene - v in
  exists r w',
    VideoManager.adjustScene env jobId scene w = (Ok r, w')
    /\ (Qabs delta < 500 ->
        r_adjustmentType r = none
        /\ (VideoManager.needsDubbing scene = false ->
            finalDurationMs r = JS.round (din * 1000)))
    /\ (500 <= delta <= 2000 -> r_adjustmentType r = freeze)
    /\ (2000 < delta <= 4000 -> r_adjustmentType r = ken_burns)
    /\ (4000 < delta -> r_adjustmentType r = loop)
    /\ (delta <= -500 -> r_adjustmentType r = trim).
Proof.
  intros Hprobe Hvp Hv Hin delta.
  unfold VideoManager.adjustScene. rewrite Hvp, Hv. cbn [fmap option_fmap option_map].
  fold delta.
  match goal with |- exists r w', ?m w = (Ok r, w') /\ @?post r w' =>
    change (returns m w post) end.
  assert (exists a, (if VideoManager.needsDubbing scene
                     then VideoManager.tempPath env jobId scene
                     else VideoManager.outputPath env jobId scene) = a +:+ ".mp4")
    as [a Ha]
    by (destruct (VideoManager.needsDubbing scene);
        [apply tempPath_ends_mp4 | apply outputPath_ends_mp4]).
  apply returns_bind.
  eapply returns_weaken;
    [apply (applyAdjustment_returns (Some delta) _ _ _ w din a Hin Ha) |].
  intros t w1 (Hch & d & Hd & Hnone). cbv beta.
  apply returns_bind.
  eapply returns_weaken; [apply (dubIfNeeded_returns scene w1 d Hd) |].
  intros _ w2 (d' & Hd' & Hnodub). cbv beta.
  apply returns_bind.
  eapply (returns_ffprobe env); [apply Hprobe | exact Hd' |].
  apply returns_ret. cbn [r_adjustmentType finalDurationMs].
  destruct (chosen_by_delta delta t Hch) as (C1 & C2 & C3 & C4 & C5).
  repeat split; auto.
  intros Hnd. rewrite (Hnodub Hnd), (Hnone (C1 H)). reflexivity.
Qed.

Lemma adjustOne_cases (scene : Scene) (w : World) :
  VideoManager.adjustOne env jobId scene w =
  if VideoManager.notAdjustable scene then (Ok scene, w)
  else match VideoManager.adjustScene env jobId scene w with
       | (Ok r, w') =>
           (Ok (with_adjustment scene (r_adjustmentType r) (adjustedPath r)), w')
       | (Throw msg, w') => (Ok (with_error scene ("보정 실패: " +:+ msg)), w')
       end.
Proof.
  unfold VideoManager.adjustOne. destruct (VideoManager.notAdjustable scene);
    [reflexivity |].
  unfold tryCatch, bind.
  by destruct (VideoManager.adjustScene env jobId scene w) as [[r | msg] w'].
Qed.

Lemma adjustLoop_adjusted (scenes : list Scene) :
  forall (acc : list Scene) (w : World),
    exists out w',
      VideoManager.adjustLoop env jobId scenes acc w = (Ok (acc ++ out), w')
      /\ VideoManager.adjusted env jobId w scenes out w'.
Proof.
  induction scenes as [| s scenes IH]; intros acc w; cbn [VideoManager.adjustLoop].
  - exists [], w. rewrite app_nil_r. split; [reflexivity | constructor].
  - unfold bind. rewrite adjustOne_cases.
    destruct (VideoManager.notAdjustable s) eqn:Hna.
    + destruct (IH (acc ++ [s]) w) as (out & w' & E & Hadj).
      exists (s :: out), w'. rewrite E, <- app_assoc.
      split; [reflexivity | by constructor].
    + destruct (VideoManager.adjustScene env jobId s w) as [[r | msg] w1] eqn:Es.
      * destruct (IH (acc ++ [with_adjustment s (r_adjustmentType r) (adjustedPath r)])
                    w1) as (out & w' & E & Hadj).
        exists (with_adjustment s (r_adjustmentType r) (adjustedPath r) :: out), w'.
        rewrite E, <- app_assoc.
        split; [reflexivity | by eapply VideoManager.adjusted_ok].
      * destruct (IH (acc ++ [with_error s ("보정 실패: " +:+ msg)]) w1)
          as (out & w' & E & Hadj).
        exists (with_error s ("보정 실패: " +:+ msg) :: out), w'.
        rewrite E, <- app_assoc.
        split; [reflexivity | by eapply VideoManager.adjusted_failed].
Qed.

Lemma adjusted_length (w w' : World) (scenes out : list Scene) :
  VideoManager.adjusted env jobId w scenes out w' -> length out = length scenes.
Proof. induction 1; cbn; congruence. Qed.

End AdjustFacts.

Section AdjustRuns.
Import Media Core.
Variable env : Env.
Variable jobId : string.

Lemma bind_ok_inv {A B} (m : M A) (k : A -> M B) w b w' :
  bind m k w = (Ok b, w') -> exists a w1, m w = (Ok a, w1) /\ k a w1 = (Ok b, w').
Proof. unfold bind. destruct (m w) as [[a | msg] w1]; [eauto | discriminate]. Qed.

(** Whatever [adjustScene] returns, its [finalDurationMs] is the length
    measured on the output file, not the length aimed at. *)
Lemma adjustScene_reports_measured (scene : Scene) (w : World)
    (r : VideoAdjustmentResult) (w' : World) :
  VideoManager.adjustScene env jobId scene w = (Ok r, w') ->
  exists d, files w' !! VideoManager.outputPath env jobId scene = Some d
            /\ finalDurationMs r = JS.round (d * 1000)
            /\ targetDurationMs r = audioDurationMs scene.
Proof.
  unfold VideoManager.adjustScene.
  destruct (videoPath scene) as [vp |]; [| discriminate].
  intros H. apply bind_ok_inv in H as (t & w1 & _ & H).
  apply bind_ok_inv in H as ([] & w2 & _ & H).
  apply bind_ok_inv in H as (stdout & w3 & Hprobe & H).
  injection H as <- <-. unfold ffprobe in Hprobe.
  destruct (probeFails env _); [discriminate |].
  destruct (files w2 !! VideoManager.outputPath env jobId scene) as [d |] eqn:E;
    [| discriminate].
  injection Hprobe as <- <-. exists d. by rewrite E.
Qed.

(** A scene that [adjustAllScenes] looks at has a clip, and the composer
    takes it with or without the error message. *)
Lemma adjustable_is_valid (scene : Scene) (msg : string) :
  VideoManager.notAdjustable scene = false ->
  videoStatus scene = VCompleted
  /\ TimelineComposer.isValid (with_error scene msg) = true.
Proof.
  unfold VideoManager.notAdjustable, TimelineComposer.isValid,
    TimelineComposer.sceneVideo.
  cbn [with_error videoStatus adjustedVideoPath videoPath].
  destruct (videoStatus scene); cbn; try discriminate.
  destruct (JS.truthy_opt (videoPath scene)) eqn:Hv; cbn; [| discriminate].
  intros _. split; [reflexivity |].
  destruct (JS.truthy_opt (adjustedVideoPath scene)) eqn:Ha; [exact Ha | exact Hv].
Qed.

Hypothesis others_run : forall c, Worlds.notDub c -> cmdFails env c = false.

Lemma applyAdjustment_runs (diff : option Q) (input target : string) (ms : Q)
    (w : World) (din : Q) (a : string) :
  files w !! input = Some din ->
  target = a +:+ ".mp4" ->
  returns (VideoManager.applyAdjustment env diff input target ms) w
    (fun t w1 =>
       VideoManager.chosen diff t
       /\ log w1 = log w ++ VideoManager.adjustmentCommands t input target ms
       /\ exists d, files w1 !! target = Some d
                    /\ (t = none -> d = din)
                    /\ (0 <= din -> t = freeze \/ t = ken_burns -> d == ms / 1000)).
Proof.
  intros Hin Htarget. unfold VideoManager.applyAdjustment, VideoManager.chosen.
  destruct (VideoManager.absLt diff 500) eqn:E1;
    [| destruct (VideoManager.gt0 diff) eqn:E2;
       [destruct (VideoManager.le diff 2000) eqn:E3;
        [| destruct (VideoManager.le diff 4000) eqn:E4] |]].
  - apply returns_bind. eapply (returns_exec env); [by apply others_run | |].
    { cbn [run]. unfold write1. by rewrite Hin. }
    apply returns_ret. split; [tauto |]. split; [reflexivity |]. eexists.
    split; [apply lookup_insert_eq |]. split; [done |]. intros _ [|]; discriminate.
  - apply returns_bind. eapply (returns_exec env); [by apply others_run | |].
    { cbn [run]. unfold write1. by rewrite Hin. }
    apply returns_ret. split; [tauto |]. split; [reflexivity |]. eexists.
    split; [apply lookup_insert_eq |]. split; [discriminate |].
    intros Hpos _. apply Q.min_l. lra.
  - apply returns_bind. unfold VideoManager.applyKenBurns.
    apply returns_bind. eapply (returns_exec env); [by apply others_run | |].
    { cbn [run]. unfold write1. by rewrite Hin. }
    apply returns_bind. eapply (returns_exec env); [by apply others_run | |].
    { cbn [run files]. unfold write1. by rewrite lookup_insert_eq. }
    apply returns_tryCatch_ok. eapply (returns_exec env); [by apply others_run | |].
    { cbn [run files]. rewrite lookup_insert_ne; [by rewrite lookup_insert_eq |].
      rewrite Htarget. intros E. symmetry in E. revert E.
      apply replaceFirst_mp4_neq. cbn. lia. }
    apply returns_ret. split; [tauto |]. cbn [files log].
    split; [by rewrite <- !app_assoc |]. eexists. split; [| split; [discriminate |]].
    + rewrite lookup_delete_ne; [apply lookup_insert_eq |].
      rewrite Htarget. apply replaceFirst_mp4_neq. cbn. lia.
    + intros Hpos _. apply Q.min_l. apply Q.min_glb; lra.
  - apply returns_bind. eapply (returns_exec env); [by apply others_run | |].
    { cbn [run]. unfold write1. by rewrite Hin. }
    apply returns_ret. split; [tauto |]. split; [reflexivity |]. eexists.
    split; [apply lookup_insert_eq |]. split; [discriminate |].
    intros _ [|]; discriminate.
  - apply returns_bind. eapply (returns_exec env); [by apply others_run | |].
    { cbn [run]. unfold write1. by rewrite Hin. }
    apply returns_ret. split; [tauto |]. split; [reflexivity |]. eexists.
    split; [apply lookup_insert_eq |]. split; [discriminate |].
    intros _ [|]; discriminate.
Qed.

(** The dubbing command fails: the corrected clip is copied to the output
    without the narration, and [adjustScene] measures that copy. *)
Lemma adjustScene_dub_fails (scene : Scene) (w : World) (vp : string) (v din : Q) :
  (forall video audio out, cmdFails env (Dub video audio out) = true) ->
  probeFails env (VideoManager.outputPath env jobId scene) = false ->
  VideoManager.needsDubbing scene = true ->
  videoPath scene = Some vp ->
  videoDurationMs scene = Some v ->
  files w !! VideoManager.public env vp = Some din ->
  exists r w',
    VideoManager.adjustScene env jobId scene w = (Ok r, w')
    /\ exists d,
      log w' = log w ++
        VideoManager.adjustmentCommands (r_adjustmentType r)
          (VideoManager.public env vp) (VideoManager.tempPath env jobId scene)
          (audioDurationMs scene)
        ++ [CopyFile (VideoManager.tempPath env jobId scene)
                     (VideoManager.outputPath env jobId scene);
            Unlink (VideoManager.tempPath env jobId scene)]
      /\ files w' !! VideoManager.outputPath env jobId scene = Some d
      /\ finalDurationMs r = JS.round (d * 1000)
      /\ targetDurationMs r = audioDurationMs scene
      /\ (r_adjustmentType r = none -> d = din).
Proof.
  intros Hdub Hprobe Hnd Hvp Hv Hin.
  unfold VideoManager.adjustScene. rewrite Hvp, Hv, Hnd.
  cbn [fmap option_fmap option_map].
  match goal with |- exists r w', ?m w = (Ok r, w') /\ @?post r w' =>
    change (returns m w post) end.
  destruct (tempPath_ends_mp4 env jobId scene) as [a Ha].
  apply returns_bind.
  eapply returns_weaken; [apply (applyAdjustment_runs _ _ _ _ w din a Hin Ha) |].
  intros t w1 (_ & Hlog1 & d & Hd & Hnone & _). cbv beta.
  apply returns_bind. unfold VideoManager.dubIfNeeded. rewrite Hnd.
  apply returns_bind. unfold VideoManager.addAudioToVideo.
  apply returns_tryCatch.
  { intros [] w2 He. unfold exec in He. by rewrite Hdub in He. }
  intros msg w2 He. unfold exec in He. rewrite Hdub in He. injection He as _ <-.
  eapply (returns_exec env); [by apply others_run | |].
  { cbn [run]. unfold write1. by rewrite Hd. }
  apply returns_tryCatch_ok. eapply (returns_exec env); [by apply others_run | |].
  { cbn [run files].
    rewrite lookup_insert_ne by apply tempPath_not_outputPath. by rewrite Hd. }
  apply returns_bind. eapply (returns_ffprobe env); [exact Hprobe | |].
  { cbn [files].
    rewrite lookup_delete_ne by apply not_eq_sym, tempPath_not_outputPath.
    apply lookup_insert_eq. }
  apply returns_ret. exists d.
  cbn [r_adjustmentType finalDurationMs targetDurationMs files log].
  split; [by rewrite Hlog1, <- !app_assoc |].
  split; [| done].
  rewrite lookup_delete_ne by apply not_eq_sym, tempPath_not_outputPath.
  apply lookup_insert_eq.
Qed.

End AdjustRuns.

Section AdjustClaims.
Import Media Core.
Variable env : Env.
Variable jobId : string.

(** C7. A failure inside [adjustScene] does not leave [adjustAllScenes]:
    once the output directory is made the call returns one scene per input
    scene, pushed turn by turn as the loop has it: a scene that is not a
    completed video as it is, a scene whose [adjustScene] returned adjusted,
    and a scene whose [adjustScene] threw with only the error message
    added.  Such a scene is still Completed, with its source clip and the
    measured duration of that clip, and the composer takes it with the clip
    it had.  Whatever [adjustScene] returns, its [finalDurationMs] is the
    duration measured on the output file, the target aside.  When the
    dubbing command fails and nothing else does, [addAudioToVideo] copies
    the corrected clip to the output as it is and [adjustScene] still
    returns, reporting the measured duration of that copy. *)
Theorem C7_failed_adjustment_falls_back (scenes : list Scene) (w : World) :
  cmdFails env (Mkdir (VideoManager.outputDir env jobId)) = false ->
  (exists out w',
     VideoManager.adjustAllScenes env jobId scenes w = (Ok out, w')
     /\ VideoManager.adjusted env jobId
          {| files := files w;
             log := log w ++ [Mkdir (VideoManager.outputDir env jobId)] |}
          scenes out w'
     /\ length out = length scenes)
  /\ (forall scene error,
        VideoManager.notAdjustable scene = false ->
        let pushed := with_error scene ("보정 실패: " +:+ error) in
        videoStatus pushed = VCompleted
        /\ videoPath pushed = videoPath scene
        /\ videoDurationMs pushed = videoDurationMs scene
        /\ TimelineComposer.sceneVideo pushed = TimelineComposer.sceneVideo scene
        /\ TimelineComposer.isValid pushed = true)
  /\ (forall scene w0 r w1,
        VideoManager.adjustScene env jobId scene w0 = (Ok r, w1) ->
        exists d,
          files w1 !! VideoManager.outputPath env jobId scene = Some d
          /\ finalDurationMs r = JS.round (d * 1000)
          /\ targetDurationMs r = audioDurationMs scene)
  /\ (forall scene w0 vp v din,
        (forall c, Worlds.notDub c -> cmdFails env c = false) ->
        (forall video audio out, cmdFails env (Dub video audio out) = true) ->
        probeFails env (VideoManager.outputPath env jobId scene) = false ->
        VideoManager.needsDubbing scene = true ->
        videoPath scene = Some vp ->
        videoDurationMs scene = Some v ->
        files w0 !! VideoManager.public env vp = Some din ->
        exists r w1 d,
          VideoManager.adjustScene env jobId scene w0 = (Ok r, w1)
          /\ log w1 = log w0 ++
               VideoManager.adjustmentCommands (r_adjustmentType r)
                 (VideoManager.public env vp) (VideoManager.tempPath env jobId scene)
                 (audioDurationMs scene)
               ++ [CopyFile (VideoManager.tempPath env jobId scene)
                            (VideoManager.outputPath env jobId scene);
                   Unlink (VideoManager.tempPath env jobId scene)]
          /\ files w1 !! VideoManager.outputPath env jobId scene = Some d
          /\ finalDurationMs r = JS.round (d * 1000)
          /\ targetDurationMs r = audioDurationMs scene
          /\ (r_adjustmentType r = none -> d = din)).
Proof.
  intros Hmkdir. split; [| split; [| split]].
  - unfold VideoManager.adjustAllScenes, bind, exec. rewrite Hmkdir. cbn [run].
    destruct (adjustLoop_adjusted env jobId scenes [] {| files := files w;
                log := log w ++ [Mkdir (VideoManager.outputDir env jobId)] |})
      as (out & w' & E & Hadj).
    exists out, w'. split; [exact E |]. split; [exact Hadj |].
    exact (adjusted_length _ _ _ _ _ _ Hadj).
  - intros scene error Hna pushed.
    destruct (adjustable_is_valid scene ("보정 실패: " +:+ error) Hna) as [Hst Hvalid].
    split; [exact Hst |]. repeat split. exact Hvalid.
  - intros scene w0 r w1. apply adjustScene_reports_measured.
  - intros scene w0 vp v din Hothers Hdub Hprobe Hnd Hvp Hv Hin.
    destruct (adjustScene_dub_fails env jobId Hothers scene w0 vp v din Hdub Hprobe
                Hnd Hvp Hv Hin) as (r & w1 & Hrun & d & Hrest).
    by exists r, w1, d.
Qed.

End AdjustClaims.

Section AdjustExamples.
Import Media Core.

(** A clip of 5000 ms under a narration of 6200 ms is frozen. *)
Lemma C2_witness :
  let scene := VideoManager.exampleScene 6200 5000 None in
  let delta := audioDurationMs scene - 5000 in
  exists r w',
    VideoManager.adjustScene env_fine "job1" scene VideoManager.sceneFiles = (Ok r, w')
    /\ (Qabs delta < 500 ->
        r_adjustmentType r = none
        /\ (VideoManager.needsDubbing scene = false ->
            finalDurationMs r = JS.round (5 * 1000)))
    /\ (500 <= delta <= 2000 -> r_adjustmentType r = freeze)
    /\ (2000 < delta <= 4000 -> r_adjustmentType r = ken_burns)
    /\ (4000 < delta -> r_adjustmentType r = loop)
    /\ (delta <= -500 -> r_adjustmentType r = trim).
Proof.
  apply (C2_adjustment_by_delta env_fine "job1" (fun _ => eq_refl)
           (VideoManager.exampleScene 6200 5000 None) VideoManager.sceneFiles
           "/videos/jobs/job1/scene_01.mp4" 5000 5).
  - reflexivity.
  - reflexivity.
  - reflexivity.
  - vm_compute. reflexivity.
Defined.

(** C2 (counterexample). A clip 300 ms shorter than its narration is copied
    as it is, not frozen; and a clip of 5000 ms dubbed with a narration of
    4800 ms is not corrected, yet comes out 4800 ms long. *)
Lemma C2_counterexample :
  (exists r w',
     VideoManager.adjustScene env_fine "job1"
       (VideoManager.exampleScene 5300 5000 None) VideoManager.sceneFiles = (Ok r, w')
     /\ 0 < 5300 - 5000 <= 2000
     /\ r_adjustmentType r = none
     /\ r_adjustmentType r <> freeze)
  /\ (exists r w',
        VideoManager.adjustScene env_fine "job1"
          (VideoManager.exampleScene 4800 5000 (Some "/audio/jobs/job1/scene_01.mp3"))
          VideoManager.sceneFiles = (Ok r, w')
        /\ Qabs (4800 - 5000) < 500
        /\ r_adjustmentType r = none
        /\ originalDurationMs r = Some 5000
        /\ finalDurationMs r = 4800%Z).
Proof.
  split.
  - destruct (VideoManager.adjustScene env_fine "job1"
                (VideoManager.exampleScene 5300 5000 None) VideoManager.sceneFiles)
      as [[r | msg] w'] eqn:E; vm_compute in E; [| discriminate].
    injection E as <- <-. eexists _, _. split; [reflexivity |].
    split; [split; [reflexivity | discriminate] |]. split; [reflexivity | discriminate].
  - destruct (VideoManager.adjustScene env_fine "job1"
                (VideoManager.exampleScene 4800 5000
                   (Some "/audio/jobs/job1/scene_01.mp3")) VideoManager.sceneFiles)
      as [[r | msg] w'] eqn:E; vm_compute in E; [| discriminate].
    injection E as <- <-. eexists _, _. split; [reflexivity |].
    repeat split.
Qed.

(** A clip longer than its narration when the trimming command fails: one
    scene comes back.  And a clip of 5 seconds whose narration of 4.8 seconds
    cannot be dubbed in: the clip is copied as it is. *)
Lemma C7_witness :
  let trimmed := VideoManager.exampleScene 3000 5000 None in
  let dubbed :=
    VideoManager.exampleScene 4800 5000 (Some "/audio/jobs/job1/scene_01.mp3") in
  (exists out w',
     VideoManager.adjustAllScenes VideoManager.env_notrim "job1" [trimmed]
       VideoManager.sceneFiles = (Ok out, w')
     /\ VideoManager.adjusted VideoManager.env_notrim "job1"
          {| files := files VideoManager.sceneFiles;
             log := [Mkdir (VideoManager.outputDir VideoManager.env_notrim "job1")] |}
          [trimmed] out w'
     /\ length out = 1%nat)
  /\ (exists r w1 d,
        VideoManager.adjustScene VideoManager.env_nodub "job1" dubbed
          VideoManager.sceneFiles = (Ok r, w1)
        /\ log w1 =
             VideoManager.adjustmentCommands (r_adjustmentType r)
               "/app/public/videos/jobs/job1/scene_01.mp4"
               (VideoManager.tempPath VideoManager.env_nodub "job1" dubbed) 4800
             ++ [CopyFile (VideoManager.tempPath VideoManager.env_nodub "job1" dubbed)
                          (VideoManager.outputPath VideoManager.env_nodub "job1" dubbed);
                 Unlink (VideoManager.tempPath VideoManager.env_nodub "job1" dubbed)]
        /\ files w1 !! VideoManager.outputPath VideoManager.env_nodub "job1" dubbed
           = Some d
        /\ finalDurationMs r = JS.round (d * 1000)
        /\ targetDurationMs r = 4800
        /\ (r_adjustmentType r = none -> d = 5)).
Proof.
  intros trimmed dubbed. split.
  - apply (proj1 (C7_failed_adjustment_falls_back VideoManager.env_notrim "job1"
                    [trimmed] VideoManager.sceneFiles eq_refl)).
  - destruct (C7_failed_adjustment_falls_back VideoManager.env_nodub "job1"
                [dubbed] VideoManager.sceneFiles eq_refl) as (_ & _ & _ & Hdub).
    apply (Hdub dubbed VideoManager.sceneFiles "/videos/jobs/job1/scene_01.mp4"
                5000 5).
    + intros c Hc. destruct c; try reflexivity. destruct Hc.
    + reflexivity.
    + reflexivity.
    + reflexivity.
    + reflexivity.
    + reflexivity.
    + vm_compute. reflexivity.
Defined.

(** The scene whose trimming failed comes back with the error message, still
    Completed; the scene whose dubbing failed comes back from [adjustScene]
    with the 5000 ms of the copied clip, not the 4800 ms aimed at. *)
Lemma adjust_fallback_example :
  (VideoManager.adjustAllScenes VideoManager.env_notrim "job1"
     [VideoManager.exampleScene 3000 5000 None] VideoManager.sceneFiles).1
  = Ok [with_error (VideoManager.exampleScene 3000 5000 None)
          "보정 실패: command failed"]
  /\ exists r w1,
       VideoManager.adjustScene VideoManager.env_nodub "job1"
         (VideoManager.exampleScene 4800 5000 (Some "/audio/jobs/job1/scene_01.mp3"))
         VideoManager.sceneFiles = (Ok r, w1)
       /\ r_adjustmentType r = none
       /\ finalDurationMs r = 5000%Z
       /\ targetDurationMs r = 4800
       /\ log w1 =
            [CopyFile "/app/public/videos/jobs/job1/scene_01.mp4"
                      "/app/public/videos/jobs/job1/adjusted/scene_01_temp.mp4";
             CopyFile "/app/public/videos/jobs/job1/adjusted/scene_01_temp.mp4"
                      "/app/public/videos/jobs/job1/adjusted/scene_01_adjusted.mp4";
             Unlink "/app/public/videos/jobs/job1/adjusted/scene_01_temp.mp4"].
Proof.
  split; [vm_compute; reflexivity |].
  destruct (VideoManager.adjustScene VideoManager.env_nodub "job1"
              (VideoManager.exampleScene 4800 5000
                 (Some "/audio/jobs/job1/scene_01.mp3")) VideoManager.sceneFiles)
    as [[r | msg] w1] eqn:E; vm_compute in E; [| discriminate].
  injection E as <- <-. eexists _, _. split; [reflexivity |]. repeat split.
Qed.

End AdjustExamples.


(* ===================================================================== *)
(* ===================================================================== *)
(** * Further properties *)
(* ===================================================================== *)
(* ===================================================================== *)

(** ** Sentences *)

Section SentenceFacts.
Import Segmenter Sentences.

Lemma nonSpace_app (a b : jsstring) : nonSpace (a ++ b) = nonSpace a ++ nonSpace b.
Proof. apply List.filter_app. Qed.

Lemma nonSpace_rev (a : jsstring) : nonSpace (rev a) = rev (nonSpace a).
Proof.
  induction a as [| c a IH]; [reflexivity |]. cbn [rev].
  rewrite nonSpace_app, IH. unfold nonSpace at 2 3. cbn [List.filter].
  destruct (negb (is_space c)); cbn [rev]; [reflexivity | by rewrite app_nil_r].
Qed.

Lemma nonSpace_trimStart (a : jsstring) : nonSpace (trimStart a) = nonSpace a.
Proof.
  induction a as [| c a IH]; [reflexivity |]. cbn [trimStart].
  destruct (is_space c) eqn:E; [| reflexivity].
  rewrite IH. unfold nonSpace. cbn [List.filter]. by rewrite E.
Qed.

Lemma nonSpace_trim (a : jsstring) : nonSpace (trim a) = nonSpace a.
Proof.
  unfold trim. by rewrite nonSpace_rev, nonSpace_trimStart, nonSpace_rev,
    rev_involutive, nonSpace_trimStart.
Qed.

Lemma split_go_keeps (s : jsstring) :
  forall cur pt sk,
    (sk = true -> cur = []) ->
    nonSpace (concat (split_go cur pt sk s)) = nonSpace (rev cur ++ s).
Proof.
  induction s as [| c s IH]; intros cur pt sk Hsk; cbn [split_go].
  - cbn. by rewrite app_nil_r.
  - assert (nonSpace (concat (if is_space c then split_go [] false true s
                              else split_go [c] (is_term c) false s))
            = nonSpace (c :: s)) as Hcut.
    { destruct (is_space c) eqn:E.
      - rewrite IH by done. cbn. unfold nonSpace. cbn [List.filter]. by rewrite E.
      - rewrite IH by done. reflexivity. }
    destruct sk.
    + rewrite (Hsk eq_refl). exact Hcut.
    + destruct pt.
      * cbn [concat]. rewrite !nonSpace_app. by rewrite Hcut.
      * rewrite IH by done. cbn [rev]. by rewrite <- app_assoc.
Qed.

Lemma sentences_keep (pieces : list jsstring) :
  nonSpace (concat (filter (fun s => (0 < length s)%nat) (map trim pieces)))
  = nonSpace (concat pieces).
Proof.
  induction pieces as [| p pieces IH]; [reflexivity |].
  cbn [map concat]. rewrite filter_cons, nonSpace_app, <- IH, <- (nonSpace_trim p).
  destruct (decide (0 < length (trim p))%nat) as [H | H].
  - cbn [concat]. by rewrite nonSpace_app.
  - destruct (trim p); [reflexivity | cbn in H; lia].
Qed.

(** X1. Splitting into sentences only drops white space: the code units of
    the sentences that are not white space are, in order, those of the
    script. *)
Theorem X1_sentences_keep_the_text (script : jsstring) :
  nonSpace (concat (splitIntoSentences script)) = nonSpace script.
Proof.
  unfold splitIntoSentences. rewrite sentences_keep.
  unfold split. by rewrite split_go_keeps.
Qed.

Lemma trimStart_head (a : jsstring) (c : N) :
  head (trimStart a) = Some c -> is_space c = false.
Proof.
  induction a as [| x a IH]; [done |]. cbn [trimStart].
  destruct (is_space x) eqn:E; [exact IH |]. by intros [= <-].
Qed.

Lemma trimStart_suffix (a : jsstring) : exists pre, a = pre ++ trimStart a.
Proof.
  induction a as [| x a [pre IH]]; [by exists [] |]. cbn [trimStart].
  destruct (is_space x); [| by exists []].
  exists (x :: pre). cbn. by rewrite <- IH.
Qed.

Lemma last_rev_head {A} (l : list A) : last (rev l) = head l.
Proof. destruct l as [| x l]; [reflexivity |]. cbn [rev]. by rewrite last_snoc. Qed.

Lemma head_rev_last {A} (l : list A) : head (rev l) = last l.
Proof. by rewrite <- last_rev_head, rev_involutive. Qed.

Lemma trim_trimmed (a : jsstring) : trim a <> [] -> trimmed (trim a).
Proof.
  intros Hne. split; [exact Hne |]. unfold trim in *. split.
  - intros c. rewrite head_rev_last.
    destruct (trimStart_suffix (rev (trimStart a))) as [pre E].
    destruct (trimStart (rev (trimStart a))) as [| y u] eqn:Eu; [done |].
    intros Hlast.
    assert (last (rev (trimStart a)) = Some c) as Hl
      by (rewrite E, last_app; by rewrite Hlast).
    rewrite last_rev_head in Hl. by apply trimStart_head in Hl.
  - intros c. rewrite last_rev_head. apply trimStart_head.
Qed.

Lemma removelast_rev {A} (r : list A) : removelast (rev r) = rev (tail r).
Proof. destruct r as [| x r]; [reflexivity |]. cbn [rev tail]. apply removelast_last. Qed.

Lemma ends_rev (x : jsstring) :
  endsItsSentence x <-> Forall (fun c => is_term c = false) (tail (rev x)).
Proof.
  unfold endsItsSentence. rewrite <- (rev_involutive x) at 1.
  rewrite removelast_rev. split; intros H.
  - apply Forall_rev in H. by rewrite rev_involutive in H.
  - by apply Forall_rev.
Qed.

Lemma ends_cons (c : N) (x : jsstring) : endsItsSentence (c :: x) -> endsItsSentence x.
Proof.
  unfold endsItsSentence. destruct x as [| y x]; [constructor |].
  change (removelast (c :: y :: x)) with (c :: removelast (y :: x)).
  by inversion 1.
Qed.

Lemma ends_trimStart (x : jsstring) : endsItsSentence x -> endsItsSentence (trimStart x).
Proof.
  induction x as [| c x IH]; [done |]. cbn [trimStart].
  destruct (is_space c); [| done]. intros H. apply IH. by apply ends_cons in H.
Qed.

Lemma tail_trimStart (r : jsstring) :
  Forall (fun c => is_term c = false) (tail r) ->
  Forall (fun c => is_term c = false) (tail (trimStart r)).
Proof.
  induction r as [| c r IH]; [done |]. cbn [trimStart tail].
  destruct (is_space c); [| done]. intros H. apply IH.
  destruct r; [constructor | by inversion H].
Qed.

Lemma ends_trim (x : jsstring) : endsItsSentence x -> endsItsSentence (trim x).
Proof.
  intros H. unfold trim. apply ends_rev. rewrite rev_involutive.
  apply tail_trimStart. apply ends_rev. by apply ends_trimStart.
Qed.

Lemma split_go_ends (s : jsstring) :
  forall cur pt sk,
    Forall (fun c => is_term c = false) (tail cur) ->
    (pt = false -> Forall (fun c => is_term c = false) cur) ->
    Forall endsItsSentence (split_go cur pt sk s).
Proof.
  induction s as [| c s IH]; intros cur pt sk Htail Hpt; cbn [split_go].
  - constructor; [| constructor]. apply ends_rev. by rewrite rev_involutive.
  - assert (Forall endsItsSentence
              (if is_space c then split_go [] false true s
               else split_go [c] (is_term c) false s)) as Hcut.
    { destruct (is_space c); apply IH; cbn [tail];
        first [by constructor | intros E; repeat (constructor; try exact E)]. }
    destruct sk; [exact Hcut |]. destruct pt.
    + constructor; [| exact Hcut]. apply ends_rev. by rewrite rev_involutive.
    + apply IH; [by apply Hpt |]. intros E. constructor; [exact E | by apply Hpt].
Qed.

Lemma sentences_trimmed (pieces : list jsstring) :
  Forall trimmed (filter (fun s => (0 < length s)%nat) (map trim pieces)).
Proof.
  induction pieces as [| p pieces IH]; [constructor |].
  cbn [map]. rewrite filter_cons.
  destruct (decide (0 < length (trim p))%nat) as [H | H]; [| exact IH].
  constructor; [| exact IH].
  apply trim_trimmed. destruct (trim p); [cbn in H; lia | done].
Qed.

(** X2. Every sentence is non-empty, has no white space at either end, and
    holds no terminator before its last code unit: the script is cut after
    every terminator, followed by white space or not. *)
Theorem X2_sentences_are_trimmed (script : jsstring) :
  Forall (fun s => trimmed s /\ endsItsSentence s) (splitIntoSentences script).
Proof.
  unfold splitIntoSentences.
  pose proof (split_go_ends script [] false false ltac:(constructor)
                ltac:(constructor)) as Hends. fold (split script) in Hends.
  induction (split script) as [| p pieces IH]; [constructor |].
  inversion_clear Hends as [| ? ? Hp Hrest]. cbn [map]. rewrite filter_cons.
  destruct (decide (0 < length (trim p))%nat) as [H | H]; [| by apply IH].
  constructor; [| by apply IH]. split; [| by apply ends_trim].
  apply trim_trimmed. destruct (trim p); [cbn in H; lia | done].
Qed.

(** X3. A script has no sentence exactly when it is empty or white space
    only, and then [splitScriptWithDurations] returns no section, whatever
    the durations asked for. *)
Theorem X3_blank_script_has_no_section (script : jsstring) :
  (splitIntoSentences script = [] <-> Forall (fun c => is_space c = true) script)
  /\ (forall D target mn mx,
        Forall (fun c => is_space c = true) script ->
        splitScriptWithDurations script D target mn mx = []).
Proof.
  assert (forall s, nonSpace s = [] <-> Forall (fun c => is_space c = true) s) as Hblank.
  { induction s as [| c s IH]; [split; [constructor | done] |].
    unfold nonSpace in *. cbn [List.filter]. destruct (is_space c) eqn:E; cbn.
    - rewrite IH. split; [by constructor | by inversion 1].
    - split; [done |]. inversion 1. congruence. }
  assert (splitIntoSentences script = []
          <-> Forall (fun c => is_space c = true) script) as Hiff.
  { rewrite <- Hblank.
    assert (nonSpace (concat (splitIntoSentences script)) = nonSpace script) as <-
      by (unfold splitIntoSentences, split;
          by rewrite sentences_keep, split_go_keeps).
    split.
    - by intros ->.
    - intros Hns. pose proof (sentences_trimmed (split script)) as Htr.
      fold (splitIntoSentences script) in Htr.
      destruct (splitIntoSentences script) as [| s rest]; [done |].
      inversion_clear Htr as [| ? ? (Hne & Hhead & _) _].
      destruct s as [| c s]; [done |].
      cbn [concat app] in Hns. unfold nonSpace in Hns. cbn [List.filter] in Hns.
      rewrite (Hhead c eq_refl) in Hns. done. }
  split; [exact Hiff |].
  intros D target mn mx Hsp. apply Hiff in Hsp.
  unfold splitScriptWithDurations, rawSections. by rewrite Hsp.
Qed.

Lemma join_cons (x : jsstring) (rest : list jsstring) :
  rest <> [] -> join (x :: rest) = x ++ 32%N :: join rest.
Proof. destruct rest; [done | reflexivity]. Qed.

Lemma join_app (a b : list jsstring) :
  a <> [] -> b <> [] -> join (a ++ b) = join a ++ 32%N :: join b.
Proof.
  intros Ha Hb. induction a as [| x a IH]; [done |].
  destruct a as [| y a].
  - cbn [app]. by rewrite join_cons.
  - change ((x :: y :: a) ++ b) with (x :: ((y :: a) ++ b)).
    rewrite join_cons by done. rewrite IH by done.
    rewrite (join_cons x (y :: a)) by done. by rewrite <- app_assoc.
Qed.

Lemma buildSections_texts cps target mn mx (sentences : list jsstring) :
  forall cur d,
    sentences <> [] ->
    join (map text (buildSections cps target mn mx sentences cur d))
    = join (cur ++ sentences).
Proof.
  induction sentences as [| s rest IH]; intros cur d Hne; [done |].
  cbn [buildSections]. destruct rest as [| s' rest'].
  - rewrite orb_true_r. reflexivity.
  - rewrite orb_false_r.
    destruct (JS.gtb _ _ && negb (length cur =? 0)%nat) eqn:E.
    + apply andb_true_iff in E as [_ Hcur].
      assert (cur <> []) as Hcur' by (by destruct cur).
      cbn [map]. rewrite join_cons
        by (intros E; apply map_eq_nil in E; revert E;
            by apply buildSections_nonempty).
      rewrite IH by done. cbn [app]. by rewrite join_app.
    + rewrite IH by done. by rewrite <- app_assoc.
Qed.

Lemma buildSections_length cps target mn mx (sentences : list jsstring) :
  forall cur d,
    (length (buildSections cps target mn mx sentences cur d) <= length sentences)%nat.
Proof.
  induction sentences as [| s rest IH]; intros cur d; [done |].
  cbn [buildSections].
  match goal with |- context [if ?b then _ :: _ else _] => destruct b end.
  - cbn [length]. destruct rest; [cbn; lia |]. specialize (IH [s] (len s / cps)). lia.
  - specialize (IH (cur ++ [s]) (d + len s / cps)). cbn [length]. lia.
Qed.

(** X4. The sections carry the sentences, whole and in order: their texts
    joined by spaces are the sentences joined by spaces, and there are at
    most as many sections as sentences. *)
Theorem X4_sections_carry_the_sentences (script : jsstring) (D target mn mx : Q) :
  let out := splitScriptWithDurations script D target mn mx in
  join (map text out) = join (splitIntoSentences script)
  /\ (length out <= length (splitIntoSentences script))%nat.
Proof.
  cbv zeta. unfold splitScriptWithDurations, rawSections.
  rewrite length_map, <- list_fmap_compose.
  split; [| apply buildSections_length].
  destruct (splitIntoSentences script) as [| s rest] eqn:E; [reflexivity |].
  change (join (map text (buildSections (len script / D) target mn mx (s :: rest)
                            [] 0)) = join ([] ++ s :: rest)).
  by apply buildSections_texts.
Qed.

Lemma Qle_bool_compat (a b c d : Q) : a == c -> b == d -> Qle_bool a b = Qle_bool c d.
Proof.
  intros E1 E2. apply eq_true_iff_eq. rewrite !Qle_bool_iff, E1, E2. reflexivity.
Qed.

Lemma clamp_compat (lo hi x y : Q) : x == y -> JS.clamp lo hi x == JS.clamp lo hi y.
Proof.
  intros E. unfold JS.clamp, JS.gtb, JS.ltb.
  rewrite (Qle_bool_compat lo x lo y) by (reflexivity || exact E).
  destruct (Qle_bool lo y); cbn [negb].
  - rewrite (Qle_bool_compat x hi y hi) by (reflexivity || exact E).
    destruct (Qle_bool y hi); cbn [negb]; [exact E | reflexivity].
  - destruct (Qle_bool lo hi); reflexivity.
Qed.

Lemma round1_compat (x y : Q) : x == y -> JS.round1 x == JS.round1 y.
Proof.
  intros E. unfold JS.round1, JS.round.
  rewrite (Qfloor_comp (x * 10 + (1 # 2)) (y * 10 + (1 # 2))) by (by rewrite E).
  reflexivity.
Qed.

(** X5. A script of one sentence is one section that carries the sentence,
    however long the sentence is; its duration lies within the limits and
    is the audio duration clamped into the limits, to the nearest tenth:
    within 0.06 second of it (0.05 for the rounding to a tenth, the rest
    for the rounding of the division and the product before it). *)
Theorem X5_one_sentence_one_section (script s : jsstring) (D target mn mx : Q) :
  splitIntoSentences script = [s] ->
  0 < mn -> mn <= mx -> tenths mn -> tenths mx ->
  exists d,
    splitScriptWithDurations script D target mn mx = [{| text := s; duration := d |}]
    /\ mn <= d <= mx
    /\ Qabs (d - JS.clamp mn mx D) <= 3 # 50.
Proof.
  intros Hs Hmn Hle Tmn Tmx.
  unfold splitScriptWithDurations, rawSections. rewrite Hs.
  cbn [buildSections]. rewrite orb_true_r. cbn [app join map rescale text duration].
  set (r := JS.round1 (JS.clamp mn mx (0 + len s / (len script / D)))).
  eexists. split; [reflexivity |].
  assert (mn <= r) as Hr by (apply round1_clamp_range; assumption).
  split; [by apply round1_clamp_range |].
  assert (JS.round1 (JS.clamp mn mx (r * scaleFactor D [{| text := s; duration := r |}]))
          == JS.round1 (JS.clamp mn mx D)) as ->.
  { apply round1_compat, clamp_compat.
    unfold scaleFactor, totalDuration. cbn [fold_left duration]. field. lra. }
  eapply Qle_trans; [apply round1_error | discriminate].
Qed.

End SentenceFacts.

Section SentenceExamples.
Import Segmenter Sentences.

(** One sentence spoken in 64 seconds under the limits 4 and 10. *)
Lemma X5_witness :
  exists d,
    splitScriptWithDurations (ofString "Welcome.") 64 8 4 10
    = [{| text := ofString "Welcome."; duration := d |}]
    /\ 4 <= d <= 10
    /\ Qabs (d - JS.clamp 4 10 64) <= 3 # 50.
Proof.
  apply (X5_one_sentence_one_section (ofString "Welcome.") (ofString "Welcome.")).
  - reflexivity.
  - reflexivity.
  - discriminate.
  - exists 40%Z. reflexivity.
  - exists 100%Z. reflexivity.
Defined.

End SentenceExamples.
(** ** The steps of a job *)

Section WorkflowSteps.
Import Steps Workflow.

Lemma updateStep_absent steps a u :
  a ∉ map id steps -> updateStep steps a u = steps.
Proof.
  intros Hn. unfold updateStep. induction steps as [| s steps IH]; [reflexivity |].
  cbn in *. apply not_elem_of_cons in Hn as [H1 H2].
  destruct (String.eqb_spec (id s) a); [congruence |]. by rewrite IH.
Qed.

(** X6. When the ids of the steps are distinct, [updateStep] with the id of
    the step at position [i] replaces that one entry by the step spread with
    the updates, and touches no other. *)
Theorem X6_updateStep_replaces_one_step (steps : list MultiClipStep) (i : nat)
    (step : MultiClipStep) (updates : StepUpdate) :
  NoDup (map id steps) ->
  steps !! i = Some step ->
  updateStep steps (id step) updates = <[i := spread step updates]> steps.
Proof.
  revert i. induction steps as [| s steps IH]; intros i Hnd Hi; [done |].
  cbn in Hnd. apply NoDup_cons in Hnd as [Hs Hnd].
  destruct i as [| i]; cbn in Hi.
  - injection Hi as ->. cbn. rewrite String.eqb_refl. f_equal.
    by apply updateStep_absent.
  - cbn. destruct (String.eqb_spec (id s) (id step)) as [E | E].
    + exfalso. apply Hs. rewrite E. apply list_elem_of_fmap.
      exists step. split; [reflexivity |]. by eapply list_elem_of_lookup_2.
    + f_equal. by apply IH.
Qed.

(** X7. Updates of two different steps that leave the ids alone can be made
    in either order. *)
Theorem X7_updates_of_different_steps_commute (steps : list MultiClipStep)
    (a b : string) (u v : StepUpdate) :
  a <> b -> u_id u = None -> u_id v = None ->
  updateStep (updateStep steps a u) b v = updateStep (updateStep steps b v) a u.
Proof.
  intros Hab Hu Hv. unfold updateStep. rewrite <- !list_fmap_compose.
  apply list_fmap_ext. intros i step _. cbn.
  destruct (String.eqb_spec (id step) a) as [Ea | Ea];
    destruct (String.eqb_spec (id step) b) as [Eb | Eb]; try congruence.
  - cbn. rewrite Hu. cbn. destruct (String.eqb_spec (id step) b); [congruence |].
    destruct (String.eqb_spec (id step) a); [| congruence]. reflexivity.
  - cbn. rewrite Hv. cbn. destruct (String.eqb_spec (id step) a); [congruence |].
    destruct (String.eqb_spec (id step) b); [| congruence]. reflexivity.
  - destruct (String.eqb_spec (id step) a); [congruence |].
    destruct (String.eqb_spec (id step) b); [congruence |]. reflexivity.
Qed.

End WorkflowSteps.

Section WorkflowStepsExamples.
Import Steps Workflow.

(** The second of the six steps is started. *)
Lemma X6_witness :
  updateStep initializeSteps "tts" (started "2025-01-01T00:00:00.000Z")
  = <[1%nat := spread (pendingStep "tts" "🎤 음성(TTS) 생성")
                      (started "2025-01-01T00:00:00.000Z")]> initializeSteps.
Proof.
  apply (X6_updateStep_replaces_one_step initializeSteps 1
           (pendingStep "tts" "🎤 음성(TTS) 생성")).
  - apply (bool_decide_unpack _). vm_compute. exact I.
  - reflexivity.
Defined.

(** Finishing the render step and starting the merge step, in either order. *)
Lemma X7_witness :
  updateStep (updateStep initializeSteps "render" (finished "t1"))
             "merge" (started "t1")
  = updateStep (updateStep initializeSteps "merge" (started "t1"))
               "render" (finished "t1").
Proof.
  apply (X7_updates_of_different_steps_commute initializeSteps "render" "merge").
  - discriminate.
  - reflexivity.
  - reflexivity.
Defined.

End WorkflowStepsExamples.
(** ** One tick of polling, clip by clip *)

Section TickFacts.
Import Orchestrator Workflow.
Variable env : Env.

Lemma sameRequest_refl c : sameRequest c c.
Proof. by repeat split. Qed.

(** What the loop body does to the clip at its own position. *)
Lemma pollClip_step job i c st done rest :
  updatedClips st = done ++ c :: rest -> length done = i ->
  exists c' n,
    updatedClips (pollClip env job i c st) = done ++ c' :: rest
    /\ pendingCount (counts (pollClip env job i c st))
       = (pendingCount (counts st) + n)%nat
    /\ sameRequest c c'
    /\ (c' = c
        \/ (settled c = false /\ status c' = Completed
            /\ exists url, videoUrl c' = Some url)
        \/ (settled c = false /\ status c' = Failed /\ videoUrl c' = videoUrl c))
    /\ (settled c' = true -> n = 0%nat)
    /\ (n = 0%nat -> pollable c = true -> settled c' = true)
    /\ (settled c = false -> JS.truthy_opt (jobId c) = true ->
        attemptThrows env job i c -> c' = c /\ n = 1%nat).
Proof.
  intros Hu Hl.
  assert (forall x, <[i := x]> (updatedClips st) = done ++ x :: rest) as Hins.
  { intros x. rewrite Hu, insert_app_r_alt by lia.
    replace (i - length done)%nat with 0%nat by lia. reflexivity. }
  unfold pollClip, attemptThrows, pollable. cbv zeta.
  change (Status_eqb (status c) Completed || Status_eqb (status c) Failed)
    with (settled c).
  destruct (settled c) eqn:Hs.
  { exists c, 0%nat. cbn [updatedClips counts].
    split; [exact Hu |]. split; [destruct (Status_eqb _ _); cbn; lia |].
    split; [apply sameRequest_refl |]. split; [by left |].
    repeat split; try done. }
  destruct (JS.truthy_opt (jobId c)) eqn:Hj; cbn [negb orb].
  2:{ exists c, 0%nat. cbn [updatedClips counts bump_failed pendingCount].
      split; [exact Hu |]. split; [lia |].
      split; [apply sameRequest_refl |]. split; [by left |].
      repeat split; try done; try (by rewrite Hs). }
  assert (forall k ev,
    exists c' n,
      updatedClips {| updatedClips := updatedClips st;
                      counts := bump_pending (counts st); events := ev |}
      = done ++ c' :: rest
      /\ pendingCount (bump_pending k) = (pendingCount k + n)%nat
      /\ sameRequest c c'
      /\ (c' = c
          \/ (false = false /\ status c' = Completed
              /\ exists url, videoUrl c' = Some url)
          \/ (false = false /\ status c' = Failed /\ videoUrl c' = videoUrl c))
      /\ (settled c' = true -> n = 0%nat)
      /\ (n = 0%nat -> true = true -> settled c' = true)
      /\ c' = c /\ n = 1%nat) as Hwait.
  { intros k ev. exists c, 1%nat. cbn [updatedClips bump_pending pendingCount].
    split; [exact Hu |]. split; [lia |].
    split; [apply sameRequest_refl |]. split; [by left |].
    repeat split; try done; try (by rewrite Hs). }
  destruct (poll env (default "" (jobId c))) as [res | msg] eqn:Hp.
  2:{ destruct (Hwait (counts st) (events st ++ [Polled i (default "" (jobId c))]))
        as (c' & n & H1 & H2 & H3 & H4 & H5 & H6 & H7).
      exists c', n. cbn [counts]. repeat split; try tauto; apply H3. }
  destruct (Status_eqb (r_status res) Completed && JS.truthy_opt (r_videoUrl res))
    eqn:Hc.
  - destruct (downloadFile env (default "" (r_videoUrl res))) as [buf | msg] eqn:Hd.
    2:{ destruct (Hwait (counts st) (events st ++ [Polled i (default "" (jobId c))]))
          as (c' & n & H1 & H2 & H3 & H4 & H5 & H6 & H7).
        exists c', n. cbn [counts]. repeat split; try tauto; apply H3. }
    destruct (saveVideo env job (S i) buf) as [saved | msg] eqn:Hsv.
    2:{ destruct (Hwait (counts st)
                    ((events st ++ [Polled i (default "" (jobId c))])
                       ++ [Downloaded i (default "" (r_videoUrl res))]))
          as (c' & n & H1 & H2 & H3 & H4 & H5 & H6 & H7).
        exists c', n. cbn [counts]. repeat split; try tauto; apply H3. }
    exists (with_video c saved), 0%nat.
    cbn [updatedClips counts bump_completed pendingCount].
    split; [apply Hins |]. split; [lia |]. split; [by repeat split |].
    split; [right; left; repeat split; by eexists |].
    split; [done |]. split; [done |]. intros _ _ [_ Ha]. destruct Ha.
  - destruct (Status_eqb (r_status res) Failed) eqn:Hf.
    + exists (with_status c Failed), 0%nat.
      cbn [updatedClips counts bump_failed pendingCount].
      split; [apply Hins |]. split; [lia |]. split; [by repeat split |].
      split; [right; right; by repeat split |].
      split; [done |]. split; [done |]. intros _ _ [Ha _]. discriminate Ha.
    + destruct (Hwait (counts st) (events st ++ [Polled i (default "" (jobId c))]))
        as (c' & n & H1 & H2 & H3 & H4 & H5 & H6 & H7).
      exists c', n. cbn [counts]. repeat split; try tauto; apply H3.
Qed.

Lemma pollLoop_tick job rest :
  forall i done st,
    updatedClips st = done ++ rest -> length done = i ->
    exists rest' n,
      updatedClips (pollLoop env job rest i st) = done ++ rest'
      /\ pendingCount (counts (pollLoop env job rest i st))
         = (pendingCount (counts st) + n)%nat
      /\ Forall2 polledTo rest rest'
      /\ (Forall (fun c => settled c = true) rest' -> n = 0%nat)
      /\ (n = 0%nat -> Forall (fun c => pollable c = true) rest ->
          Forall (fun c => settled c = true) rest')
      /\ (forall (j : nat) (c : ClipInfo),
            rest !! j = Some c -> settled c = false ->
            JS.truthy_opt (jobId c) = true ->
            attemptThrows env job (i + j) c ->
            rest' !! j = Some c /\ (1 <= n)%nat).
Proof.
  induction rest as [| c rest IH]; intros i done st Hu Hl.
  - exists [], 0%nat. cbn. repeat split; try done; try lia; try constructor.
  - cbn [pollLoop].
    destruct (pollClip_step job i c st done rest Hu Hl)
      as (c' & n1 & H1 & H2 & H3 & H4 & H5 & H6 & H7).
    destruct (IH (S i) (done ++ [c']) (pollClip env job i c st))
      as (rest' & n2 & G1 & G2 & G3 & G4 & G5 & G6).
    { by rewrite H1, <- app_assoc. }
    { rewrite length_app. cbn. lia. }
    exists (c' :: rest'), (n1 + n2)%nat.
    split; [by rewrite G1, <- app_assoc |].
    split; [rewrite G2, H2; lia |].
    split; [constructor; [by split | exact G3] |].
    split; [| split].
    + intros Hall. inversion_clear Hall as [| ? ? Ha Hb].
      rewrite (H5 Ha), (G4 Hb). reflexivity.
    + intros Hn Hall. inversion_clear Hall as [| ? ? Ha Hb].
      constructor; [apply H6; [lia | exact Ha] | apply G5; [lia | exact Hb]].
    + intros [| j] d Hj Hs Ht Ha.
      * cbn in Hj. injection Hj as <-. rewrite Nat.add_0_r in Ha.
        destruct (H7 Hs Ht Ha) as [-> ->]. split; [reflexivity | lia].
      * cbn in Hj. replace (i + S j)%nat with (S i + j)%nat in Ha by lia.
        destruct (G6 j d Hj Hs Ht Ha) as [E1 E2]. split; [exact E1 | lia].
Qed.

Lemma tick_spec (cs : list ClipInfo) (job : string) :
  exists n,
    Forall2 polledTo cs (clips (checkAndDownloadClips env cs job))
    /\ allCompleted (checkAndDownloadClips env cs job) = (n =? 0)%nat
    /\ (Forall (fun c => settled c = true) (clips (checkAndDownloadClips env cs job))
        -> n = 0%nat)
    /\ (n = 0%nat -> Forall (fun c => pollable c = true) cs ->
        Forall (fun c => settled c = true) (clips (checkAndDownloadClips env cs job)))
    /\ (forall (j : nat) (c : ClipInfo),
          cs !! j = Some c -> settled c = false ->
          JS.truthy_opt (jobId c) = true ->
          attemptThrows env job j c ->
          clips (checkAndDownloadClips env cs job) !! j = Some c /\ (1 <= n)%nat).
Proof.
  unfold checkAndDownloadClips. cbn [clips allCompleted].
  match goal with |- context [pollLoop env job cs 0 ?st] =>
    destruct (pollLoop_tick job cs 0 [] st eq_refl eq_refl)
      as (rest' & n & G1 & G2 & G3 & G4 & G5 & G6) end.
  exists n. rewrite G1, G2. cbn [app pendingCount counts Nat.add].
  repeat split; try assumption; apply (G6 j c); assumption.
Qed.

(** X9. A tick of [checkAndDownloadClips] returns as many clips as it was
    given, each in its place; it never changes the index, the script
    section, the prompt, the duration, the job id or the audio URL of a
    clip, and a clip it does change was neither Completed nor Failed before
    and is now Completed with a stored video URL, or Failed. *)
Theorem X9_tick_changes_status_only (cs : list ClipInfo) (job : string) :
  Forall2 polledTo cs (clips (checkAndDownloadClips env cs job)).
Proof. destruct (tick_spec cs job) as (n & H & _). exact H. Qed.

(** X10. When every clip given to a tick is Completed, Failed, or waiting on
    a job id, the tick reports [allCompleted] exactly when every clip it
    returns is Completed or Failed. *)
Theorem X10_allCompleted_means_all_settled (cs : list ClipInfo) (job : string) :
  Forall (fun c => pollable c = true) cs ->
  allCompleted (checkAndDownloadClips env cs job) = true
  <-> Forall (fun c => settled c = true) (clips (checkAndDownloadClips env cs job)).
Proof.
  intros Hp. destruct (tick_spec cs job) as (n & _ & E & H1 & H2 & _).
  rewrite E. split.
  - intros Hn. apply Nat.eqb_eq in Hn. by apply H2.
  - intros Hall. apply Nat.eqb_eq. by apply H1.
Qed.

(** X11. A clip that waits on its job and whose poll does not get the video
    onto the disk - the status call throws, or the download or the save of
    the finished video throws - is returned as it was, and the tick does
    not report [allCompleted]: the error costs one tick, not the clip. *)
Theorem X11_a_throwing_poll_keeps_the_clip (cs : list ClipInfo) (job : string)
    (i : nat) (c : ClipInfo) :
  cs !! i = Some c ->
  settled c = false ->
  JS.truthy_opt (jobId c) = true ->
  attemptThrows env job i c ->
  clips (checkAndDownloadClips env cs job) !! i = Some c
  /\ allCompleted (checkAndDownloadClips env cs job) = false.
Proof.
  intros Hi Hs Ht Ha. destruct (tick_spec cs job) as (n & _ & E & _ & _ & H).
  destruct (H i c Hi Hs Ht Ha) as [H1 H2]. split; [exact H1 |].
  rewrite E. apply Nat.eqb_neq. lia.
Qed.

End TickFacts.

Section TickExamples.
Import Orchestrator Workflow.

(** A clip waiting on a Veo job, with every vendor call succeeding. *)
Lemma X10_witness :
  allCompleted (checkAndDownloadClips env_up [requestedClip 0 "A." 8 "veo|op1"] "job1")
  = true
  <-> Forall (fun c => settled c = true)
        (clips (checkAndDownloadClips env_up [requestedClip 0 "A." 8 "veo|op1"] "job1")).
Proof.
  apply (X10_allCompleted_means_all_settled env_up
           [requestedClip 0 "A." 8 "veo|op1"] "job1").
  repeat constructor.
Defined.

(** The same clip with every vendor call throwing. *)
Lemma X11_witness :
  clips (checkAndDownloadClips env_down [requestedClip 0 "A." 8 "veo|op1"] "job1")
    !! 0%nat
  = Some (requestedClip 0 "A." 8 "veo|op1")
  /\ allCompleted
       (checkAndDownloadClips env_down [requestedClip 0 "A." 8 "veo|op1"] "job1")
     = false.
Proof.
  apply (X11_a_throwing_poll_keeps_the_clip env_down
           [requestedClip 0 "A." 8 "veo|op1"] "job1" 0
           (requestedClip 0 "A." 8 "veo|op1")).
  - reflexivity.
  - reflexivity.
  - reflexivity.
  - exact I.
Defined.

End TickExamples.
(** ** The prompts of the clips *)

Section PromptFacts.
Import Orchestrator Workflow.
Variable generateVideoPrompts : PromptRequest -> Result (list string).

Lemma promptFor_truthy topic category total i clip lastPrompt :
  JS.truthy (promptFor generateVideoPrompts topic category total i clip lastPrompt)
  = true.
Proof.
  unfold promptFor. destruct (generateVideoPrompts _) as [[| p prompts] | msg].
  - reflexivity.
  - destruct (JS.truthy p) eqn:E; [exact E | reflexivity].
  - reflexivity.
Qed.

Lemma promptLoop_spec topic category total rest :
  forall (i : nat) (done : list ClipInfo) (lastPrompt : string) (given : list string),
    length done = i ->
    exists rest' gs,
      promptLoop generateVideoPrompts topic category total rest i (done ++ rest)
                 lastPrompt given
      = (done ++ rest', given ++ gs)
      /\ length rest' = length rest
      /\ forall (j : nat) (c : ClipInfo),
           rest !! j = Some c ->
           exists prev,
             gs !! j = Some prev
             /\ rest' !! j
                = Some (with_prompt c
                          (promptFor generateVideoPrompts topic category total
                                     (i + j) c prev))
             /\ prev = match j with
                       | O => lastPrompt
                       | S j' => default "" (prompt <$> rest' !! j')
                       end.
Proof.
  induction rest as [| c rest IH]; intros i done lastPrompt given Hl.
  - exists [], []. cbn. rewrite !app_nil_r. repeat split; done.
  - cbn [promptLoop]. cbv zeta.
    set (cur := promptFor generateVideoPrompts topic category total i c lastPrompt).
    rewrite insert_app_r_alt by lia.
    replace (i - length done)%nat with 0%nat by lia. cbn [insert list_insert].
    rewrite (cons_middle (with_prompt c cur) done rest), app_assoc.
    destruct (IH (S i) (done ++ [with_prompt c cur]) cur (given ++ [lastPrompt]))
      as (rest' & gs & E & Hlen & Hj).
    { rewrite length_app. cbn. lia. }
    exists (with_prompt c cur :: rest'), (lastPrompt :: gs).
    split; [by rewrite E, <- !app_assoc |].
    split; [cbn; by rewrite Hlen |].
    intros [| j] d Hd.
    + cbn in Hd. injection Hd as <-. exists lastPrompt.
      rewrite Nat.add_0_r. by repeat split.
    + cbn in Hd. destruct (Hj j d Hd) as (prev & G1 & G2 & G3).
      exists prev. replace (i + S j)%nat with (S i + j)%nat by lia.
      split; [exact G1 |]. split; [exact G2 |].
      rewrite G3. by destruct j.
Qed.

(** X14. [generateClipPrompts] returns every clip in its place with nothing
    but the prompt replaced, and the prompt is never empty: it is the first
    answer of the model, or a text made from the script section when the
    model gives none, an empty one, or throws.  The model is asked once per
    clip, the first time with no previous prompt and then with the prompt
    just stored for the clip before. *)
Theorem X14_every_clip_gets_a_prompt (clips : list ClipInfo) (topic : string)
    (category : option string) :
  let out := generateClipPrompts generateVideoPrompts clips topic category in
  length out.1 = length clips
  /\ forall (i : nat) (c : ClipInfo),
       clips !! i = Some c ->
       exists prev,
         out.2 !! i = Some prev
         /\ out.1 !! i
            = Some (with_prompt c
                      (promptFor generateVideoPrompts topic category
                                 (length clips) i c prev))
         /\ JS.truthy (promptFor generateVideoPrompts topic category
                                 (length clips) i c prev) = true
         /\ prev = match i with
                   | O => ""
                   | S j => default "" (prompt <$> out.1 !! j)
                   end.
Proof.
  cbv zeta. unfold generateClipPrompts.
  destruct (promptLoop_spec topic category (length clips) clips 0 [] "" [] eq_refl)
    as (rest' & gs & E & Hlen & Hj).
  cbn [app] in E. rewrite E. cbn [fst snd]. split; [exact Hlen |].
  intros i c Hi. destruct (Hj i c Hi) as (prev & G1 & G2 & G3).
  exists prev. cbn [Nat.add] in G2.
  split; [exact G1 |]. split; [exact G2 |].
  split; [apply promptFor_truthy | exact G3].
Qed.

Lemma generateClipPrompts_frame clips topic category :
  Forall2 (fun c c' => exists p, c' = with_prompt c p) clips
          (generateClipPrompts generateVideoPrompts clips topic category).1.
Proof.
  unfold generateClipPrompts.
  destruct (promptLoop_spec topic category (length clips) clips 0 [] "" [] eq_refl)
    as (rest' & gs & E & Hlen & Hj).
  cbn [app] in E. rewrite E. cbn [fst].
  apply Forall2_same_length_lookup. split; [by rewrite Hlen |].
  intros i c c' Hc Hc'. destruct (Hj i c Hc) as (prev & _ & G2 & _).
  rewrite G2 in Hc'. injection Hc' as <-. by eexists.
Qed.

End PromptFacts.

Section PromptExamples.
Import Orchestrator Workflow.

(** A Korean section of 120 syllables when the model has no answer: the
    prompt holds the first 100 syllables, 100 code units of three bytes
    each; when the model throws, the prompt of the [catch] holds all 120,
    under its limit of 200.  A cut inside a surrogate pair keeps the first
    half of the pair. *)
Lemma fallback_prompt_example :
  let section := Segmenter.repeatString "가" 120 in
  let clip := freshClip 0 section 8 in
  (generateClipPrompts (fun _ => Ok []) [clip] "tea" None).1
  = [with_prompt clip ("Scene 1: " +:+ Segmenter.repeatString "가" 100)]
  /\ (generateClipPrompts (fun _ => Throw "quota") [clip] "tea" None).1
     = [with_prompt clip (BASE_VISUAL_STYLE +:+ nl +:+ nl +:+ "Scene 1 of 1:"
                          +:+ nl +:+ "Content: " +:+ section)]
  /\ JS.substring 3 "가나다라" = "가나다"
  /\ JS.substring 3 "a😀b" = "a😀"
  /\ String.length (JS.substring 2 "a😀b") = 4%nat.
Proof. repeat split; vm_compute; reflexivity. Qed.

End PromptExamples.
(** ** From the sections to the merge: the clips keep their places *)

Section PipelineFacts.
Import Orchestrator Workflow.
Variable env : Env.
Variable str : Segmenter.jsstring -> string.
Variable generateVideoPrompts : PromptRequest -> Result (list string).

Lemma initializeClipsFromSections_indexed sections :
  indexed (initializeClipsFromSections str sections).
Proof.
  intros i c. unfold initializeClipsFromSections. rewrite list_lookup_imap.
  destruct (sections !! i); [| done]. cbn. by intros [= <-].
Qed.

Lemma initializeClips_indexed scriptSections clipDuration :
  indexed (initializeClips scriptSections clipDuration).
Proof.
  intros i c. unfold initializeClips. rewrite list_lookup_imap.
  destruct (scriptSections !! i); [| done]. cbn. by intros [= <-].
Qed.

Lemma requestOne_index provider model c :
  index (requestOne env provider model c) = index c.
Proof. unfold requestOne. by destruct (submit env _). Qed.

Lemma requestClipVideos_indexed cs provider model :
  indexed cs -> indexed (requestClipVideos env cs provider model).1.
Proof.
  intros Hcs i c. rewrite requestClipVideos_spec. cbn [fst].
  rewrite list_lookup_fmap. destruct (cs !! i) as [c0 |] eqn:E; [| done].
  cbn. intros [= <-]. rewrite requestOne_index. by apply Hcs.
Qed.

Lemma generateClipPrompts_indexed cs topic category :
  indexed cs ->
  indexed (generateClipPrompts generateVideoPrompts cs topic category).1.
Proof.
  intros Hcs i c' Hi.
  pose proof (generateClipPrompts_frame generateVideoPrompts cs topic category) as H.
  destruct (Forall2_lookup_r _ _ _ _ _ H Hi) as (c & Hc & p & ->).
  cbn. by apply Hcs.
Qed.

Lemma generateClipPrompts_durations cs topic category :
  map duration (generateClipPrompts generateVideoPrompts cs topic category).1
  = map duration cs.
Proof.
  pose proof (generateClipPrompts_frame generateVideoPrompts cs topic category) as H.
  induction H as [| c c' l l' [p ->] _ IH]; [reflexivity |].
  cbn. by rewrite IH.
Qed.

Lemma tick_indexed cs job :
  indexed cs -> indexed (clips (checkAndDownloadClips env cs job)).
Proof.
  intros Hcs i c' Hi.
  destruct (tick_spec env cs job) as (n & H & _).
  destruct (Forall2_lookup_r _ _ _ _ _ H Hi) as (c & Hc & [Hsame _]).
  destruct Hsame as [-> _]. by apply Hcs.
Qed.

Lemma filter_sorted_from (p : ClipInfo -> bool) (cs : list ClipInfo) :
  forall k : nat,
    (forall (i : nat) (c : ClipInfo), cs !! i = Some c -> index c = Z.of_nat (k + i)) ->
    StronglySorted (keyLe index) (List.filter p cs).
Proof.
  induction cs as [| x cs IH]; intros k Hk; [constructor |].
  assert (StronglySorted (keyLe index) (List.filter p cs)) as Hrest.
  { apply (IH (S k)). intros i c Hi. rewrite (Hk (S i) c Hi). f_equal. lia. }
  cbn [List.filter]. destruct (p x); [| exact Hrest].
  constructor; [exact Hrest |].
  apply List.Forall_forall. intros y Hy. apply filter_In in Hy as [Hy _].
  apply list_elem_of_In, list_elem_of_lookup_1 in Hy as [j Hj].
  unfold keyLe. rewrite (Hk 0%nat x eq_refl), (Hk (S j) y Hj). lia.
Qed.

Lemma indexed_merge_order (cs : list ClipInfo) :
  indexed cs -> MultiClip.completedClips cs = List.filter MultiClip.isCompleted cs.
Proof.
  intros Hcs. unfold MultiClip.completedClips. apply sortBy_id.
  apply (filter_sorted_from _ cs 0). exact Hcs.
Qed.

(** X12. The clips made from the sections carry their positions as their
    indices; writing the prompts, submitting the requests and polling keep
    it so; and of such clips [mergeClipsIntoVideo] takes the completed ones in the order of the
    array, the sort by index changing nothing. *)
Theorem X12_clips_keep_their_places (sections : list Segmenter.ScriptSection)
    (scriptSections : list string) (clipDuration : option Q) :
  indexed (initializeClipsFromSections str sections)
  /\ indexed (initializeClips scriptSections clipDuration)
  /\ forall cs : list ClipInfo,
       indexed cs ->
       (forall topic category,
          indexed (generateClipPrompts generateVideoPrompts cs topic category).1)
       /\ (forall provider model, indexed (requestClipVideos env cs provider model).1)
       /\ (forall job, indexed (clips (checkAndDownloadClips env cs job)))
       /\ MultiClip.completedClips cs = List.filter MultiClip.isCompleted cs.
Proof.
  split; [apply initializeClipsFromSections_indexed |].
  split; [apply initializeClips_indexed |].
  intros cs Hcs. split; [| split; [| split]].
  - intros topic category. by apply generateClipPrompts_indexed.
  - intros provider model. by apply requestClipVideos_indexed.
  - intros job. by apply tick_indexed.
  - by apply indexed_merge_order.
Qed.

Lemma split_durations_in_range script D target mn mx :
  mn <= mx -> Segmenter.tenths mn -> Segmenter.tenths mx ->
  Forall (fun s => mn <= Segmenter.duration s <= mx)
         (Segmenter.splitScriptWithDurations script D target mn mx).
Proof.
  intros Hle Hmn Hmx. unfold Segmenter.splitScriptWithDurations.
  apply Forall_fmap, Forall_true. intros s.
  cbn [Segmenter.rescale Segmenter.duration compose]. by apply round1_clamp_range.
Qed.

Lemma veo_in_range_unchanged (d : Q) :
  4 <= d <= 8 ->
  (if JS.gtb (if JS.ltb d 4 then 4 else d) 8 then 8
   else if JS.ltb d 4 then 4 else d) = d.
Proof.
  intros [H1 H2]. unfold JS.gtb.
  apply ltb_false in H1. rewrite H1. apply ltb_false in H2. by rewrite H2.
Qed.

Lemma requestOne_duration_veo model c :
  4 <= duration c <= 8 ->
  duration (requestOne env Veo model c) = duration c
  /\ rq_duration (buildRequest Veo model c) = duration c.
Proof.
  intros Hc. unfold requestOne, buildRequest. cbn [rq_duration].
  split; [| by apply veo_in_range_unchanged].
  destruct (submit env _); cbn; [| reflexivity]. by apply veo_in_range_unchanged.
Qed.

(** X13. On the Veo path the script is split with the limits 4 and 8, so
    the clamp of [requestClipVideos] has nothing left to do: after the
    clips are made from the sections and given their prompts, every request
    carries the duration of its section, and every returned clip, submitted
    or failed, still has it. *)
Theorem X13_veo_requests_the_section_durations (script : Segmenter.jsstring)
    (audioDuration : Q) (topic : string) (category : option string)
    (model : string) :
  let sections := Segmenter.splitScriptWithDurations script audioDuration 8 4 8 in
  let clips := (generateClipPrompts generateVideoPrompts
                  (initializeClipsFromSections str sections) topic category).1 in
  let out := requestClipVideos env clips Veo model in
  map duration out.1 = map Segmenter.duration sections
  /\ map (fun e => match e with
                   | Submitted rq => Some (rq_provider rq, rq_duration rq)
                   | _ => None
                   end) out.2
     = map (fun s => Some (Veo, Segmenter.duration s)) sections.
Proof.
  cbv zeta. rewrite requestClipVideos_spec. cbn [fst snd].
  assert (Forall (fun s => 4 <= Segmenter.duration s <= 8)
            (Segmenter.splitScriptWithDurations script audioDuration 8 4 8)) as Hr.
  { apply split_durations_in_range.
    - discriminate.
    - exists 40%Z. reflexivity.
    - exists 80%Z. reflexivity. }
  revert Hr. generalize (Segmenter.splitScriptWithDurations script audioDuration 8 4 8).
  intros sections Hr.
  assert (map duration (initializeClipsFromSections str sections)
          = map Segmenter.duration sections) as Hinit.
  { unfold initializeClipsFromSections. rewrite fmap_imap.
    apply list_eq. intros i. rewrite list_lookup_imap, list_lookup_fmap.
    by destruct (sections !! i). }
  pose proof (generateClipPrompts_durations
                (initializeClipsFromSections str sections) topic category) as Hd.
  rewrite Hinit in Hd. revert Hd.
  generalize (generateClipPrompts generateVideoPrompts
                (initializeClipsFromSections str sections) topic category).1.
  intros clips Hd.
  rewrite <- (List.map_map Segmenter.duration (fun d => Some (Veo, d)) sections).
  rewrite <- Hd.
  assert (Forall (fun c => 4 <= duration c <= 8) clips) as Hc.
  { apply (proj1 (List.Forall_map duration (fun d => 4 <= d <= 8) clips)).
    rewrite Hd. apply List.Forall_map. exact Hr. }
  clear Hd Hr. rewrite !List.map_map.
  induction Hc as [| c clips Hc _ IH]; [done |].
  destruct IH as [IH1 IH2].
  destruct (requestOne_duration_veo model c Hc) as [E1 E2].
  split.
  - cbn [List.map]. rewrite E1. f_equal. exact IH1.
  - cbn [List.map]. rewrite E2. f_equal. exact IH2.
Qed.

End PipelineFacts.
(** ** The vendors *)

Section VendorFacts.
Import Orchestrator Vendors.
Variables (cfg : Config) (veo : VeoApi).
Variable fetch : HiggsfieldCall -> Result (Response HiggsfieldStatus).

Lemma truthy_app_l (a b : string) : JS.truthy a = true -> JS.truthy (a +:+ b) = true.
Proof. destruct a; [discriminate | reflexivity]. Qed.

Lemma truthy_opt_some (o : option string) :
  JS.truthy_opt o = true -> exists s, o = Some s /\ JS.truthy s = true.
Proof. destruct o as [s |]; [| discriminate]. intros H. by exists s. Qed.

Lemma getVeoVideoResult_url job res :
  getVeoVideoResult cfg veo job = Ok res ->
  (v_status res = Completed <-> JS.truthy_opt (v_videoUrl res) = true).
Proof.
  unfold getVeoVideoResult.
  destruct (JS.truthy_opt (GOOGLE_AI_API_KEY cfg)); cbn [negb]; [| discriminate].
  destruct (getOperation veo _) as [response | msg]; [| discriminate].
  destruct (ok response); cbn [negb]; [| discriminate].
  destruct (op_error (data response)); [intros [= <-]; by cbn |].
  destruct (op_done (data response)); [| intros [= <-]; by cbn].
  destruct (JS.truthy_opt (op_uri (data response))) eqn:E; [| intros [= <-]; by cbn].
  apply truthy_opt_some in E as (uri & -> & Huri). cbn [default].
  intros [= <-]. cbn [v_status v_videoUrl JS.truthy_opt].
  split; [intros _ | done].
  destruct (includes questionMark uri); by apply truthy_app_l.
Qed.

Lemma getHiggsfieldVideoResult_url job res :
  getHiggsfieldVideoResult cfg fetch job = Ok res ->
  (v_status res = Completed <-> JS.truthy_opt (v_videoUrl res) = true).
Proof.
  unfold getHiggsfieldVideoResult.
  destruct (getAuthHeaders cfg) as [headers | msg]; [| discriminate].
  destruct (fetch _) as [response | msg]; [| discriminate].
  destruct (ok response); cbn [negb]; [| discriminate]. cbv zeta.
  destruct (isOneOf _ ["completed"; "done"; "success"]).
  - destruct (JS.truthy_opt (orElse _ _)) eqn:E; intros [= <-]; by cbn.
  - destruct (isOneOf _ ["failed"; "error"; "cancelled"]); intros [= <-]; cbn;
      [done |]. by destruct (isOneOf _ _).
Qed.

(** X15. Whatever either vendor answers, a result that [getVeoVideoResult]
    or [getHiggsfieldVideoResult] resolves to is Completed exactly when it
    carries a video URL that is not empty: a finished job without a URL is
    reported Failed, never Completed. *)
Theorem X15_completed_means_a_video_url (job : string) (res : VendorResult) :
  getVeoVideoResult cfg veo job = Ok res
  \/ getHiggsfieldVideoResult cfg fetch job = Ok res ->
  (v_status res = Completed <-> JS.truthy_opt (v_videoUrl res) = true).
Proof.
  intros [H | H];
    [by apply (getVeoVideoResult_url job) | by apply (getHiggsfieldVideoResult_url job)].
Qed.

Lemma stripPrefix_app (p s : string) : stripPrefix p (p +:+ s) = s.
Proof.
  unfold stripPrefix.
  assert (JS.startsWith p (p +:+ s) = true) as ->.
  { induction p as [| a p IH]; [reflexivity |].
    rewrite append_cons. cbn. by rewrite Ascii.eqb_refl. }
  induction p as [| a p IH]; [reflexivity |]. rewrite append_cons. exact IH.
Qed.

Lemma stripPrefix_absent (p s : string) :
  JS.startsWith p s = false -> stripPrefix p s = s.
Proof. unfold stripPrefix. by intros ->. Qed.

Variable storage : Env.

(** X16. A job is polled at the vendor it was submitted to, under the name
    the vendor gave it: the id of a Veo job is [veo|] and the operation
    name, the id of a Higgsfield job is [higgsfield|] and the request id;
    [checkAndDownloadClips] sends the first to [getVeoVideoResult] and the
    second to [getHiggsfieldVideoResult]; the Higgsfield status call asks
    for the request id as it was returned, and the Veo status call for the
    operation name as it was returned unless that name begins with
    [veo-]. *)
Theorem X16_a_job_is_polled_where_it_was_submitted (rq : VideoRequest)
    (job : string) :
  submit (Vendors.env cfg veo fetch storage) rq = Ok job ->
  match rq_provider rq with
  | Veo =>
      exists name,
        job = "veo|" +:+ name
        /\ poll (Vendors.env cfg veo fetch storage) job
           = seen (getVeoVideoResult cfg veo job)
        /\ (JS.startsWith "veo-" name = false -> operationPath job = name)
  | Higgsfield =>
      exists requestId,
        job = "higgsfield|" +:+ requestId
        /\ poll (Vendors.env cfg veo fetch storage) job
           = seen (getHiggsfieldVideoResult cfg fetch job)
        /\ requestIdOf job = requestId
  end.
Proof.
  unfold submit, poll. destruct (rq_provider rq); cbn [Vendors.env
    Orchestrator.requestVeoVideo Orchestrator.requestHiggsfieldVideo
    Orchestrator.getVeoVideoResult Orchestrator.getHiggsfieldVideoResult].
  - unfold requestHiggsfieldVideo.
    destruct (getAuthHeaders cfg) as [headers | msg]; [| discriminate].
    destruct (fetch _) as [response | msg]; [| discriminate].
    destruct (ok response); cbn [negb]; [| discriminate].
    destruct (JS.truthy_opt _); cbn [negb]; [| discriminate].
    intros [= <-]. eexists. split; [reflexivity |].
    split; [reflexivity |]. unfold requestIdOf. apply stripPrefix_app.
  - unfold requestVeoVideo.
    destruct (JS.truthy_opt (GOOGLE_AI_API_KEY cfg)); cbn [negb]; [| discriminate].
    destruct (predictLongRunning veo _ _) as [response | msg]; [| discriminate].
    destruct (ok response); cbn [negb]; [| discriminate].
    destruct (JS.truthy_opt _); cbn [negb]; [| discriminate].
    intros [= <-]. eexists. split; [reflexivity |].
    split; [reflexivity |]. intros Hn. unfold operationPath.
    rewrite stripPrefix_app. by apply stripPrefix_absent.
Qed.

Lemma isHiggsfieldModel_paths (model : string) :
  isHiggsfieldModel model = true ->
  JS.truthy model = true
  /\ MODEL_PATHS model = Some "bytedance/seedance/v1/pro/text-to-video"
  /\ MODEL_RESOLUTION_FORMAT model = Some "720".
Proof.
  unfold isHiggsfieldModel, MODEL_PATHS, MODEL_RESOLUTION_FORMAT.
  destruct (String.eqb_spec model "veo-3.1") as [-> | _]; [done |].
  destruct (String.eqb_spec model "sora-2") as [-> | _]; [done |].
  destruct (String.eqb_spec model "kling-2.6") as [-> | _]; [done |].
  destruct (String.eqb_spec model "wan-2.6") as [-> | _]; [done |].
  destruct (String.eqb_spec model "minimax-hailuo") as [-> | _]; [done |].
  destruct (String.eqb_spec model "seedance-1.5") as [-> | _]; [done |].
  discriminate.
Qed.

(** X17. Whichever of its six models is asked for and whatever the
    duration, [requestHiggsfieldVideo] posts to the one Seedance Pro
    text-to-video path with the resolution 720; the body holds the prompt,
    the aspect ratio and the resolution, and no duration. *)
Theorem X17_higgsfield_call_ignores_model_and_duration (headers : string)
    (params : VideoRequest) :
  isHiggsfieldModel (rq_model params) = true ->
  higgsfieldCall headers params
  = {| hc_url := "https://platform.higgsfield.ai/bytedance/seedance/v1/pro/text-to-video";
       hc_authorization := headers;
       hc_body := Some {| hb_prompt := rq_prompt params;
                          hb_aspect_ratio :=
                            if JS.truthy (rq_aspectRatio params)
                            then rq_aspectRatio params else "9:16";
                          hb_resolution := "720" |} |}.
Proof.
  intros (Ht & Hp & Hr)%isHiggsfieldModel_paths.
  unfold higgsfieldCall. cbv zeta. rewrite Ht, Hp, Hr. reflexivity.
Qed.

(** X18. Every request that [requestClipVideos] hands to [requestVeoVideo]
    reaches Veo with a [durationSeconds] between 4 and 8, the clip's
    duration clamped; the parameter is never left out. *)
Theorem X18_veo_body_carries_the_clamped_duration (c : ClipInfo) (model : string) :
  exists d,
    vb_durationSeconds (veoBody (buildRequest Veo model c)) = Some d
    /\ d = JS.clamp 4 8 (duration c)
    /\ 4 <= d <= 8.
Proof.
  exists (requestedDuration Veo c).
  pose proof (veo_duration_in_range c) as [H1 H2].
  split; [| split; [reflexivity | by split]].
  unfold veoBody, buildRequest. cbn [rq_duration].
  destruct (Qeq_bool (requestedDuration Veo c) 0) eqn:E; [| reflexivity].
  apply Qeq_bool_iff in E. rewrite E in H1. exfalso. revert H1.
  apply Qlt_not_le. reflexivity.
Qed.

End VendorFacts.

Section VendorExamples.
Import Orchestrator Vendors.

(** A Veo operation that is done and has a video. *)
Lemma X15_witness :
  v_status {| v_status := Completed;
              v_videoUrl := Some "https://cdn/veo.mp4?key=g-key";
              v_errorMessage := None; v_progress := None |} = Completed
  <-> JS.truthy_opt
        (v_videoUrl {| v_status := Completed;
                       v_videoUrl := Some "https://cdn/veo.mp4?key=g-key";
                       v_errorMessage := None; v_progress := None |}) = true.
Proof.
  apply (X15_completed_means_a_video_url cfg_set veo_done higgsfield_done
           "veo|models/veo-3.1-generate-preview/operations/a1").
  left. reflexivity.
Defined.

(** A Veo clip submitted and polled with the keys set. *)
Lemma X16_witness :
  exists name,
    "veo|models/veo-3.1-generate-preview/operations/a1" = "veo|" +:+ name
    /\ poll (Vendors.env cfg_set veo_done higgsfield_done env_up)
            "veo|models/veo-3.1-generate-preview/operations/a1"
       = seen (getVeoVideoResult cfg_set veo_done
                 "veo|models/veo-3.1-generate-preview/operations/a1")
    /\ (JS.startsWith "veo-" name = false ->
        operationPath "veo|models/veo-3.1-generate-preview/operations/a1" = name).
Proof.
  apply (X16_a_job_is_polled_where_it_was_submitted cfg_set veo_done
           higgsfield_done env_up
           (buildRequest Veo "veo-3.1" (freshClip 0 "A." 8))).
  reflexivity.
Defined.

(** A twelve second clip asked of the Kling model. *)
Lemma X17_witness :
  higgsfieldCall "Key id:secret" (buildRequest Higgsfield "kling-2.6" (freshClip 0 "A." 12))
  = {| hc_url := "https://platform.higgsfield.ai/bytedance/seedance/v1/pro/text-to-video";
       hc_authorization := "Key id:secret";
       hc_body := Some {| hb_prompt := ""; hb_aspect_ratio := "9:16";
                          hb_resolution := "720" |} |}.
Proof.
  apply (X17_higgsfield_call_ignores_model_and_duration "Key id:secret"
           (buildRequest Higgsfield "kling-2.6" (freshClip 0 "A." 12))).
  reflexivity.
Defined.

End VendorExamples.
(** ** More on the merge and the filler *)

Section MergeMore.
Import Media.
Variable env : Env.

Lemma removed_dir_is_empty (dir : string) w r w' :
  cmdFails env (RemoveDir dir) = false ->
  exec env (RemoveDir dir) w = (r, w') ->
  (forall p, underDir dir p = true -> files w' !! p = None)
  /\ (forall p, underDir dir p = false -> files w' !! p = files w !! p).
Proof.
  intros Hc. unfold exec. rewrite Hc. cbn [run]. intros [= _ <-]. cbn [files].
  split; intros p Hp.
  - apply map_lookup_filter_None. right. intros d _. cbn. by rewrite Hp.
  - destruct (files w !! p) as [d |] eqn:E.
    + apply map_lookup_filter_Some. by split.
    + apply map_lookup_filter_None. by left.
Qed.

(** X19. A merge leaves no temporary file behind.  However
    [mergeVideosWithAudioSync] ends, if the removal of its temporary
    directory does not fail then either it threw before touching anything,
    or no file is left under [tmp_sync_merge]; and when it returns, it
    returns the output path and the output file is there. *)
Theorem X19_merge_leaves_no_temporary_file (videoPaths : list string)
    (audioPath outputPath : string) (w : World) (r : Result string) (w' : World) :
  cmdFails env (RemoveDir (Ffmpeg.tmpSyncDir outputPath)) = false ->
  Ffmpeg.mergeVideosWithAudioSync env videoPaths audioPath outputPath w = (r, w') ->
  ((exists msg, r = Throw msg) /\ w' = w
   \/ forall p, underDir (Ffmpeg.tmpSyncDir outputPath) p = true ->
                files w' !! p = None)
  /\ (forall o, r = Ok o -> o = outputPath /\ is_Some (files w' !! outputPath)).
Proof.
  intros Hrm. unfold Ffmpeg.mergeVideosWithAudioSync.
  destruct (length videoPaths =? 0)%nat.
  { intros [= <- <-]. split; [left; eauto | discriminate]. }
  unfold bind at 1.
  destruct (Ffmpeg.requireFFmpeg env w) as [[[] | msg] w1] eqn:E1;
    apply requireFFmpeg_pure in E1 as ->.
  2:{ intros [= <- <-]. split; [left; eauto | discriminate]. }
  unfold bind at 1.
  destruct (Ffmpeg.getAudioDuration env audioPath w) as [ra w1] eqn:E2.
  apply probe_or_default_pure in E2 as [-> [A ->]].
  unfold bind at 1.
  destruct (Ffmpeg.sumDurations env videoPaths 0 w) as [rt w1] eqn:E3.
  apply sumDurations_pure in E3 as [-> [T ->]].
  unfold bind at 1.
  destruct (exec env (Mkdir (Ffmpeg.tmpSyncDir outputPath)) w) as [rm w1] eqn:E4.
  apply exec_cases in E4 as [(-> & f' & Hrun & _ & ->) | ((msg & ->) & ->)].
  2:{ intros [= <- <-]. split; [left; eauto | discriminate]. }
  unfold finally.
  match goal with |- context [bind ?m ?k ?w0] =>
    destruct (bind m k w0) as [rb wb] eqn:Eb end.
  destruct (exec env (RemoveDir (Ffmpeg.tmpSyncDir outputPath)) wb) as [rc wc] eqn:Ec.
  intros [= <- <-].
  destruct (removed_dir_is_empty _ _ _ _ Hrm Ec) as [Hin Hout].
  split; [right; exact Hin |].
  intros o ->. revert Eb. unfold bind at 1.
  match goal with |- context [(if ?b then ?x else ?y) ?w0] =>
    destruct ((if b then x else y) w0) as [[paths | msg] w2] end; [| discriminate].
  unfold bind at 1.
  destruct (exec env _ w2) as [re w3] eqn:Ee.
  apply exec_cases in Ee as [(-> & f3 & Hr3 & _ & ->) | ((msg & ->) & ->)];
    [| discriminate].
  intros [= <- <-]. split; [reflexivity |].
  rewrite Hout by exact (output_outside_tmp "tmp_sync_merge" outputPath).
  cbn [files]. cbn [run] in Hr3.
  destruct (totalOf (files w2) paths); [| discriminate].
  destruct (files w2 !! audioPath); [| discriminate].
  injection Hr3 as <-. rewrite lookup_insert_eq. eauto.
Qed.

Hypothesis installed : ffmpegInstalled env = true.


(** X21. [createFillerFromLastFrame] has two ways to the filler.  With
    ffmpeg installed and the source video there, when the piped command
    runs the filler is written by it alone and holds one frame, a thirtieth
    of a second, whatever duration was asked for: the two-step way is not
    taken.  When the piped command fails, the last frame is extracted to a
    file beside the output, the still video is made from it and lasts the
    duration asked for, and the frame file is deleted again. *)
Theorem X21_filler_by_pipe_or_by_frame_file (sourceVideoPath outputPath : string)
    (duration d0 : Q) (w : World) :
  let tmpFrame := replaceFirst ".mp4" "_frame.png" outputPath in
  files w !! sourceVideoPath = Some d0 ->
  tmpFrame <> outputPath ->
  cmdFails env (ExtractFrame sourceVideoPath tmpFrame) = false ->
  cmdFails env (StillVideo tmpFrame outputPath duration) = false ->
  cmdFails env (Unlink tmpFrame) = false ->
  exists w',
    Ffmpeg.createFillerFromLastFrame env sourceVideoPath outputPath duration w
    = (Ok tt, w')
    /\ (cmdFails env (FillerPipe sourceVideoPath outputPath duration) = false ->
        log w' = log w ++ [FillerPipe sourceVideoPath outputPath duration]
        /\ files w' !! outputPath = Some oneFrame)
    /\ (cmdFails env (FillerPipe sourceVideoPath outputPath duration) = true ->
        log w' = log w ++
          [ExtractFrame sourceVideoPath tmpFrame;
           StillVideo tmpFrame outputPath duration; Unlink tmpFrame]
        /\ files w' !! outputPath = Some duration
        /\ files w' !! tmpFrame = None).
Proof.
  intros tmpFrame Hsrc Hneq Hx Hs Hu.
  unfold Ffmpeg.createFillerFromLastFrame. fold tmpFrame.
  unfold bind at 1. unfold Ffmpeg.requireFFmpeg at 1.
  unfold bind at 1, checkFFmpegInstalled, ret at 1. rewrite installed.
  unfold ret at 1. unfold tryCatch at 1, exec at 1.
  destruct (cmdFails env (FillerPipe sourceVideoPath outputPath duration)) eqn:Hp.
  - unfold bind at 1, exec at 1. rewrite Hx. cbn [run]. unfold write1. rewrite Hsrc.
    unfold bind at 1, exec at 1. rewrite Hs. cbn [run files log]. unfold write1.
    rewrite lookup_insert_eq.
    unfold tryCatch, exec. rewrite Hu. cbn [run files log].
    rewrite lookup_insert_ne by congruence. rewrite lookup_insert_eq.
    eexists. split; [reflexivity |]. cbn [files log].
    split; [discriminate |]. intros _. split; [| split].
    + by rewrite <- !app_assoc.
    + rewrite lookup_delete_ne by congruence. apply lookup_insert_eq.
    + apply lookup_delete_eq.
  - cbn [run]. unfold write1. rewrite Hsrc.
    eexists. split; [reflexivity |]. cbn [files log].
    split; [| discriminate]. intros _. split; [reflexivity | apply lookup_insert_eq].
Qed.

End MergeMore.

Section MergeMoreExamples.
Import Media Worlds.

(** The three clips and a narration that is not there: the merge goes on
    with the default of 60 seconds and throws at the join. *)
Lemma X19_witness :
  let run := Ffmpeg.mergeVideosWithAudioSync env_fine
               ["/app/public/videos/c0.mp4"; "/app/public/videos/c1.mp4";
                "/app/public/videos/c2.mp4"]
               "/app/public/audio/none.mp3" "/app/public/videos/out.mp4"
               shortNarration in
  ((exists msg, run.1 = Throw msg) /\ run.2 = shortNarration
   \/ forall p, underDir (Ffmpeg.tmpSyncDir "/app/public/videos/out.mp4") p = true ->
                files run.2 !! p = None)
  /\ (forall o, run.1 = Ok o ->
       o = "/app/public/videos/out.mp4"
       /\ is_Some (files run.2 !! "/app/public/videos/out.mp4")).
Proof.
  apply (X19_merge_leaves_no_temporary_file env_fine
           ["/app/public/videos/c0.mp4"; "/app/public/videos/c1.mp4";
            "/app/public/videos/c2.mp4"]
           "/app/public/audio/none.mp3" "/app/public/videos/out.mp4"
           shortNarration).
  - reflexivity.
  - apply surjective_pairing.
Defined.


(** A filler of 4 seconds from the last clip: by the piped command it holds
    one frame; when the piped command fails it is made from the frame file
    and lasts 4 seconds. *)
Lemma X21_witness :
  let src := "/app/public/videos/c2.mp4" in
  let filler := "/app/public/videos/tmp_sync_merge/filler.mp4" in
  let frame := "/app/public/videos/tmp_sync_merge/filler_frame.png" in
  (exists w',
     Ffmpeg.createFillerFromLastFrame env_fine src filler 4 shortNarration
     = (Ok tt, w')
     /\ log w' = [FillerPipe src filler 4]
     /\ files w' !! filler = Some (1 # 30))
  /\ (exists w',
        Ffmpeg.createFillerFromLastFrame env_nopipe src filler 4 shortNarration
        = (Ok tt, w')
        /\ log w' = [ExtractFrame src frame; StillVideo frame filler 4; Unlink frame]
        /\ files w' !! filler = Some 4
        /\ files w' !! frame = None).
Proof.
  intros src filler frame. split.
  - destruct (X21_filler_by_pipe_or_by_frame_file env_fine eq_refl src filler 4 6
                shortNarration) as (w' & Hrun & Hpipe & _).
    + reflexivity.
    + discriminate.
    + reflexivity.
    + reflexivity.
    + reflexivity.
    + exists w'. split; [exact Hrun | exact (Hpipe eq_refl)].
  - destruct (X21_filler_by_pipe_or_by_frame_file env_nopipe eq_refl src filler 4 6
                shortNarration) as (w' & Hrun & _ & Hfile).
    + reflexivity.
    + discriminate.
    + reflexivity.
    + reflexivity.
    + reflexivity.
    + exists w'. split; [exact Hrun | exact (Hfile eq_refl)].
Defined.

End MergeMoreExamples.
(** ** What an adjustment is for *)

Section AdjustMore.
Import Media Core.
Variable env : Env.
Variable jobId : string.
Hypothesis commands_run : forall c, cmdFails env c = false.

(** X22. A clip that is shorter than its narration by half a second to four
    seconds is stretched to the narration.  For a scene that needs no
    dubbing and whose source clip is there, when the commands run and the
    measurement of the output succeeds, [adjustScene] runs the freeze
    command (a difference of up to two seconds) or the two Ken Burns
    commands and the removal of their temporary file (a larger one), with
    the narration's length in seconds as the duration of each command.  The
    clip written is as long as the narration to within a twentieth of a
    second (an encoder ends on a whole frame), and [finalDurationMs] is its
    measured length. *)
Theorem X22_a_short_clip_is_stretched_to_the_narration (scene : Scene)
    (w : World) (vp : string) (v din : Q) :
  probeFails env (VideoManager.outputPath env jobId scene) = false ->
  VideoManager.needsDubbing scene = false ->
  videoPath scene = Some vp ->
  videoDurationMs scene = Some v ->
  files w !! VideoManager.public env vp = Some din ->
  0 <= din ->
  500 <= audioDurationMs scene - v <= 4000 ->
  exists r w' d,
    VideoManager.adjustScene env jobId scene w = (Ok r, w')
    /\ r_adjustmentType r
       = (if Qle_bool (audioDurationMs scene - v) 2000 then freeze else ken_burns)
    /\ log w' = log w ++
         VideoManager.adjustmentCommands (r_adjustmentType r)
           (VideoManager.public env vp) (VideoManager.outputPath env jobId scene)
           (audioDurationMs scene)
    /\ files w' !! VideoManager.outputPath env jobId scene = Some d
    /\ Qabs (d * 1000 - audioDurationMs scene) <= 50
    /\ finalDurationMs r = JS.round (d * 1000).
Proof.
  intros Hprobe Hnd Hvp Hv Hin Hpos Hdelta.
  unfold VideoManager.adjustScene. rewrite Hvp, Hv, Hnd.
  cbn [fmap option_fmap option_map].
  unfold VideoManager.dubIfNeeded. rewrite Hnd.
  destruct (outputPath_ends_mp4 env jobId scene) as [a Ha].
  destruct (applyAdjustment_runs env (fun c _ => commands_run c)
              (Some (audioDurationMs scene - v))
              (VideoManager.public env vp) (VideoManager.outputPath env jobId scene)
              (audioDurationMs scene) w din a Hin Ha)
    as (t & w1 & Happly & Hchosen & Hlog & d & Hd & _ & Hlong).
  assert (t = (if Qle_bool (audioDurationMs scene - v) 2000 then freeze
               else ken_burns)) as Ht.
  { destruct (chosen_by_delta _ _ Hchosen) as (_ & C2 & C3 & _ & _).
    destruct (Qle_bool (audioDurationMs scene - v) 2000) eqn:E.
    - apply Qle_bool_iff in E. apply C2. lra.
    - apply C3. split; [| lra]. apply Qnot_le_lt. intros H.
      apply Qle_bool_iff in H. congruence. }
  assert (d == audioDurationMs scene / 1000) as Ed.
  { apply Hlong; [exact Hpos |]. rewrite Ht.
    destruct (Qle_bool (audioDurationMs scene - v) 2000); auto. }
  exists {| sceneId := id scene; originalPath := Some vp;
            adjustedPath := "/videos/jobs/" +:+ jobId +:+ "/adjusted/"
                            +:+ VideoManager.outputFileName scene;
            r_adjustmentType := t; originalDurationMs := Some v;
            targetDurationMs := audioDurationMs scene;
            finalDurationMs := JS.round (d * 1000) |}, w1, d.
  split.
  - unfold bind at 1. rewrite Happly. unfold bind at 1, ret at 1.
    unfold bind, ffprobe. rewrite Hprobe, Hd. reflexivity.
  - cbn [r_adjustmentType finalDurationMs].
    split; [exact Ht |]. split; [exact Hlog |]. split; [exact Hd |].
    split; [| reflexivity].
    assert (d * 1000 - audioDurationMs scene == 0) as -> by (rewrite Ed; field).
    discriminate.
Qed.

End AdjustMore.

Section AdjustMoreExamples.
Import Media Core.

(** A clip of 5 seconds under a narration of 6 seconds that comes with the
    video: the clip is frozen to 6 seconds. *)
Lemma X22_witness :
  let scene := VideoManager.exampleScene 6000 5000 None in
  exists r w' d,
    VideoManager.adjustScene env_fine "job1" scene VideoManager.sceneFiles
    = (Ok r, w')
    /\ r_adjustmentType r = freeze
    /\ log w' =
         VideoManager.adjustmentCommands (r_adjustmentType r)
           "/app/public/videos/jobs/job1/scene_01.mp4"
           (VideoManager.outputPath env_fine "job1" scene) 6000
    /\ files w' !! VideoManager.outputPath env_fine "job1" scene = Some d
    /\ Qabs (d * 1000 - 6000) <= 50
    /\ finalDurationMs r = JS.round (d * 1000).
Proof.
  apply (X22_a_short_clip_is_stretched_to_the_narration env_fine "job1"
           (fun _ => eq_refl) (VideoManager.exampleScene 6000 5000 None)
           VideoManager.sceneFiles "/videos/jobs/job1/scene_01.mp4" 5000 5).
  - reflexivity.
  - reflexivity.
  - reflexivity.
  - reflexivity.
  - reflexivity.
  - discriminate.
  - split; discriminate.
Defined.

End AdjustMoreExamples.
(** ** Composing the scenes *)

Section ComposeMore.
Import Media Core.
Variable env : Env.
Variable jobId : string.
Variable transitionPreset : TimelineComposer.TransitionPreset.
Variable transitionDurationMs : Q.

(** X23. When the scenes are joined without the transition filter - the
    preset is [smash_cut] or [none], or the filter command fails and the
    composer falls back - [compose] joins the valid scenes in the order of
    their ids into [composed.mp4], and reports the sum of their durations
    and their number. *)
Theorem X23_without_transitions_the_scenes_are_joined_whole (scenes : list Scene)
    (w : World) (T : Q) :
  let valid := TimelineComposer.validScenes scenes in
  let paths := map (TimelineComposer.scenePath env) valid in
  let out := pjoin (TimelineComposer.outputDir env jobId) "composed.mp4" in
  cmdFails env (Mkdir (TimelineComposer.outputDir env jobId)) = false ->
  cmdFails env (Concat paths out) = false ->
  probeFails env out = false ->
  totalOf (files w) paths = Some T ->
  (2 <= length valid)%nat ->
  transitionPreset = TimelineComposer.smash_cut
  \/ transitionPreset = TimelineComposer.no_transition
  \/ cmdFails env (Xfade paths (transitionDurationMs / 1000) out) = true ->
  exists w',
    TimelineComposer.compose env jobId transitionPreset transitionDurationMs scenes w
    = (Ok {| outputPath := "/videos/jobs/" +:+ jobId +:+ "/composed.mp4";
             totalDurationMs := JS.round (T * 1000);
             scenesIncluded := length valid |}, w')
    /\ log w' = log w ++ [Mkdir (TimelineComposer.outputDir env jobId);
                          Concat paths out]
    /\ files w' !! out = Some T.
Proof.
  intros valid paths out Hmk Hcat Hprobe Htotal Hlen Hplain.
  unfold TimelineComposer.compose. fold valid.
  unfold bind at 1, exec at 1. rewrite Hmk. cbn [run].
  destruct valid as [| s1 [| s2 rest]] eqn:Ev; cbn [length] in Hlen; try lia.
  cbn [length Nat.eqb].
  set (w1 := {| files := files w;
                log := log w ++ [Mkdir (TimelineComposer.outputDir env jobId)] |}).
  assert (TimelineComposer.composeWithConcatDemuxer env jobId (s1 :: s2 :: rest) w1
          = (Ok out, {| files := <[out := T]> (files w);
                        log := (log w ++ [Mkdir (TimelineComposer.outputDir env jobId)])
                               ++ [Concat paths out] |})) as Hconcat.
  { unfold TimelineComposer.composeWithConcatDemuxer. fold out. fold paths.
    unfold bind, exec. rewrite Hcat. cbn [run files log w1]. by rewrite Htotal. }
  assert ((match transitionPreset with
           | TimelineComposer.smash_cut | TimelineComposer.no_transition =>
               TimelineComposer.composeWithConcatDemuxer env jobId (s1 :: s2 :: rest)
           | _ => TimelineComposer.composeWithTransitions env jobId
                    transitionDurationMs (s1 :: s2 :: rest)
           end) w1
          = (Ok out, {| files := <[out := T]> (files w);
                        log := (log w ++ [Mkdir (TimelineComposer.outputDir env jobId)])
                               ++ [Concat paths out] |})) as Hjoin.
  { assert (cmdFails env (Xfade paths (transitionDurationMs / 1000) out) = true ->
            TimelineComposer.composeWithTransitions env jobId transitionDurationMs
              (s1 :: s2 :: rest) w1
            = (Ok out, {| files := <[out := T]> (files w);
                          log := (log w ++ [Mkdir (TimelineComposer.outputDir env jobId)])
                                 ++ [Concat paths out] |})) as Hfall.
    { intros Hx. unfold TimelineComposer.composeWithTransitions. fold out. fold paths.
      unfold tryCatch, bind at 1, exec at 1. rewrite Hx. exact Hconcat. }
    destruct Hplain as [-> | [-> | Hx]]; [exact Hconcat | exact Hconcat |].
    destruct transitionPreset; first [exact Hconcat | by apply Hfall]. }
  unfold bind at 1. rewrite Hjoin.
  unfold bind, ffprobe. cbn [files]. fold out. rewrite Hprobe, lookup_insert_eq.
  eexists. split; [reflexivity |]. cbn [files log].
  split; [by rewrite <- app_assoc | apply lookup_insert_eq].
Qed.

End ComposeMore.

Section ComposeMoreExamples.
Import Media Core Worlds.

(** Two scenes given out of order, a fade asked for, the filter failing. *)
Lemma X23_witness :
  exists w',
    TimelineComposer.compose env_noxfade "job1" TimelineComposer.fade 500
      [sceneAt 2 "/videos/jobs/job1/scene_02.mp4";
       sceneAt 1 "/videos/jobs/job1/scene_01.mp4"] twoScenes
    = (Ok {| outputPath := "/videos/jobs/" +:+ "job1" +:+ "/composed.mp4";
             totalDurationMs := JS.round ((5 + (7 + 0)) * 1000);
             scenesIncluded := 2 |}, w')
    /\ log w' = log twoScenes ++
         [Mkdir (TimelineComposer.outputDir env_noxfade "job1");
          Concat ["/app/public/videos/jobs/job1/scene_01.mp4";
                  "/app/public/videos/jobs/job1/scene_02.mp4"]
                 "/app/public/videos/jobs/job1/composed.mp4"]
    /\ files w' !! "/app/public/videos/jobs/job1/composed.mp4" = Some (5 + (7 + 0)).
Proof.
  apply (X23_without_transitions_the_scenes_are_joined_whole env_noxfade "job1"
           TimelineComposer.fade 500
           [sceneAt 2 "/videos/jobs/job1/scene_02.mp4";
            sceneAt 1 "/videos/jobs/job1/scene_01.mp4"] twoScenes (5 + (7 + 0))).
  - reflexivity.
  - reflexivity.
  - reflexivity.
  - reflexivity.
  - cbn. lia.
  - right. right. reflexivity.
Defined.

End ComposeMoreExamples.
(** ** Scene by scene *)

Section SceneFacts.
Import Core SceneManager.
Variable env : Env.
Variable this : Manager.

Lemma countStatus_cons st s scenes :
  countStatus st (s :: scenes)
  = ((if VideoStatus_eqb (videoStatus s) st then 1 else 0) + countStatus st scenes)%nat.
Proof.
  unfold countStatus. cbn [List.filter].
  by destruct (VideoStatus_eqb (videoStatus s) st).
Qed.

(** X24. The five counts of [getScenesSummary] add up to the total: every
    scene is counted under exactly one status. *)
Theorem X24_summary_counts_add_up (scenes : list Scene) :
  let s := getScenesSummary scenes in
  total s = (pending s + generating s + completed s + failed s + adjusted s)%nat.
Proof.
  cbv zeta. unfold getScenesSummary. cbn [total pending generating completed failed adjusted].
  induction scenes as [| s scenes IH]; [reflexivity |].
  rewrite !countStatus_cons. cbn [length]. rewrite IH.
  destruct (videoStatus s); cbn; lia.
Qed.

Lemma sceneRequestLoop_spec scenes :
  forall acc calls,
    requestLoop env this scenes acc calls
    = (acc ++ map (fun s => (requestScene env this s).1) scenes,
       calls ++ concat (map (fun s => (requestScene env this s).2) scenes)).
Proof.
  induction scenes as [| s scenes IH]; intros acc calls; cbn [requestLoop].
  - cbn. by rewrite !app_nil_r.
  - destruct (requestScene env this s) as [pushed made] eqn:E.
    rewrite IH. cbn [map concat fst snd]. rewrite E. cbn [fst snd].
    by rewrite <- !app_assoc.
Qed.

Lemma requestScene_requested s :
  requestedFrom this s (requestScene env this s).1.
Proof.
  unfold requestScene, requestedFrom.
  destruct (JS.truthy_opt (prompt s)); cbn [negb]; [right | left; by split].
  split; [reflexivity |].
  destruct (videoProvider this); cbn [fst].
  - destruct (requestHiggsfieldVideo env _); eauto.
  - destruct (requestVeoVideo env _); eauto.
Qed.

Lemma requestedFrom_status s s' :
  requestedFrom this s s' -> videoStatus s' = Generating \/ videoStatus s' = VFailed.
Proof.
  intros [[_ ->] | [_ [[job ->] | [msg ->]]]]; cbn; tauto.
Qed.

Lemma countStatus_none st scenes :
  Forall (fun s => videoStatus s <> st) scenes -> countStatus st scenes = 0%nat.
Proof.
  induction 1 as [| s scenes Hs _ IH]; [reflexivity |].
  rewrite countStatus_cons, IH.
  destruct (videoStatus s), st; try reflexivity; congruence.
Qed.

Lemma requestVideos_requested (scenes out : list Scene) (calls : list Call) :
  requestVideos env this scenes = (Ok out, calls) ->
  out = map (fun s => (requestScene env this s).1) scenes
  /\ Forall2 (requestedFrom this) scenes out.
Proof.
  unfold requestVideos. destruct (mkdir env (outputDir this)); [| discriminate].
  rewrite sceneRequestLoop_spec. cbn [app]. intros [= <- _]. split; [reflexivity |].
  apply Forall2_fmap_r, Forall_Forall2_diag, List.Forall_forall.
  intros s _. apply requestScene_requested.
Qed.

(** X25. When the output directory can be made, [requestVideos] returns one
    scene per scene given, in order: a scene without a prompt Failed with
    no request made for it, every other scene Generating with the job id in
    [videoPath], or Failed with the message of the request that threw.  So
    no scene is left pending, completed or adjusted, whatever it was
    before: generating and failed add up to the total. *)
Theorem X25_every_scene_is_requested_or_failed (scenes out : list Scene)
    (calls : list Call) :
  requestVideos env this scenes = (Ok out, calls) ->
  Forall2 (requestedFrom this) scenes out
  /\ pending (getScenesSummary out) = 0%nat
  /\ completed (getScenesSummary out) = 0%nat
  /\ adjusted (getScenesSummary out) = 0%nat
  /\ (generating (getScenesSummary out) + failed (getScenesSummary out))%nat
     = length scenes.
Proof.
  intros [_ H2]%requestVideos_requested.
  assert (Forall (fun s => videoStatus s = Generating \/ videoStatus s = VFailed) out)
    as Hst.
  { apply List.Forall_forall. intros s' Hin.
    apply list_elem_of_In, list_elem_of_lookup_1 in Hin as [i Hi].
    destruct (Forall2_lookup_r _ _ _ _ _ H2 Hi) as (s & _ & Hrq).
    by eapply requestedFrom_status. }
  assert (forall st, st <> Generating -> st <> VFailed -> countStatus st out = 0%nat)
    as Hzero.
  { intros st H1 H3. apply countStatus_none.
    eapply Forall_impl; [exact Hst |]. intros s [E | E]; congruence. }
  split; [exact H2 |].
  cbn [getScenesSummary pending completed adjusted generating failed].
  rewrite !Hzero by discriminate. repeat split.
  rewrite (Forall2_length _ _ _ H2). clear H2 Hzero.
  induction Hst as [| s l Hs _ IH]; [reflexivity |].
  rewrite !countStatus_cons. cbn [length].
  destruct Hs as [-> | ->]; cbn; lia.
Qed.

Lemma sceneCheckLoop_spec scenes :
  forall acc calls,
    checkLoop env this scenes acc calls
    = (acc ++ map (fun s => (checkScene env this s).1) scenes,
       calls ++ concat (map (fun s => (checkScene env this s).2) scenes)).
Proof.
  induction scenes as [| s scenes IH]; intros acc calls; cbn [checkLoop].
  - cbn. by rewrite !app_nil_r.
  - destruct (checkScene env this s) as [pushed made] eqn:E.
    rewrite IH. cbn [map concat fst snd]. rewrite E. cbn [fst snd].
    by rewrite <- !app_assoc.
Qed.

Lemma checkScene_cases s :
  checkedFrom this s (checkScene env this s).1
  /\ (videoStatus s <> Generating -> checkScene env this s = (s, []))
  /\ ((forall job, exists msg, getVeoVideoResult env job = Throw msg) ->
      (forall job, exists msg, getHiggsfieldVideoResult env job = Throw msg) ->
      (checkScene env this s).1 = s).
Proof.
  unfold checkScene, checkedFrom.
  destruct (isSettled s) eqn:Hs.
  { cbn [fst]. split; [by left |]. done. }
  destruct (VideoStatus_eqb (videoStatus s) Generating) eqn:Hg; cbn [negb orb].
  2:{ cbn [fst]. split; [by left |]. done. }
  assert (videoStatus s = Generating) as Eg by (by destruct (videoStatus s)).
  destruct (JS.truthy_opt (videoPath s)); cbn [negb].
  2:{ cbn [fst]. split; [by left |]. done. }
  split; [| split; [congruence |]].
  - destruct (videoProvider this);
      match goal with |- context [match ?r with Ok _ => _ | Throw _ => _ end] =>
        destruct r as [result | msg] end; cbn [fst]; try (by left);
      (destruct (Status_eqb _ Completed && _);
       [destruct (downloadFile env _); [| by left];
        destruct (writeFile env _ _); [| by left];
        destruct (ffprobe env _); [| by left]; cbn [fst]; right; eauto
       | destruct (Status_eqb _ Failed); cbn [fst]; [right; eauto | by left]]).
  - intros Hv Hh. destruct (videoProvider this).
    + destruct (Hh (default "" (videoPath s))) as [msg ->]. reflexivity.
    + destruct (Hv (default "" (videoPath s))) as [msg ->]. reflexivity.
Qed.

Lemma checkAndDownloadVideos_checked (scenes : list Scene) :
  Forall2 (checkedFrom this) scenes (checkAndDownloadVideos env this scenes).1.
Proof.
  unfold checkAndDownloadVideos. rewrite sceneCheckLoop_spec. cbn [app fst].
  apply Forall2_fmap_r, Forall_Forall2_diag, List.Forall_forall.
  intros s _. apply checkScene_cases.
Qed.

(** X26. [checkAndDownloadVideos] returns one scene per scene given, in
    order, and touches only scenes that are Generating: such a scene comes
    back as it was, or Completed with the path [/videos/jobs/<job>/scene_NN.mp4]
    and the measured duration in milliseconds, or Failed with a message.  A
    scene with any other status causes no call at all; and when the vendor
    cannot be reached the scenes are returned as they were given. *)
Theorem X26_a_check_touches_generating_scenes_only (scenes : list Scene) :
  Forall2 (checkedFrom this) scenes (checkAndDownloadVideos env this scenes).1
  /\ (Forall (fun s => videoStatus s <> Generating) scenes ->
      checkAndDownloadVideos env this scenes = (scenes, []))
  /\ ((forall job, exists msg, getVeoVideoResult env job = Throw msg) ->
      (forall job, exists msg, getHiggsfieldVideoResult env job = Throw msg) ->
      (checkAndDownloadVideos env this scenes).1 = scenes).
Proof.
  split; [apply checkAndDownloadVideos_checked |].
  unfold checkAndDownloadVideos. rewrite sceneCheckLoop_spec. cbn [app fst].
  split.
  - induction 1 as [| s l Hs _ IH]; [reflexivity |].
    injection IH as IH1 IH2. cbn [map concat].
    rewrite (proj1 (proj2 (checkScene_cases s)) Hs). cbn [fst snd app].
    by rewrite IH1, IH2.
  - intros Hv Hh. induction scenes as [| s l IH]; [reflexivity |].
    cbn [map]. rewrite IH. f_equal. by apply checkScene_cases.
Qed.

(** X28. [retryScene] gives a scene without a prompt the fallback prompt,
    on the caller's scene too, so that a retry cannot fail for want of a
    prompt: when the output directory can be made, exactly one request is
    sent, and the call resolves to the scene Generating, or Failed with the
    message of that request. *)
Theorem X28_a_retry_always_sends_a_request (scene : Scene) :
  mkdir env (outputDir this) = Ok tt ->
  let run := retryScene env this scene in
  let arg := run.1.1 in
  JS.truthy_opt (prompt arg) = true
  /\ (JS.truthy_opt (prompt scene) = true -> arg = scene)
  /\ (exists s', run.1.2 = Ok (Some s')
                 /\ (videoStatus s' = Generating \/ videoStatus s' = VFailed)
                 /\ prompt s' = prompt arg /\ id s' = id scene)
  /\ exists request,
       run.2 = [MkdirCall (outputDir this); request]
       /\ (request = RequestVeo
                       (sceneRequest this (with_videoStatus arg VPending))
           \/ request = RequestHiggsfield
                          (sceneRequest this (with_videoStatus arg VPending))).
Proof.
  intros Hmk. cbv zeta. unfold retryScene, requestVideos. rewrite Hmk.
  cbn [requestLoop].
  set (arg := if negb (JS.truthy_opt (prompt scene))
              then set_prompt scene (createFallbackPrompt (text scene)) else scene).
  assert (JS.truthy_opt (prompt arg) = true) as Harg.
  { unfold arg. destruct (JS.truthy_opt (prompt scene)) eqn:E; [exact E | reflexivity]. }
  assert (id arg = id scene) as Hid.
  { unfold arg. by destruct (JS.truthy_opt (prompt scene)). }
  unfold requestScene. cbn [prompt with_videoStatus]. rewrite Harg. cbn [negb].
  destruct (videoProvider this) eqn:Ep.
  - cbn [fst snd head app]. split; [exact Harg |].
    split; [intros E; unfold arg; by rewrite E |].
    split.
    + destruct (requestHiggsfieldVideo env _); eexists;
        (split; [reflexivity |]); cbn; tauto.
    + eexists. split; [reflexivity |]. by right.
  - cbn [fst snd head app]. split; [exact Harg |].
    split; [intros E; unfold arg; by rewrite E |].
    split.
    + destruct (requestVeoVideo env _); eexists;
        (split; [reflexivity |]); cbn; tauto.
    + eexists. split; [reflexivity |]. by left.
Qed.

End SceneFacts.

Section SceneChain.
Import Core SceneManager.
Variable env : Env.

Lemma adjustScene_no_dub (menv : Media.Env) (job : string) (s : Scene) :
  VideoManager.needsDubbing s = false ->
  Media.logsOnly Worlds.notDub (VideoManager.adjustScene menv job s).
Proof.
  intros Hnd. unfold VideoManager.adjustScene.
  destruct (videoPath s) as [vp |]; [| apply logs_throw].
  apply logs_bind.
  - unfold VideoManager.applyAdjustment, VideoManager.applyFreeze,
      VideoManager.applyKenBurns, VideoManager.applyLoop, VideoManager.applyTrim.
    repeat match goal with
           | |- context [if ?b then _ else _] => destruct b
           end;
      repeat first [ apply logs_ret
                   | apply logs_exec; exact I
                   | apply logs_tryCatch; [| intros ?]
                   | apply logs_bind; [| intros ?] ].
  - intros t. apply logs_bind.
    + unfold VideoManager.dubIfNeeded. rewrite Hnd. apply logs_ret.
    + intros _. apply logs_bind; [apply logs_ffprobe | intros; apply logs_ret].
Qed.

(** X27. A scene whose video Veo made with its narration is never dubbed.
    With the generation mode left to its default, every scene that
    [requestVideos] and then [checkAndDownloadVideos] bring to Completed
    has [audioIncluded] set as the provider has it: under Veo the scene
    needs no dubbing and [adjustScene] runs no dubbing command on it,
    however it ends; under Higgsfield it is dubbed exactly when it has a
    narration file. *)
Theorem X27_scenes_made_with_audio_are_not_dubbed (options : Options)
    (scenes out : list Scene) (calls : list Call) (menv : Media.Env)
    (job : string) :
  o_videoGenerationMode options = None ->
  requestVideos env (constructor env options) scenes = (Ok out, calls) ->
  Forall (fun s =>
            videoStatus s = VCompleted ->
            match default Orchestrator.Veo (o_videoProvider options) with
            | Orchestrator.Veo =>
                VideoManager.needsDubbing s = false
                /\ Media.logsOnly Worlds.notDub (VideoManager.adjustScene menv job s)
            | Orchestrator.Higgsfield =>
                VideoManager.needsDubbing s = JS.truthy_opt (audioPath s)
            end)
         (checkAndDownloadVideos env (constructor env options) out).1.
Proof.
  intros Hmode Hreq.
  destruct (requestVideos_requested env _ _ _ _ Hreq) as [_ H1].
  pose proof (checkAndDownloadVideos_checked env (constructor env options) out) as H2.
  apply List.Forall_forall. intros s'' Hin.
  apply list_elem_of_In, list_elem_of_lookup_1 in Hin as [i Hi].
  destruct (Forall2_lookup_r _ _ _ _ _ H2 Hi) as (s' & Hs' & Hchk).
  destruct (Forall2_lookup_r _ _ _ _ _ H1 Hs') as (s & Hs & Hrq).
  intros Hdone.
  assert (exists job' d p,
            s'' = with_download (with_job s job'
                                   (match videoProvider (constructor env options) with
                                    | Orchestrator.Veo =>
                                        withAudio (constructor env options)
                                    | Orchestrator.Higgsfield => false
                                    end)) p d) as (job' & d & p & ->).
  { destruct Hchk as [-> | [Hgen [[d ->] | [msg ->]]]].
    - destruct Hrq as [[_ ->] | [_ [[j ->] | [msg ->]]]]; discriminate.
    - destruct Hrq as [[_ ->] | [_ [[j ->] | [msg ->]]]]; try discriminate. eauto.
    - discriminate. }
  unfold withAudio, constructor. cbn [videoProvider videoGenerationMode].
  rewrite Hmode.
  destruct (default Orchestrator.Veo (o_videoProvider options)); cbn [default].
  - reflexivity.
  - split; [reflexivity |]. by apply adjustScene_no_dub.
Qed.

End SceneChain.


Section SceneExamples.
Import Core SceneManager.

(** Two scenes of a Veo job, the second without a prompt. *)
Lemma X25_witness :
  Forall2 (requestedFrom (constructor env_up job1))
    [pendingScene 1 (Some "a quiet street") None; pendingScene 2 None None]
    [with_job (pendingScene 1 (Some "a quiet street") None)
       "veo|models/veo-3.1-generate-preview/operations/a1" true;
     with_failure (pendingScene 2 None None) "프롬프트 없음"]
  /\ pending (getScenesSummary
                [with_job (pendingScene 1 (Some "a quiet street") None)
                   "veo|models/veo-3.1-generate-preview/operations/a1" true;
                 with_failure (pendingScene 2 None None) "프롬프트 없음"]) = 0%nat
  /\ completed (getScenesSummary
                  [with_job (pendingScene 1 (Some "a quiet street") None)
                     "veo|models/veo-3.1-generate-preview/operations/a1" true;
                   with_failure (pendingScene 2 None None) "프롬프트 없음"]) = 0%nat
  /\ adjusted (getScenesSummary
                 [with_job (pendingScene 1 (Some "a quiet street") None)
                    "veo|models/veo-3.1-generate-preview/operations/a1" true;
                  with_failure (pendingScene 2 None None) "프롬프트 없음"]) = 0%nat
  /\ (generating (getScenesSummary
                    [with_job (pendingScene 1 (Some "a quiet street") None)
                       "veo|models/veo-3.1-generate-preview/operations/a1" true;
                     with_failure (pendingScene 2 None None) "프롬프트 없음"])
      + failed (getScenesSummary
                  [with_job (pendingScene 1 (Some "a quiet street") None)
                     "veo|models/veo-3.1-generate-preview/operations/a1" true;
                   with_failure (pendingScene 2 None None) "프롬프트 없음"]))%nat
     = length [pendingScene 1 (Some "a quiet street") None; pendingScene 2 None None].
Proof.
  apply (X25_every_scene_is_requested_or_failed env_up (constructor env_up job1)
           [pendingScene 1 (Some "a quiet street") None; pendingScene 2 None None]
           _ (requestVideos env_up (constructor env_up job1)
                [pendingScene 1 (Some "a quiet street") None;
                 pendingScene 2 None None]).2).
  reflexivity.
Defined.

(** A Veo scene with a narration file, requested and collected. *)
Lemma X27_witness :
  Forall (fun s =>
            videoStatus s = VCompleted ->
            VideoManager.needsDubbing s = false
            /\ Media.logsOnly Worlds.notDub
                 (VideoManager.adjustScene Media.env_fine "job1" s))
    (checkAndDownloadVideos env_up (constructor env_up job1)
       [with_job (pendingScene 1 (Some "a quiet street")
                    (Some "/audio/jobs/job1/scene_01.mp3"))
          "veo|models/veo-3.1-generate-preview/operations/a1" true]).1.
Proof.
  apply (X27_scenes_made_with_audio_are_not_dubbed env_up job1
           [pendingScene 1 (Some "a quiet street")
              (Some "/audio/jobs/job1/scene_01.mp3")]
           _ (requestVideos env_up (constructor env_up job1)
                [pendingScene 1 (Some "a quiet street")
                   (Some "/audio/jobs/job1/scene_01.mp3")]).2
           Media.env_fine "job1").
  - reflexivity.
  - reflexivity.
Defined.

(** A failed scene without a prompt, retried. *)
Lemma X28_witness :
  let run := retryScene env_up (constructor env_up job1)
               (with_failure (pendingScene 2 None None) "프롬프트 없음") in
  let arg := run.1.1 in
  JS.truthy_opt (prompt arg) = true
  /\ (JS.truthy_opt (prompt (with_failure (pendingScene 2 None None) "프롬프트 없음"))
      = true ->
      arg = with_failure (pendingScene 2 None None) "프롬프트 없음")
  /\ (exists s', run.1.2 = Ok (Some s')
                 /\ (videoStatus s' = Generating \/ videoStatus s' = VFailed)
                 /\ prompt s' = prompt arg
                 /\ id s' = id (with_failure (pendingScene 2 None None)
                                  "프롬프트 없음"))
  /\ exists request,
       run.2 = [MkdirCall (outputDir (constructor env_up job1)); request]
       /\ (request = RequestVeo
                       (sceneRequest (constructor env_up job1)
                          (with_videoStatus arg VPending))
           \/ request = RequestHiggsfield
                          (sceneRequest (constructor env_up job1)
                             (with_videoStatus arg VPending))).
Proof.
  apply (X28_a_retry_always_sends_a_request env_up (constructor env_up job1)
           (with_failure (pendingScene 2 None None) "프롬프트 없음")).
  reflexivity.
Defined.

End SceneExamples.

(** ** The requests and the polling tick, against the two vendors *)

Section PipelineClaims.
Import Orchestrator Workflow Vendors.

Lemma settled_status (c : ClipInfo) :
  settled c = true <-> status c <> Pending /\ status c <> Processing.
Proof.
  unfold settled. destruct (status c); cbn; split; try done.
  - intros [H _]. by destruct H.
  - intros [_ H]. by destruct H.
Qed.

Lemma polledTo_pollable (c c' : ClipInfo) :
  polledTo c c' -> pollable c = true -> pollable c' = true.
Proof.
  intros [_ H] Hp. unfold pollable in *.
  destruct H as [-> | [(_ & Hs & _) | (_ & Hs & _)]]; [exact Hp | |];
    unfold settled; rewrite Hs; reflexivity.
Qed.

Lemma tick_keeps_pollable (cs cs' : list ClipInfo) :
  Forall2 polledTo cs cs' ->
  Forall (fun c => pollable c = true) cs -> Forall (fun c => pollable c = true) cs'.
Proof.
  induction 1 as [| c c' cs cs' Hc _ IH]; intros Hall; [constructor |].
  inversion_clear Hall as [| ? ? Hp Hrest].
  constructor; [by apply (polledTo_pollable c) | by apply IH].
Qed.

(** Either client names the job it accepted: the id is never empty. *)
Lemma submit_job_truthy cfg veo fetch storage rq job :
  submit (Vendors.env cfg veo fetch storage) rq = Ok job -> JS.truthy job = true.
Proof.
  unfold submit. destruct (rq_provider rq); cbn [Vendors.env
    Orchestrator.requestVeoVideo Orchestrator.requestHiggsfieldVideo].
  - unfold requestHiggsfieldVideo.
    destruct (getAuthHeaders cfg) as [headers | msg]; [| discriminate].
    destruct (fetch _) as [response | msg]; [| discriminate].
    destruct (ok response); cbn [negb]; [| discriminate].
    destruct (JS.truthy_opt _); cbn [negb]; [| discriminate].
    intros [= <-]. reflexivity.
  - unfold requestVeoVideo.
    destruct (JS.truthy_opt (GOOGLE_AI_API_KEY cfg)); cbn [negb]; [| discriminate].
    destruct (predictLongRunning veo _ _) as [response | msg]; [| discriminate].
    destruct (ok response); cbn [negb]; [| discriminate].
    destruct (JS.truthy_opt _); cbn [negb]; [| discriminate].
    intros [= <-]. reflexivity.
Qed.

Lemma requestOne_pollable cfg veo fetch storage provider model c :
  pollable (requestOne (Vendors.env cfg veo fetch storage) provider model c) = true.
Proof.
  unfold requestOne. destruct (submit _ _) as [job | msg] eqn:E.
  - apply submit_job_truthy in E. unfold pollable.
    cbn [with_request jobId JS.truthy_opt]. rewrite E. apply orb_true_r.
  - reflexivity.
Qed.

(** C6 (as the code has it). On clips that are each done with or waiting
    on a job, [checkAndDownloadClips] returns every clip that is Completed
    or Failed as it is and makes no call about it, and [allCompleted] is
    true exactly when no returned clip is Pending or Processing.  The
    returned clips are again done with or waiting on a job, and so is every
    clip that [requestClipVideos] returns from either vendor. *)
Theorem C6_tick_on_pollable_clips (env : Env) (cs : list ClipInfo) (job : string) :
  Forall (fun c => pollable c = true) cs ->
  let out := checkAndDownloadClips env cs job in
  (forall (i : nat) (c : ClipInfo),
     cs !! i = Some c -> settled c = true -> clips out !! i = Some c)
  /\ Forall (fun e => exists (i : nat) (c : ClipInfo),
               eventClip e = Some i /\ cs !! i = Some c /\ settled c = false)
            (polled out)
  /\ (allCompleted out = true
      <-> Forall (fun c => status c <> Pending /\ status c <> Processing)
                 (clips out))
  /\ Forall (fun c => pollable c = true) (clips out)
  /\ (forall cfg veo fetch storage clips provider model,
        Forall (fun c => pollable c = true)
               (requestClipVideos (Vendors.env cfg veo fetch storage)
                  clips provider model).1).
Proof.
  intros Hp out.
  destruct (checkAndDownloadClips_skips_settled env cs job) as [Hskip Hcalls].
  destruct (tick_spec env cs job) as (n & Hto & E & H1 & H2 & _).
  split; [exact Hskip |]. split; [exact Hcalls |]. split; [| split].
  - unfold out. rewrite E. split.
    + intros Hn. apply Nat.eqb_eq in Hn.
      eapply Forall_impl; [exact (H2 Hn Hp) |]. intros c. apply settled_status.
    + intros Hall. apply Nat.eqb_eq. apply H1.
      eapply Forall_impl; [exact Hall |]. intros c. apply settled_status.
  - exact (tick_keeps_pollable _ _ Hto Hp).
  - intros cfg veo fetch storage clips0 provider model.
    rewrite requestClipVideos_spec. cbn [fst].
    apply Forall_fmap, Forall_true. intros c. apply requestOne_pollable.
Qed.

(** C8 (as the code has it). [requestClipVideos] makes one request per
    clip.  Asked of Veo, the request body carries [durationSeconds], the
    clip's duration clamped into [4, 8]; when the submit succeeds the clip
    record carries that clamped duration, and when it throws the record
    keeps its duration and is marked Failed.  Asked of Higgsfield, the
    clip's duration is passed on as it stands and goes no further: the call
    that leaves is the same whatever the duration, and the record keeps its
    duration.  [SceneManager.requestVideos] makes the requests of
    [requestScene]; the one for a scene with a prompt asks for the whole
    number of seconds [max(4, min(8, round(audio seconds)))], which is what
    the Veo body carries, and leaves the scene's narration length as it
    is. *)
Theorem C8_submitted_duration (cfg : Config) (veo : VeoApi)
    (fetch : HiggsfieldCall -> Result (Response HiggsfieldStatus))
    (storage : Env) (clips : list ClipInfo) (model : string)
    (i : nat) (c : ClipInfo) :
  clips !! i = Some c ->
  let env := Vendors.env cfg veo fetch storage in
  (let rq := buildRequest Veo model c in
   let out := requestClipVideos env clips Veo model in
   out.2 !! i = Some (Submitted rq)
   /\ vb_durationSeconds (veoBody rq) = Some (JS.clamp 4 8 (duration c))
   /\ 4 <= JS.clamp 4 8 (duration c) <= 8
   /\ (forall job, requestVeoVideo cfg veo rq = Ok job ->
       out.1 !! i = Some (with_request c (JS.clamp 4 8 (duration c)) job))
   /\ (forall msg, requestVeoVideo cfg veo rq = Throw msg ->
       out.1 !! i = Some (with_status c Failed)))
  /\ (let rq := buildRequest Higgsfield model c in
      let out := requestClipVideos env clips Higgsfield model in
      out.2 !! i = Some (Submitted rq)
      /\ rq_duration rq = duration c
      /\ (forall headers rq',
            rq_prompt rq' = rq_prompt rq -> rq_model rq' = rq_model rq ->
            rq_aspectRatio rq' = rq_aspectRatio rq ->
            higgsfieldCall headers rq' = higgsfieldCall headers rq)
      /\ (forall job, requestHiggsfieldVideo cfg fetch rq = Ok job ->
          out.1 !! i = Some (with_request c (duration c) job))
      /\ (forall msg, requestHiggsfieldVideo cfg fetch rq = Throw msg ->
          out.1 !! i = Some (with_status c Failed)))
  /\ (forall (senv : SceneManager.Env) (this : SceneManager.Manager)
             (scenes : list Core.Scene),
        SceneManager.mkdir senv (SceneManager.outputDir this) = Ok tt ->
        SceneManager.requestVideos senv this scenes
        = (Ok (map (fun s => (SceneManager.requestScene senv this s).1) scenes),
           SceneManager.MkdirCall (SceneManager.outputDir this)
           :: concat (map (fun s => (SceneManager.requestScene senv this s).2)
                          scenes)))
  /\ (forall (senv : SceneManager.Env) (this : SceneManager.Manager)
             (scene : Core.Scene),
        JS.truthy_opt (Core.prompt scene) = true ->
        let rq := SceneManager.sceneRequest this scene in
        let t := targetDurationSec (Core.audioDurationMs scene) in
        (SceneManager.requestScene senv this scene).2
        = [match SceneManager.videoProvider this with
           | Veo => SceneManager.RequestVeo rq
           | Higgsfield => SceneManager.RequestHiggsfield rq
           end]
        /\ rq_duration rq = inject_Z t
        /\ (4 <= t <= 8)%Z
        /\ (SceneManager.videoProvider this = Veo ->
            vb_durationSeconds (veoBody rq) = Some (inject_Z t))
        /\ Core.audioDurationMs (SceneManager.requestScene senv this scene).1
           = Core.audioDurationMs scene).
Proof.
  intros Hi env. split; [| split; [| split]].
  - cbv zeta. rewrite requestClipVideos_spec. cbn [fst snd].
    rewrite !list_lookup_fmap, Hi. cbn [fmap option_fmap option_map].
    split; [reflexivity |].
    pose proof (veo_duration_in_range c) as [H1 H2].
    change (requestedDuration Veo c) with (JS.clamp 4 8 (duration c)) in H1, H2.
    split; [| split; [by split |]].
    + unfold veoBody, buildRequest. cbn [rq_duration].
      change (requestedDuration Veo c) with (JS.clamp 4 8 (duration c)).
      destruct (Qeq_bool (JS.clamp 4 8 (duration c)) 0) eqn:E; [| reflexivity].
      apply Qeq_bool_iff in E. rewrite E in H1. exfalso. revert H1.
      apply Qlt_not_le. reflexivity.
    + split.
      * intros job Hs. unfold requestOne, submit.
        cbn [buildRequest rq_provider env Vendors.env Orchestrator.requestVeoVideo].
        fold (buildRequest Veo model c). by rewrite Hs.
      * intros msg Hs. unfold requestOne, submit.
        cbn [buildRequest rq_provider env Vendors.env Orchestrator.requestVeoVideo].
        fold (buildRequest Veo model c). by rewrite Hs.
  - cbv zeta. rewrite requestClipVideos_spec. cbn [fst snd].
    rewrite !list_lookup_fmap, Hi. cbn [fmap option_fmap option_map].
    split; [reflexivity |]. split; [reflexivity |]. split; [| split].
    + intros headers rq' Hp Hm Ha. unfold higgsfieldCall. by rewrite Hp, Hm, Ha.
    + intros job Hs. unfold requestOne, submit.
      cbn [buildRequest rq_provider env Vendors.env
           Orchestrator.requestHiggsfieldVideo].
      fold (buildRequest Higgsfield model c). by rewrite Hs.
    + intros msg Hs. unfold requestOne, submit.
      cbn [buildRequest rq_provider env Vendors.env
           Orchestrator.requestHiggsfieldVideo].
      fold (buildRequest Higgsfield model c). by rewrite Hs.
  - intros senv this scenes Hmk. unfold SceneManager.requestVideos. rewrite Hmk.
    rewrite sceneRequestLoop_spec. reflexivity.
  - intros senv this scene Hprompt rq t.
    pose proof (targetDurationSec_in_range (Core.audioDurationMs scene)) as Ht.
    fold t in Ht.
    assert (rq_duration rq = inject_Z t) as Hd
      by (unfold rq, SceneManager.sceneRequest;
          by destruct (SceneManager.videoProvider this)).
    split; [| split; [exact Hd | split; [exact Ht | split]]].
    + unfold SceneManager.requestScene. rewrite Hprompt. cbn [negb]. fold rq.
      by destruct (SceneManager.videoProvider this).
    + intros _. unfold veoBody. rewrite Hd.
      destruct (Qeq_bool (inject_Z t) 0) eqn:E; [| reflexivity].
      apply Qeq_bool_iff in E. apply (proj1 (inject_Z_injective t 0)) in E. lia.
    + unfold SceneManager.requestScene. rewrite Hprompt. cbn [negb].
      destruct (SceneManager.videoProvider this); cbn [fst];
        [destruct (SceneManager.requestHiggsfieldVideo senv _)
        | destruct (SceneManager.requestVeoVideo senv _)]; reflexivity.
Qed.

End PipelineClaims.

Section PipelineClaimsExamples.
Import Orchestrator Workflow Vendors.

(** A Failed clip and a clip that waits on a Veo job. *)
Lemma C6_witness :
  let cs := [with_status (freshClip 0 "A." 8) Failed;
             requestedClip 1 "B." 8
               "veo|models/veo-3.1-generate-preview/operations/a1"] in
  let out := checkAndDownloadClips env_up cs "job1" in
  (forall (i : nat) (c : ClipInfo),
     cs !! i = Some c -> settled c = true -> clips out !! i = Some c)
  /\ Forall (fun e => exists (i : nat) (c : ClipInfo),
               eventClip e = Some i /\ cs !! i = Some c /\ settled c = false)
            (polled out)
  /\ (allCompleted out = true
      <-> Forall (fun c => status c <> Pending /\ status c <> Processing)
                 (clips out))
  /\ Forall (fun c => pollable c = true) (clips out)
  /\ (forall cfg veo fetch storage clips provider model,
        Forall (fun c => pollable c = true)
               (requestClipVideos (Vendors.env cfg veo fetch storage)
                  clips provider model).1).
Proof.
  apply (C6_tick_on_pollable_clips env_up
           [with_status (freshClip 0 "A." 8) Failed;
            requestedClip 1 "B." 8
              "veo|models/veo-3.1-generate-preview/operations/a1"] "job1").
  repeat constructor.
Defined.

(** C6 (counterexample). A clip that was never given a job id is counted
    as failed but is returned with its status untouched: the tick reports
    [allCompleted = true] although the returned array still holds a Pending
    clip, and nothing was polled. *)
Lemma C6_counterexample :
  let c := freshClip 0 "A." 8 in
  let out := checkAndDownloadClips env_up [c] "job1" in
  clips out = [c]
  /\ polled out = []
  /\ status c = Pending
  /\ allCompleted out = true
  /\ ~ (allCompleted out = true
        <-> Forall (fun c => status c <> Pending /\ status c <> Processing)
                   (clips out)).
Proof.
  cbv zeta. split; [reflexivity |]. split; [reflexivity |].
  split; [reflexivity |]. split; [reflexivity |].
  intros [H _]. specialize (H eq_refl).
  inversion H as [| ? ? [Hp _] _]. by apply Hp.
Qed.

(** Three sentences spoken in 18 seconds, cut for Higgsfield (target 10,
    limits 4 and 10): one clip of 10 seconds.  Veo is sent 8 seconds and the
    record is set to 8; Higgsfield is handed the 10 seconds and the record
    keeps them. *)
Lemma C8_witness :
  let env := Vendors.env cfg_set veo_done higgsfield_done env_up in
  let clips :=
    initializeClipsFromSections asciiText
      (Segmenter.splitScriptWithDurations (Segmenter.ofString "A. B. C.")
         18 10 4 10) in
  exists c veoJob higgsfieldJob,
    clips = [c]
    /\ duration c == 10
    /\ vb_durationSeconds (veoBody (buildRequest Veo "veo-3.1" c))
       = Some (JS.clamp 4 8 (duration c))
    /\ JS.clamp 4 8 (duration c) == 8
    /\ (requestClipVideos env clips Veo "veo-3.1").1 !! 0%nat
       = Some (with_request c (JS.clamp 4 8 (duration c)) veoJob)
    /\ rq_duration (buildRequest Higgsfield "kling-2.6" c) = duration c
    /\ (requestClipVideos env clips Higgsfield "kling-2.6").1 !! 0%nat
       = Some (with_request c (duration c) higgsfieldJob).
Proof.
  intros env clips.
  destruct (clips !! 0%nat) as [c |] eqn:Hc; [| vm_compute in Hc; discriminate].
  destruct (C8_submitted_duration cfg_set veo_done higgsfield_done env_up
              clips "veo-3.1" 0 c Hc)
    as ((_ & Hbody & _ & Hveo & _) & _).
  destruct (C8_submitted_duration cfg_set veo_done higgsfield_done env_up
              clips "kling-2.6" 0 c Hc)
    as (_ & (_ & Hpass & _ & Hhf & _) & _).
  exists c, "veo|models/veo-3.1-generate-preview/operations/a1", "higgsfield|r1".
  assert (clips = [c]) as Hclips.
  { revert Hc. vm_compute. by intros [= <-]. }
  split; [exact Hclips |].
  assert (duration c == 10) as Hd.
  { revert Hc. vm_compute. by intros [= <-]. }
  split; [exact Hd |]. split; [exact Hbody |].
  split; [rewrite clamp_compat by exact Hd; reflexivity |].
  split; [apply Hveo; reflexivity |].
  split; [exact Hpass |]. apply Hhf. reflexivity.
Defined.

(** C8 (counterexample). The Higgsfield route cuts the script with the
    limits 4 and 10.  A sentence spoken in one second is a clip of 4
    seconds, and [requestClipVideos] hands Higgsfield these 4 seconds as
    they are, under the 5 to 10 seconds of that class of vendor; three
    sentences spoken in 18 seconds are a clip of 10 seconds, handed on as
    10; and the call that leaves is the same for both: it carries no
    duration at all. *)
Lemma C8_counterexample :
  let env := Vendors.env cfg_set veo_done higgsfield_done env_up in
  let short :=
    initializeClipsFromSections asciiText
      (Segmenter.splitScriptWithDurations (Segmenter.ofString "A.") 1 10 4 10) in
  let long :=
    initializeClipsFromSections asciiText
      (Segmenter.splitScriptWithDurations (Segmenter.ofString "A. B. C.")
         18 10 4 10) in
  exists rq4 rq10,
    (requestClipVideos env short Higgsfield "kling-2.6").2 = [Submitted rq4]
    /\ (requestClipVideos env long Higgsfield "kling-2.6").2 = [Submitted rq10]
    /\ rq_duration rq4 == 4
    /\ ~ 5 <= rq_duration rq4
    /\ rq_duration rq10 == 10
    /\ ~ rq_duration rq10 <= 8
    /\ higgsfieldCall "Key id:secret" rq4 = higgsfieldCall "Key id:secret" rq10
    /\ map duration (requestClipVideos env short Higgsfield "kling-2.6").1
       = [rq_duration rq4].
Proof.
  cbv zeta. eexists _, _.
  split; [vm_compute; reflexivity |]. split; [vm_compute; reflexivity |].
  split; [vm_compute; reflexivity |].
  split; [apply Qlt_not_le; vm_compute; reflexivity |].
  split; [vm_compute; reflexivity |].
  split; [apply Qlt_not_le; vm_compute; reflexivity |].
  split; vm_compute; reflexivity.
Qed.

End PipelineClaimsExamples.
(** ** The segments of the narration *)

Section SegmentFacts.
Import Segmenter AudioSegments.

Lemma chars_add (a b : nat) : chars (a + b) == chars a + chars b.
Proof. unfold chars. rewrite Nat2Z.inj_add, inject_Z_plus. reflexivity. Qed.

Lemma chars_nonneg (a : nat) : 0 <= chars a.
Proof.
  unfold chars. change 0 with (inject_Z 0). rewrite <- Zle_Qle. lia.
Qed.

Lemma tiles_to (a b b' : Q) (l : list AudioSegment) :
  b == b' -> tiles a b l -> tiles a b' l.
Proof.
  intros E. revert a. induction l as [| s l IH]; intros a; cbn [tiles].
  - intros H. by rewrite H.
  - intros (H1 & H2 & H3 & H4). auto.
Qed.

Lemma tiles_snoc (a b : Q) (l : list AudioSegment) (s : AudioSegment) :
  tiles a b l ->
  startTime s == b -> b <= endTime s -> duration s == endTime s - startTime s ->
  tiles a (endTime s) (l ++ [s]).
Proof.
  revert a. induction l as [| x l IH]; intros a; cbn [tiles app].
  - intros E H1 H2 H3. rewrite E. repeat split; try assumption; try reflexivity.
  - intros (G1 & G2 & G3 & G4) H1 H2 H3. repeat split; try assumption. by apply IH.
Qed.

Lemma tiles_from_le (a b : Q) (l : list AudioSegment) : tiles a b l -> a <= b.
Proof.
  revert a. induction l as [| s l IH]; intros a; cbn [tiles].
  - intros ->. lra.
  - intros (_ & H2 & _ & H4). apply IH in H4. lra.
Qed.

Lemma mergeShortLast_tiles (l : list AudioSegment) :
  forall a b, tiles a b l -> tiles a b (mergeShortLast l).
Proof.
  induction l as [| x l IH]; intros a b; [done |].
  destruct l as [| y l]; [done |].
  destruct l as [| z l].
  - cbn [mergeShortLast].
    destruct (JS.ltb (duration y) 3 && _); [| done].
    cbn [tiles mergeTwo startTime endTime duration].
    intros (H1 & H2 & H3 & H4 & H5 & H6 & H7).
    repeat split; try assumption; lra.
  - change (mergeShortLast (x :: y :: z :: l))
      with (x :: mergeShortLast (y :: z :: l)).
    cbn [tiles]. intros (H1 & H2 & H3 & H4). repeat split; try assumption.
    by apply IH.
Qed.

Lemma mergeShortLast_indices (l : list AudioSegment) :
  forall k, map index l = seq k (length l) ->
            map index (mergeShortLast l) = seq k (length (mergeShortLast l)).
Proof.
  induction l as [| x l IH]; intros k; [done |].
  destruct l as [| y l]; [done |].
  destruct l as [| z l].
  - cbn [mergeShortLast]. destruct (JS.ltb (duration y) 3 && _); [| done].
    cbn. by intros [= -> _].
  - change (mergeShortLast (x :: y :: z :: l))
      with (x :: mergeShortLast (y :: z :: l)).
    cbn [map length seq]. intros [= E H H1 H2]. rewrite E. f_equal. apply IH.
    cbn. by rewrite H, H1, H2.
Qed.

Lemma mergeShortLast_bound (l : list AudioSegment) :
  Forall (fun s => duration s <= MAX_SEGMENT_DURATION) l ->
  Forall (fun s => duration s <= MAX_SEGMENT_DURATION) (mergeShortLast l).
Proof.
  induction l as [| x l IH]; [done |].
  destruct l as [| y l]; [done |].
  destruct l as [| z l].
  - cbn [mergeShortLast].
    destruct (JS.ltb (duration y) 3 && _) eqn:E; [| done].
    intros _. apply andb_true_iff in E as [_ E]. apply ltb_true in E.
    repeat constructor. cbn. lra.
  - change (mergeShortLast (x :: y :: z :: l))
      with (x :: mergeShortLast (y :: z :: l)).
    intros H. inversion_clear H. constructor; [assumption | by apply IH].
Qed.

Lemma totalChars_from (l : list jsstring) :
  forall n, foldl (fun sum s => (sum + length s)%nat) n l = (n + totalChars l)%nat.
Proof.
  unfold totalChars. induction l as [| s l IH]; intros n; cbn [foldl]; [lia |].
  rewrite IH, (IH (0 + length s)%nat). lia.
Qed.

Lemma totalChars_cons (s : jsstring) (l : list jsstring) :
  totalChars (s :: l) = (length s + totalChars l)%nat.
Proof. unfold totalChars at 1. cbn [foldl]. by rewrite totalChars_from. Qed.

Section Loop.
Variables (cps D target : Q).
Hypothesis cps_pos : 0 < cps.

Lemma secs_nonneg (n : nat) : 0 <= chars n / cps.
Proof. apply Qle_shift_div_l; [exact cps_pos |]. pose proof (chars_nonneg n). lra. Qed.

Lemma secs_0 : chars 0 / cps == 0.
Proof. unfold Qdiv. change (chars 0) with 0. apply Qmult_0_l. Qed.

Lemma secs_add (a b : nat) : chars (a + b) / cps == chars a / cps + chars b / cps.
Proof. rewrite chars_add. field. lra. Qed.

Lemma push_tiles (st : Loop) (dur upto : Q) :
  tiles 0 (currentStartTime st) (segments st) ->
  map index (segments st) = seq 0 (segmentIndex st) ->
  0 <= dur ->
  currentStartTime st + dur == upto ->
  upto <= D ->
  tiles 0 (currentStartTime (push D st dur)) (segments (push D st dur))
  /\ map index (segments (push D st dur)) = seq 0 (segmentIndex (push D st dur))
  /\ currentStartTime (push D st dur) == upto
  /\ currentChars (push D st dur) = 0%nat.
Proof.
  intros Ht Hi Hd Hu HD. unfold push.
  cbn [segments currentStartTime segmentIndex currentChars].
  assert (Qmin (currentStartTime st + dur) D == currentStartTime st + dur) as Em
    by (apply Q.min_l; lra).
  split; [| split; [| split; [lra | reflexivity]]].
  - match goal with |- tiles 0 ?e (_ ++ [?s]) =>
      change e with (endTime s); apply (tiles_snoc 0 (currentStartTime st)) end;
      cbn; try reflexivity; try lra; try exact Ht.
  - rewrite map_app, Hi, seq_S. reflexivity.
Qed.

Lemma push_bound (st : Loop) (dur : Q) :
  Forall (fun s => duration s <= MAX_SEGMENT_DURATION) (segments st) ->
  dur <= MAX_SEGMENT_DURATION ->
  Forall (fun s => duration s <= MAX_SEGMENT_DURATION) (segments (push D st dur)).
Proof.
  intros Hb Hd. unfold push. cbn [segments]. apply Forall_app. split; [exact Hb |].
  repeat constructor. cbn [duration].
  pose proof (Q.le_min_l (currentStartTime st + dur) D). lra.
Qed.

Lemma turn_tiles (sentence : jsstring) (isLast : bool) (st : Loop) (consumed : nat) :
  tiles 0 (currentStartTime st) (segments st) ->
  map index (segments st) = seq 0 (segmentIndex st) ->
  currentStartTime st + chars (currentChars st) / cps == chars consumed / cps ->
  chars (consumed + length sentence) / cps <= D ->
  let st' := turn cps D target sentence isLast st in
  tiles 0 (currentStartTime st') (segments st')
  /\ map index (segments st') = seq 0 (segmentIndex st')
  /\ currentStartTime st' + chars (currentChars st') / cps
     == chars (consumed + length sentence) / cps
  /\ (isLast = true -> currentChars st' = 0%nat).
Proof.
  intros Ht Hi Hc HD. cbv zeta. unfold turn.
  pose proof (secs_add consumed (length sentence)) as Ea.
  pose proof (secs_nonneg (length sentence)) as Hs.
  set (st1 := if (0 <? currentChars st)%nat && _ then _ else st).
  assert (tiles 0 (currentStartTime st1) (segments st1)
          /\ map index (segments st1) = seq 0 (segmentIndex st1)
          /\ currentStartTime st1 + chars (currentChars st1) / cps
             == chars consumed / cps) as (Ht1 & Hi1 & Hc1).
  { unfold st1. destruct ((0 <? currentChars st)%nat && _); [| by repeat split].
    destruct (push_tiles st (chars (currentChars st) / cps) (chars consumed / cps)
                Ht Hi (secs_nonneg _) Hc ltac:(lra)) as (P1 & P2 & P3 & P4).
    split; [exact P1 |]. split; [exact P2 |]. rewrite P3, P4, secs_0. lra. }
  clearbody st1.
  set (st2 := {| segments := segments st1; currentText := _;
                 currentStartTime := currentStartTime st1;
                 currentChars := currentChars st1 + length sentence;
                 segmentIndex := segmentIndex st1 |}).
  assert (currentStartTime st2 + chars (currentChars st2) / cps
          == chars (consumed + length sentence) / cps) as Hc2.
  { unfold st2. cbn [currentStartTime currentChars]. rewrite secs_add. lra. }
  assert (tiles 0 (currentStartTime st2) (segments st2)) as Ht2 by exact Ht1.
  assert (map index (segments st2) = seq 0 (segmentIndex st2)) as Hi2 by exact Hi1.
  clearbody st2.
  assert (let st3 := push D st2 (chars (currentChars st2) / cps) in
          tiles 0 (currentStartTime st3) (segments st3)
          /\ map index (segments st3) = seq 0 (segmentIndex st3)
          /\ currentStartTime st3 + chars (currentChars st3) / cps
             == chars (consumed + length sentence) / cps
          /\ currentChars st3 = 0%nat) as Hpush.
  { cbv zeta.
    destruct (push_tiles st2 (chars (currentChars st2) / cps)
                (chars (consumed + length sentence) / cps)
                Ht2 Hi2 (secs_nonneg _) Hc2 HD) as (P1 & P2 & P3 & P4).
    split; [exact P1 |]. split; [exact P2 |]. split; [| exact P4].
    rewrite P3, P4, secs_0. lra. }
  cbv zeta in Hpush. destruct Hpush as (P1 & P2 & P3 & P4).
  destruct (Qle_bool target _ || isLast) eqn:E1.
  - destruct (negb isLast && _) eqn:E2.
    + split; [exact Ht2 |]. split; [exact Hi2 |]. split; [exact Hc2 |].
      intros ->. discriminate E2.
    + repeat split; assumption.
  - split; [exact Ht2 |]. split; [exact Hi2 |]. split; [exact Hc2 |].
    intros ->. rewrite orb_true_r in E1. discriminate.
Qed.

Lemma turn_bound (sentence : jsstring) (isLast : bool) (st : Loop) :
  Forall (fun s => duration s <= MAX_SEGMENT_DURATION) (segments st) ->
  chars (currentChars st) / cps <= MAX_SEGMENT_DURATION ->
  chars (length sentence) / cps <= MAX_SEGMENT_DURATION ->
  let st' := turn cps D target sentence isLast st in
  Forall (fun s => duration s <= MAX_SEGMENT_DURATION) (segments st')
  /\ chars (currentChars st') / cps <= MAX_SEGMENT_DURATION.
Proof.
  intros Hb Hcur Hsen. cbv zeta. unfold turn.
  set (st1 := if (0 <? currentChars st)%nat && _ then _ else st).
  assert (Forall (fun s => duration s <= MAX_SEGMENT_DURATION) (segments st1)
          /\ chars (currentChars st1 + length sentence) / cps
             <= MAX_SEGMENT_DURATION) as [Hb1 Hc1].
  { unfold st1. destruct (0 <? currentChars st)%nat eqn:E0; cbn [andb].
    - destruct (JS.gtb _ MAX_SEGMENT_DURATION) eqn:E1.
      + split; [by apply push_bound |]. cbn [push currentChars]. exact Hsen.
      + split; [exact Hb |]. by apply ltb_false in E1.
    - split; [exact Hb |]. apply Nat.ltb_ge in E0.
      replace (currentChars st) with 0%nat by lia. exact Hsen. }
  clearbody st1.
  set (st2 := {| segments := segments st1; currentText := _;
                 currentStartTime := currentStartTime st1;
                 currentChars := currentChars st1 + length sentence;
                 segmentIndex := segmentIndex st1 |}).
  assert (Forall (fun s => duration s <= MAX_SEGMENT_DURATION)
            (segments (push D st2 (chars (currentChars st2) / cps)))) as Hp
    by (apply push_bound; [exact Hb1 | exact Hc1]).
  assert (chars 0 / cps <= MAX_SEGMENT_DURATION) as H0
    by (rewrite secs_0; discriminate).
  destruct (Qle_bool target _ || isLast); [destruct (negb isLast && _) |];
    (split; [first [exact Hp | exact Hb1] | first [exact H0 | exact Hc1]]).
Qed.

Lemma loop_tiles (sentences : list jsstring) :
  forall (st : Loop) (consumed : nat),
    sentences <> [] ->
    tiles 0 (currentStartTime st) (segments st) ->
    map index (segments st) = seq 0 (segmentIndex st) ->
    currentStartTime st + chars (currentChars st) / cps == chars consumed / cps ->
    chars (consumed + totalChars sentences) / cps == D ->
    let st' := loop cps D target sentences st in
    tiles 0 D (segments st')
    /\ map index (segments st') = seq 0 (length (segments st')).
Proof.
  induction sentences as [| s rest IH]; intros st consumed Hne Ht Hi Hc HD; [done |].
  cbn [loop]. rewrite totalChars_cons in HD.
  assert (chars (consumed + length s) / cps <= D) as Hle.
  { rewrite <- HD. rewrite Nat.add_assoc, (secs_add (consumed + length s)).
    pose proof (secs_nonneg (totalChars rest)). lra. }
  destruct (turn_tiles s (match rest with [] => true | _ => false end) st consumed
              Ht Hi Hc Hle) as (T1 & T2 & T3 & T4).
  destruct rest as [| s2 rest'].
  - cbn [loop]. cbv zeta.
    rewrite (T4 eq_refl) in T3.
    split.
    + eapply tiles_to; [| exact T1].
      replace (consumed + (length s + totalChars []))%nat
        with (consumed + length s)%nat in HD by (cbn; lia).
      rewrite secs_0 in T3. lra.
    + rewrite T2. f_equal. apply (f_equal (@length nat)) in T2.
      by rewrite length_map, length_seq in T2.
  - apply (IH _ (consumed + length s)%nat); try assumption; [done |].
    by rewrite <- Nat.add_assoc.
Qed.

Lemma loop_bound (sentences : list jsstring) :
  forall st : Loop,
    Forall (fun s => chars (length s) / cps <= MAX_SEGMENT_DURATION) sentences ->
    Forall (fun s => duration s <= MAX_SEGMENT_DURATION) (segments st) ->
    chars (currentChars st) / cps <= MAX_SEGMENT_DURATION ->
    Forall (fun s => duration s <= MAX_SEGMENT_DURATION)
           (segments (loop cps D target sentences st)).
Proof.
  induction sentences as [| s rest IH]; intros st Hs Hb Hc; [exact Hb |].
  inversion_clear Hs as [| ? ? H1 H2]. cbn [loop].
  destruct (turn_bound s (match rest with [] => true | _ => false end) st Hb Hc H1)
    as [B1 B2].
  by apply IH.
Qed.

End Loop.

Lemma sentencesOf_nonempty (script : jsstring) :
  Forall (fun s => (0 < length s)%nat) (sentencesOf script).
Proof.
  unfold sentencesOf. apply List.Forall_forall. intros s Hin.
  by apply list_elem_of_In, list_elem_of_filter in Hin as [H _].
Qed.

Lemma tiles_follows (l : list AudioSegment) :
  forall a b, tiles a b l -> follows a b l.
Proof.
  induction l as [| s l IH]; intros a b; cbn [tiles follows]; [done |].
  intros (H1 & H2 & _ & H4). pose proof (tiles_from_le _ _ _ H4).
  repeat split; try assumption. by apply IH.
Qed.

Lemma tiles_last (l : list AudioSegment) :
  forall a b, tiles a b l -> l <> [] -> exists s, last l = Some s /\ endTime s == b.
Proof.
  induction l as [| s l IH]; intros a b; [done |].
  cbn [tiles]. intros (_ & _ & _ & H4) _. destruct l as [| x l].
  - exists s. split; [reflexivity |]. exact H4.
  - destruct (IH _ _ H4) as (z & Hz & Ez); [done |]. exists z. by split.
Qed.

Lemma tiles_durations (l : list AudioSegment) :
  forall a b, tiles a b l ->
              Forall (fun s => duration s == endTime s - startTime s) l.
Proof.
  induction l as [| s l IH]; intros a b; cbn [tiles]; [constructor |].
  intros (_ & _ & H3 & H4). constructor; [exact H3 | by eapply IH].
Qed.

(** X29. The segments follow one another through the narration.  For a
    script with at least one sentence and a narration of positive length,
    [splitScriptToSegments] returns at least one segment; the segments are
    numbered from 0, the first starts at 0, each starts where the one
    before it ends, none ends before it starts or after the total duration,
    and the last ends at the total duration.  Each lasts from its start to
    its end, and when no single sentence is spoken for more than 8.9
    seconds, no segment lasts more than 8.9 seconds.  (The last three to
    within a millisecond: the code adds and subtracts doubles, and its sums
    can fall an instant off.) *)
Theorem X29_segments_follow_one_another (script : jsstring) (totalDuration : Q)
    (targetSegmentDuration : option Q) :
  0 < totalDuration ->
  sentencesOf script <> [] ->
  let out := splitScriptToSegments script totalDuration targetSegmentDuration in
  let charsPerSecond := chars (totalChars (sentencesOf script)) / totalDuration in
  out <> []
  /\ map index out = seq 0 (length out)
  /\ follows 0 totalDuration out
  /\ (exists s, last out = Some s /\ Qabs (endTime s - totalDuration) <= 1 # 1000)
  /\ Forall (fun s => Qabs (duration s - (endTime s - startTime s)) <= 1 # 1000) out
  /\ (Forall (fun s => chars (length s) / charsPerSecond <= MAX_SEGMENT_DURATION)
             (sentencesOf script) ->
      Forall (fun s => duration s <= MAX_SEGMENT_DURATION + (1 # 1000)) out).
Proof.
  intros HD Hne. cbv zeta. unfold splitScriptToSegments.
  destruct (sentencesOf script) as [| s0 rest] eqn:Es; [done |].
  cbn [length Nat.eqb]. rewrite <- Es in *.
  assert (0 < totalChars (sentencesOf script))%nat as Hchars.
  { pose proof (sentencesOf_nonempty script) as Hn. rewrite Es in *.
    inversion_clear Hn. rewrite totalChars_cons. lia. }
  assert (0 < chars (totalChars (sentencesOf script))) as Hc.
  { unfold chars. change 0 with (inject_Z 0). rewrite <- Zlt_Qlt. lia. }
  set (cps := chars (totalChars (sentencesOf script)) / totalDuration).
  assert (0 < cps) as Hcps by (apply Qlt_shift_div_l; lra).
  set (st0 := {| segments := []; currentText := []; currentStartTime := 0;
                 currentChars := 0; segmentIndex := 0 |}).
  destruct (loop_tiles cps totalDuration (default 7 targetSegmentDuration) Hcps
              (sentencesOf script) st0 0%nat) as [T1 T2].
  - by rewrite Es.
  - cbn. reflexivity.
  - reflexivity.
  - cbn. reflexivity.
  - cbn [Nat.add]. unfold cps. field. split; lra.
  - apply mergeShortLast_tiles in T1. apply mergeShortLast_indices in T2.
    assert (Forall (fun s => chars (length s) / cps <= MAX_SEGMENT_DURATION)
                   (sentencesOf script) ->
            Forall (fun s => duration s <= MAX_SEGMENT_DURATION)
                   (mergeShortLast
                      (segments (loop cps totalDuration
                                      (default 7 targetSegmentDuration)
                                      (sentencesOf script) st0)))) as Hbound.
    { intros Hs. apply mergeShortLast_bound. apply loop_bound; try assumption.
      - constructor.
      - cbn [currentChars st0]. rewrite secs_0. discriminate. }
    set (out := mergeShortLast _) in *. clearbody out.
    assert (out <> []) as Hout.
    { intros ->. cbn [tiles] in T1. lra. }
    split; [exact Hout |]. split; [exact T2 |].
    split; [by apply tiles_follows |]. split; [| split].
    + destruct (tiles_last _ _ _ T1 Hout) as (z & Hz & Ez). exists z.
      split; [exact Hz |].
      assert (endTime z - totalDuration == 0) as -> by lra. discriminate.
    + eapply Forall_impl; [exact (tiles_durations _ _ _ T1) |].
      intros z Ez. cbv beta in Ez.
      assert (duration z - (endTime z - startTime z) == 0) as -> by lra.
      discriminate.
    + intros Hs. eapply Forall_impl; [exact (Hbound Hs) |].
      intros z Hz. cbv beta in Hz. lra.
Qed.

Lemma turn_target (cps D t1 t2 : Q) (sentence : jsstring) (isLast : bool) (st : Loop) :
  t1 <= MAX_SEGMENT_DURATION -> t2 <= MAX_SEGMENT_DURATION ->
  turn cps D t1 sentence isLast st = turn cps D t2 sentence isLast st.
Proof.
  intros H1 H2. unfold turn.
  set (st1 := if (0 <? currentChars st)%nat && _ then _ else st). clearbody st1.
  set (st2 := {| segments := segments st1; currentText := _;
                 currentStartTime := currentStartTime st1;
                 currentChars := currentChars st1 + length sentence;
                 segmentIndex := segmentIndex st1 |}). clearbody st2.
  set (cur := chars (currentChars st2) / cps). clearbody cur.
  destruct isLast; [by rewrite !orb_true_r |]. rewrite !orb_false_r. cbn [negb andb].
  destruct (JS.ltb cur MAX_SEGMENT_DURATION) eqn:E.
  - by destruct (Qle_bool t1 cur), (Qle_bool t2 cur).
  - apply ltb_false in E.
    assert (Qle_bool t1 cur = true) as -> by (apply Qle_bool_iff; lra).
    assert (Qle_bool t2 cur = true) as -> by (apply Qle_bool_iff; lra).
    reflexivity.
Qed.

Lemma loop_target (cps D t1 t2 : Q) (sentences : list jsstring) :
  t1 <= MAX_SEGMENT_DURATION -> t2 <= MAX_SEGMENT_DURATION ->
  forall st, loop cps D t1 sentences st = loop cps D t2 sentences st.
Proof.
  intros H1 H2. induction sentences as [| s rest IH]; intros st; [reflexivity |].
  cbn [loop]. rewrite (turn_target cps D t1 t2) by assumption. apply IH.
Qed.

(** X30. The target segment duration decides nothing as long as it is at
    most 8.9 seconds: a segment is closed when the next sentence would take
    it over 8.9 seconds, when it has reached 8.9 seconds, or at the last
    sentence, so any two targets up to 8.9 - the default 7 and the 8 of the
    route among them - give the same segments. *)
Theorem X30_a_target_up_to_the_maximum_changes_nothing (script : jsstring)
    (totalDuration : Q) (target1 target2 : option Q) :
  default 7 target1 <= MAX_SEGMENT_DURATION ->
  default 7 target2 <= MAX_SEGMENT_DURATION ->
  splitScriptToSegments script totalDuration target1
  = splitScriptToSegments script totalDuration target2.
Proof.
  intros H1 H2. unfold splitScriptToSegments.
  destruct (length (sentencesOf script) =? 0)%nat; [reflexivity |].
  by rewrite (loop_target _ _ (default 7 target1) (default 7 target2)).
Qed.

End SegmentFacts.

Section SegmentExamples.
Import Segmenter AudioSegments.

(** Two sentences spoken in six seconds. *)
Lemma X29_witness :
  let script := ofString "Hello there. How are you?" in
  let out := splitScriptToSegments script 6 None in
  let charsPerSecond := chars (totalChars (sentencesOf script)) / 6 in
  out <> []
  /\ map index out = seq 0 (length out)
  /\ follows 0 6 out
  /\ (exists s, last out = Some s /\ Qabs (endTime s - 6) <= 1 # 1000)
  /\ Forall (fun s => Qabs (duration s - (endTime s - startTime s)) <= 1 # 1000) out
  /\ (Forall (fun s => chars (length s) / charsPerSecond <= MAX_SEGMENT_DURATION)
             (sentencesOf script) ->
      Forall (fun s => duration s <= MAX_SEGMENT_DURATION + (1 # 1000)) out).
Proof.
  apply (X29_segments_follow_one_another (ofString "Hello there. How are you?") 6 None).
  - reflexivity.
  - discriminate.
Defined.

(** The default target and the target of the route. *)
Lemma X30_witness :
  splitScriptToSegments (ofString "Hello there. How are you?") 6 None
  = splitScriptToSegments (ofString "Hello there. How are you?") 6 (Some 8).
Proof.
  apply (X30_a_target_up_to_the_maximum_changes_nothing
           (ofString "Hello there. How are you?") 6 None (Some 8)).
  - discriminate.
  - discriminate.
Defined.

End SegmentExamples.
(** ** The tempo filters *)

Section TempoFacts.
Import Tempo.

Lemma product_app (a b : list Q) : product (a ++ b) == product a * product b.
Proof.
  unfold product. induction a as [| x a IH]; cbn [app fold_right]; [lra |].
  rewrite IH. lra.
Qed.

Lemma pow2_pos (n : nat) : 0 < inject_Z (2 ^ Z.of_nat n).
Proof.
  change 0 with (inject_Z 0). rewrite <- Zlt_Qlt. apply Z.pow_pos_nonneg; lia.
Qed.

Lemma pow2_S (n : nat) :
  inject_Z (2 ^ Z.of_nat (S n)) == 2 * inject_Z (2 ^ Z.of_nat n).
Proof.
  rewrite Nat2Z.inj_succ, Z.pow_succ_r by lia. rewrite inject_Z_mult. reflexivity.
Qed.

Lemma whileAbove_S (fuel : nat) (filters : list Q) (ratio : Q) :
  whileAbove (S fuel) filters ratio
  = if JS.gtb ratio 2 then whileAbove fuel (filters ++ [2]) (ratio / 2)
    else Some (filters, ratio).
Proof. reflexivity. Qed.

Lemma whileBelow_S (fuel : nat) (filters : list Q) (ratio : Q) :
  whileBelow (S fuel) filters ratio
  = if JS.ltb ratio (1 # 2)
    then whileBelow fuel (filters ++ [1 # 2]) (ratio / (1 # 2))
    else Some (filters, ratio).
Proof. reflexivity. Qed.

Lemma whileAbove_ends (fuel : nat) :
  forall (filters : list Q) (ratio : Q),
    0 < ratio ->
    ratio <= 2 * inject_Z (2 ^ Z.of_nat fuel) ->
    exists twos r,
      whileAbove (S fuel) filters ratio = Some (filters ++ twos, r)
      /\ Forall (fun f => f = 2) twos
      /\ product twos * r == ratio
      /\ r <= 2
      /\ (2 < ratio -> 1 < r)
      /\ (ratio <= 2 -> r = ratio /\ twos = []).
Proof.
  induction fuel as [| fuel IH]; intros filters ratio Hpos Hle.
  - cbn [whileAbove]. change (inject_Z (2 ^ Z.of_nat 0)) with 1 in Hle.
    assert (JS.gtb ratio 2 = false) as -> by (apply ltb_false; lra).
    exists [], ratio. rewrite app_nil_r. unfold product. cbn.
    repeat split; try constructor; lra.
  - rewrite whileAbove_S. destruct (JS.gtb ratio 2) eqn:E.
    + apply ltb_true in E. rewrite pow2_S in Hle.
      destruct (IH (filters ++ [2]) (ratio / 2)) as (twos & r & H1 & H2 & H3 & H4 & H5 & H6).
      { apply Qlt_shift_div_l; lra. }
      { apply Qle_shift_div_r; lra. }
      exists (2 :: twos), r. rewrite H1, <- app_assoc. cbn [app].
      split; [reflexivity |]. split; [by constructor |].
      split.
      { unfold product in *. cbn [fold_right]. rewrite <- Qmult_assoc, H3. field. }
      split; [exact H4 |]. split; [| lra].
      intros _. destruct (Qlt_le_dec 2 (ratio / 2)) as [Hb | Hs].
      * by apply H5.
      * destruct (H6 Hs) as [-> _]. apply Qlt_shift_div_l; lra.
    + apply ltb_false in E. exists [], ratio. rewrite app_nil_r. unfold product. cbn.
      repeat split; try constructor; lra.
Qed.

Lemma whileBelow_ends (fuel : nat) :
  forall (filters : list Q) (ratio : Q),
    1 <= ratio * (2 * inject_Z (2 ^ Z.of_nat fuel)) ->
    exists halves r,
      whileBelow (S fuel) filters ratio = Some (filters ++ halves, r)
      /\ Forall (fun f => f = 1 # 2) halves
      /\ product halves * r == ratio
      /\ (1 # 2) <= r
      /\ (ratio < 1 # 2 -> r < 1)
      /\ ((1 # 2) <= ratio -> r = ratio /\ halves = []).
Proof.
  induction fuel as [| fuel IH]; intros filters ratio Hle.
  - cbn [whileBelow]. change (inject_Z (2 ^ Z.of_nat 0)) with 1 in Hle.
    assert (JS.ltb ratio (1 # 2) = false) as -> by (apply ltb_false; lra).
    exists [], ratio. rewrite app_nil_r. unfold product. cbn.
    repeat split; try constructor; lra.
  - rewrite whileBelow_S. destruct (JS.ltb ratio (1 # 2)) eqn:E.
    + apply ltb_true in E. rewrite pow2_S in Hle.
      assert (ratio / (1 # 2) == ratio * 2) as Ed by (field).
      destruct (IH (filters ++ [1 # 2]) (ratio / (1 # 2)))
        as (halves & r & H1 & H2 & H3 & H4 & H5 & H6).
      { rewrite Ed. lra. }
      exists ((1 # 2) :: halves), r. rewrite H1, <- app_assoc. cbn [app].
      split; [reflexivity |]. split; [by constructor |].
      split.
      { unfold product in *. cbn [fold_right]. rewrite <- Qmult_assoc, H3, Ed. field. }
      split; [exact H4 |]. split; [| lra].
      intros _. destruct (Qlt_le_dec (ratio / (1 # 2)) (1 # 2)) as [Hb | Hs].
      * by apply H5.
      * destruct (H6 Hs) as [-> _]. rewrite Ed. lra.
    + apply ltb_false in E. exists [], ratio. rewrite app_nil_r. unfold product. cbn.
      repeat split; try constructor; lra.
Qed.

Lemma whileAbove_more (fuel : nat) :
  forall filters ratio out,
    whileAbove fuel filters ratio = Some out ->
    whileAbove (S fuel) filters ratio = Some out.
Proof.
  induction fuel as [| fuel IH]; intros filters ratio out; [discriminate |].
  rewrite !whileAbove_S. destruct (JS.gtb ratio 2); [| done].
  rewrite <- whileAbove_S. apply IH.
Qed.

Lemma whileBelow_more (fuel : nat) :
  forall filters ratio out,
    whileBelow fuel filters ratio = Some out ->
    whileBelow (S fuel) filters ratio = Some out.
Proof.
  induction fuel as [| fuel IH]; intros filters ratio out; [discriminate |].
  rewrite !whileBelow_S. destruct (JS.ltb ratio (1 # 2)); [| done].
  rewrite <- whileBelow_S. apply IH.
Qed.

Lemma whileAbove_le (a b : nat) filters ratio out :
  (a <= b)%nat -> whileAbove a filters ratio = Some out ->
  whileAbove b filters ratio = Some out.
Proof.
  induction 1 as [| b Hab IHle]; [done |]. intros Hx. by apply whileAbove_more, IHle.
Qed.

Lemma whileBelow_le (a b : nat) filters ratio out :
  (a <= b)%nat -> whileBelow a filters ratio = Some out ->
  whileBelow b filters ratio = Some out.
Proof.
  induction 1 as [| b Hab IHle]; [done |]. intros Hx. by apply whileBelow_more, IHle.
Qed.

Lemma whileBelow_never (fuel : nat) :
  forall filters ratio, ratio <= 0 -> whileBelow fuel filters ratio = None.
Proof.
  induction fuel as [| fuel IH]; intros filters ratio Hr; [reflexivity |].
  rewrite whileBelow_S.
  assert (JS.ltb ratio (1 # 2) = true) as -> by (apply ltb_true; lra).
  apply IH. assert (ratio / (1 # 2) == ratio * 2) as -> by field. lra.
Qed.

Lemma toFixed4_near (x : Q) : 0 <= x -> Qabs (toFixed4 x - x) <= 1 # 20000.
Proof.
  intros Hx. unfold toFixed4.
  assert (JS.ltb x 0 = false) as -> by (apply ltb_false; lra).
  pose proof (round_bounds (x * 10000)) as [H1 H2].
  apply Qabs_Qle_condition.
  assert (inject_Z (JS.round (x * 10000)) / 10000
          == inject_Z (JS.round (x * 10000)) * (1 # 10000)) as -> by field.
  split; lra.
Qed.

Lemma toFixed4_range (x : Q) : (1 # 2) <= x <= 2 -> (1 # 2) <= toFixed4 x <= 2.
Proof.
  intros [H1 H2]. unfold toFixed4.
  assert (JS.ltb x 0 = false) as -> by (apply ltb_false; lra).
  assert (JS.round (5000) <= JS.round (x * 10000))%Z as L1 by (apply round_mono; lra).
  assert (JS.round (x * 10000) <= JS.round 20000)%Z as L2 by (apply round_mono; lra).
  change (JS.round 5000) with 5000%Z in L1. change (JS.round 20000) with 20000%Z in L2.
  rewrite Zle_Qle in L1, L2.
  assert (inject_Z (JS.round (x * 10000)) / 10000
          == inject_Z (JS.round (x * 10000)) * (1 # 10000)) as -> by field.
  change (inject_Z 5000) with 5000 in L1. change (inject_Z 20000) with 20000 in L2.
  split; lra.
Qed.

(** X8. The tempo chain of [adjustAudioSpeed].  For a positive speed ratio
    the two loops end, and the filters they leave are all within the range
    0.5 to 2 that [atempo] supports; they multiply to the speed ratio, the
    last one being printed with four decimals and so at most 0.00005 off.
    For a speed ratio of zero or less - a source of zero length - the
    second loop never ends. *)
Theorem X8_tempo_filters_stay_in_range (speedRatio : Q) :
  (0 < speedRatio ->
   exists fuel filters last,
     (forall more, (fuel <= more)%nat ->
                   atempoChain more speedRatio = Some (filters ++ [toFixed4 last], last))
     /\ Forall (fun f => (1 # 2) <= f <= 2) (filters ++ [toFixed4 last])
     /\ product (filters ++ [last]) == speedRatio
     /\ Qabs (toFixed4 last - last) <= 1 # 20000)
  /\ (speedRatio <= 0 -> forall fuel, atempoFilters fuel speedRatio = None).
Proof.
  split.
  - intros Hpos.
    set (n := Z.to_nat (Qceiling speedRatio)).
    set (m := Pos.to_nat (Qden speedRatio)).
    destruct (whileAbove_ends n [] speedRatio Hpos) as (twos & r & A1 & A2 & A3 & A4 & A5 & A6).
    { pose proof (Qle_ceiling speedRatio) as Hc.
      assert (Qceiling speedRatio <= 2 ^ Z.of_nat n)%Z as Hz.
      { unfold n. destruct (Z.le_gt_cases (Qceiling speedRatio) 0) as [Hn | Hp].
        - pose proof (Z.pow_pos_nonneg 2 (Z.of_nat (Z.to_nat (Qceiling speedRatio)))).
          lia.
        - rewrite Z2Nat.id by lia.
          pose proof (Z.pow_gt_lin_r 2 (Qceiling speedRatio)). lia. }
      rewrite Zle_Qle in Hz. pose proof (pow2_pos n). lra. }
    assert (0 < r) as Hr.
    { destruct (Qlt_le_dec 2 speedRatio) as [Hb | Hs]; [specialize (A5 Hb); lra |].
      destruct (A6 Hs) as [-> _]. exact Hpos. }
    destruct (whileBelow_ends m ([] ++ twos) r) as (halves & r' & B1 & B2 & B3 & B4 & B5 & B6).
    { destruct (Qlt_le_dec 2 speedRatio) as [Hb | Hs].
      - specialize (A5 Hb). pose proof (pow2_pos m).
        assert (1 <= inject_Z (2 ^ Z.of_nat m)) as Hone.
        { change 1 with (inject_Z 1). rewrite <- Zle_Qle.
          pose proof (Z.pow_pos_nonneg 2 (Z.of_nat m)). lia. }
        nra.
      - destruct (A6 Hs) as [-> _].
        assert (inject_Z (Z.pos (Qden speedRatio)) <= inject_Z (2 ^ Z.of_nat m)) as Hq.
        { rewrite <- Zle_Qle. unfold m. rewrite positive_nat_Z.
          pose proof (Z.pow_gt_lin_r 2 (Z.pos (Qden speedRatio))). lia. }
        assert (1 <= speedRatio * inject_Z (Z.pos (Qden speedRatio))) as Hn.
        { destruct speedRatio as [p q]. unfold Qlt in Hpos. cbn in Hpos.
          unfold Qle, Qmult, inject_Z. cbn. nia. }
        nra. }
    exists (S (n + m)), (twos ++ halves), r'.
    assert ((1 # 2) <= r' <= 2) as Hrange.
    { split; [exact B4 |].
      destruct (Qlt_le_dec r (1 # 2)) as [Hb | Hs]; [specialize (B5 Hb); lra |].
      destruct (B6 Hs) as [-> _]. exact A4. }
    split; [| split; [| split]].
    + intros more Hmore. unfold atempoChain.
      rewrite (whileAbove_le (S n) more [] speedRatio _ ltac:(lia) A1).
      rewrite (whileBelow_le (S m) more _ r _ ltac:(lia) B1).
      cbn [app]. reflexivity.
    + apply Forall_app. split; [apply Forall_app; split |].
      * eapply Forall_impl; [exact A2 |]. intros f ->. split; discriminate.
      * eapply Forall_impl; [exact B2 |]. intros f ->. split; discriminate.
      * repeat constructor; by apply toFixed4_range.
    + rewrite <- app_assoc, product_app, (product_app halves [r']).
      unfold product at 3. cbn [fold_right].
      assert (product halves * (r' * 1) == r) as -> by (rewrite <- B3; lra).
      exact A3.
    + apply toFixed4_near. lra.
  - intros Hneg fuel. unfold atempoFilters, atempoChain.
    destruct (whileAbove fuel [] speedRatio) as [[fs r] |] eqn:E; [| reflexivity].
    assert (r = speedRatio) as ->.
    { destruct fuel as [| fuel]; [discriminate |]. cbn [whileAbove] in E.
      assert (JS.gtb speedRatio 2 = false) as Hg by (apply ltb_false; lra).
      rewrite Hg in E. by injection E as _ <-. }
    by rewrite whileBelow_never.
Qed.

End TempoFacts.
